(** * Stock ledger transaction engine (TPI1): a shallow embedding

    The handlers of [src/hooks/useAppActions.js] and the submit handler of
    [src/components/modals/UseStockModal.jsx] are embedded as functions that
    stage Firestore writes in a small transaction monad.  The client-side
    [inventory] array the handlers read is an explicit argument, separate
    from the document store the staged writes are committed to. *)

From Stdlib Require Import ZArith List String Ascii Bool Lia.
From Stdlib Require Import Permutation Sorted QArith DecimalString DecimalNat.
Import ListNotations.

Local Open Scope string_scope.
Local Open Scope Z_scope.

(** ** JavaScript primitives used by the handlers *)

Module JS.

  (** Strings are held as their UTF-8 bytes.  The white space and line
      terminators that [String.prototype.trim] and [parseInt] skip are TAB,
      LF, VT, FF, CR and SP, of one byte; U+00A0, of two; U+1680, U+2000 to
      U+200A, U+2028, U+2029, U+202F, U+205F, U+3000 and U+FEFF, of
      three. *)
Definition isSpace (c : ascii) : bool :=
    match nat_of_ascii c with
    | 9%nat | 10%nat | 11%nat | 12%nat | 13%nat | 32%nat => true
    | _ => false
    end.

Definition isSpace2 (a b : ascii) : bool :=
    ((N_of_ascii a =? 194) && (N_of_ascii b =? 160))%N.

Definition isSpace3 (a b c : ascii) : bool :=
    let x := N_of_ascii a in
    let y := N_of_ascii b in
    let z := N_of_ascii c in
    (((x =? 225) && (y =? 154) && (z =? 128))
     || ((x =? 226) && (y =? 128)
         && (((128 <=? z) && (z <=? 138)) || (z =? 168) || (z =? 169) || (z =? 175)))
     || ((x =? 226) && (y =? 129) && (z =? 159))
     || ((x =? 227) && (y =? 128) && (z =? 128))
     || ((x =? 239) && (y =? 187) && (z =? 191)))%N.

  (** The string is one such character. *)
Definition isSpaceChar (s : string) : bool :=
    match s with
    | String a EmptyString => isSpace a
    | String a (String b EmptyString) => isSpace2 a b
    | String a (String b (String c EmptyString)) => isSpace3 a b c
    | _ => false
    end.

Fixpoint trimStart (s : string) : string :=
    match s with
    | EmptyString => EmptyString
    | String a s1 =>
        if isSpace a then trimStart s1
        else
          match s1 with
          | String b s2 =>
              if isSpace2 a b then trimStart s2
              else
                match s2 with
                | String c s3 => if isSpace3 a b c then trimStart s3 else s
                | EmptyString => s
                end
          | EmptyString => s
          end
    end.

  (** [trimEnd] drops a trailing run of white space: what is left of the
      tail, with the byte before it, is dropped when it is one character
      of white space. *)
Fixpoint trimEnd (s : string) : string :=
    match s with
    | EmptyString => EmptyString
    | String c s' =>
        let t := String c (trimEnd s') in
        if isSpaceChar t then EmptyString else t
    end.

Definition trim (s : string) : string := trimEnd (trimStart s).

  (** [a || b] on strings: the empty string is falsy. *)
Definition orElse (a b : string) : string :=
    match a with EmptyString => b | _ => a end.

  (** Numbers.  An integer of the embedding is the value of a JavaScript
      number; up to [MAX_SAFE_INTEGER] in magnitude every integer is one.
      [toNumber z] is the number nearest to [z], a half going to the even
      mantissa of 53 bits: the value [parseInt] returns for the digits of
      [z].  (From 2^1024 on that value is [Infinity], which the embedding
      has not.) *)
Definition MAX_SAFE_INTEGER : Z := 9007199254740991.

Definition isSafeInteger (n : Z) : bool := Z.abs n <=? MAX_SAFE_INTEGER.

Definition toNumber (z : Z) : Z :=
    let a := Z.abs z in
    if a <=? MAX_SAFE_INTEGER then z
    else
      let e := Z.log2 a - 52 in
      let q := Z.shiftr a e in
      let r := a - Z.shiftl q e in
      let half := Z.shiftl 1 (e - 1) in
      let q' := if r <? half then q
                else if half <? r then q + 1
                else if Z.even q then q else q + 1 in
      Z.sgn z * Z.shiftl q' e.

  (** Decimal digits of a natural number. *)
Definition digitsOf (a : Z) : string := NilZero.string_of_uint (N.to_uint (Z.to_N a)).

  (** [roundsTo a v]: the integer [v] is read as the number [a], for a
      number [a] above [MAX_SAFE_INTEGER]: [v] is at most half a gap away
      from [a], and less when the mantissa of [a] is odd.  Distances are
      taken four times, the gap below a power of two being half the gap
      above. *)
Definition roundsTo (a v : Z) : bool :=
    let e := Z.log2 a - 52 in
    let m := Z.shiftr a e in
    let up := Z.shiftl 1 (e + 1) in
    let down := if m =? 4503599627370496 then Z.shiftl 1 e else up in
    let d := 4 * (v - a) in
    if 0 <=? d then (d <? up) || ((d =? up) && Z.even m)
    else (- d <? down) || ((- d =? down) && Z.even m).

  (** The decimal of fewest significant digits that is read as the number
      [a] of [n] digits, the nearest to [a] of them, the even one of two
      equally near (Number::toString, step 5); [k] is the number of
      significant digits tried. *)
Fixpoint shortestFrom (fuel : nat) (a n k : Z) : Z :=
    match fuel with
    | O => a
    | S fuel' =>
        if n <=? k then a
        else
          let p := 10 ^ (n - k) in
          let lo := (a / p) * p in
          let hi := lo + p in
          match roundsTo a lo, roundsTo a hi with
          | true, true =>
              if a - lo <? hi - a then lo
              else if hi - a <? a - lo then hi
              else if Z.even (a / p) then lo else hi
          | true, false => lo
          | false, true => hi
          | false, false => shortestFrom fuel' a n (k + 1)
          end
    end.

Definition shortest (a : Z) : Z :=
    shortestFrom 17 a (Z.of_nat (String.length (digitsOf a))) 1.

  (** A string without its trailing zeros. *)
Fixpoint stripZeros (s : string) : string :=
    match s with
    | EmptyString => EmptyString
    | String c s' =>
        match stripZeros s' with
        | EmptyString => if Ascii.eqb c "0"%char then EmptyString else String c EmptyString
        | t => String c t
        end
    end.

  (** [`${n}`] for a number [n] that is an integer (Number::toString): all
      the digits up to [MAX_SAFE_INTEGER]; above, the shortest decimal that
      is read as [n], written out below 1e21 and as [d.ddde+x] from
      there. *)
Definition showZ (n : Z) : string :=
    if isSafeInteger n then NilZero.string_of_int (Z.to_int n)
    else
      let v := shortest (Z.abs (toNumber n)) in
      let ds := digitsOf v in
      let sign := if n <? 0 then "-" else EmptyString in
      if v <? 10 ^ 21 then sign ++ ds
      else
        match stripZeros ds with
        | String d rest =>
            sign ++ String d (match rest with
                              | EmptyString => EmptyString
                              | _ => String "."%char rest
                              end)
                 ++ "e+" ++ digitsOf (Z.of_nat (String.length ds) - 1)
        | EmptyString => sign ++ ds
        end.

  (** [s.split('|')]. *)
Fixpoint splitBar (s : string) : list string :=
    match s with
    | EmptyString => [EmptyString]
    | String c s' =>
        if Ascii.eqb c "|"%char then EmptyString :: splitBar s'
        else match splitBar s' with
             | p :: ps => String c p :: ps
             | [] => [String c EmptyString]
             end
    end.

Definition digit (c : ascii) : option Z :=
    let n := Z.of_nat (nat_of_ascii c) in
    if (48 <=? n) && (n <=? 57) then Some (n - 48) else None.

  (** Longest prefix of decimal digits, read as a number; [None] when the
      prefix is empty. *)
Fixpoint digits (acc : option Z) (s : string) : option Z :=
    match s with
    | EmptyString => acc
    | String c s' =>
        match digit c with
        | Some d => digits (Some (10 * match acc with Some a => a | None => 0 end + d)) s'
        | None => acc
        end
    end.

  (** [parseInt(s, 10)]: the number nearest to the integer read; [None] is
      NaN, which is also the result on [undefined]. *)
Definition parseInt (s : option string) : option Z :=
    match s with
    | None => None
    | Some s =>
        option_map toNumber
          match trimStart s with
          | String "-" r => option_map Z.opp (digits None r)
          | String "+" r => digits None r
          | r => digits None r
          end
    end.

  (** [Array.prototype.sort(cmp)]: a stable sort (ECMAScript 2019), here by
      insertion from the right.  [cmp a b <= 0] keeps [a] before [b]. *)
Section Sort.
Context {A : Type} (cmp : A -> A -> Z).

Fixpoint insert (x : A) (l : list A) : list A :=
      match l with
      | [] => [x]
      | y :: l' => if cmp x y <=? 0 then x :: l else y :: insert x l'
      end.

Definition sort (l : list A) : list A := fold_right insert [] l.
End Sort.

  (** [a.slice(0, n)]. *)
Definition slice0 {A : Type} (n : Z) (l : list A) : list A :=
    firstn (Z.to_nat n) l.

  (** [a.length]. *)
Definition len {A : Type} (l : list A) : Z := Z.of_nat (List.length l).

End JS.

(** ** Documents *)

(** Dates are kept as the millisecond value that [new Date(iso)] yields for
    the ISO string the code stores; [toISOString] and [new Date] are inverse
    to each other on those. *)
Definition timestamp := Z.

(** A unit of the [inventory] collection ("sheet").  [id] is the document
    id, which the client attaches to every element of its [inventory]
    array. *)
Module Sheet.
Record t : Type := mk {
    id : string;
    materialType : string;
    length : Z;
    width : Z;
    gauge : string;
    density : option Q;
    thickness : option Q;
    costPerPound : Q;
    supplier : string;
    status : string;
    job : string;
    createdAt : timestamp;
    arrivalDate : option timestamp;
    dateReceived : option timestamp;
    usageLogId : option string;
    jobNameUsed : option string;
    customerUsed : option string;
    usedAt : option timestamp
  }.

Definition withId (i : string) (s : t) : t :=
    mk i (materialType s) (length s) (width s) (gauge s) (density s)
       (thickness s) (costPerPound s) (supplier s) (status s) (job s)
       (createdAt s) (arrivalDate s) (dateReceived s) (usageLogId s)
       (jobNameUsed s) (customerUsed s) (usedAt s).

  (** Field update [{status, usageLogId, jobNameUsed, customerUsed, usedAt}]. *)
Definition withUsage (st : string) (l j c : option string)
      (u : option timestamp) (s : t) : t :=
    mk (id s) (materialType s) (length s) (width s) (gauge s) (density s)
       (thickness s) (costPerPound s) (supplier s) st (job s)
       (createdAt s) (arrivalDate s) (dateReceived s) l j c u.

  (** Field update [{status, dateReceived}]. *)
Definition withReceipt (st : string) (d : timestamp) (s : t) : t :=
    mk (id s) (materialType s) (length s) (width s) (gauge s) (density s)
       (thickness s) (costPerPound s) (supplier s) st (job s)
       (createdAt s) (arrivalDate s) (Some d) (usageLogId s)
       (jobNameUsed s) (customerUsed s) (usedAt s).
End Sheet.

(** An element of a usage log's [details] array. *)
Inductive detail : Type :=
| Snapshot (s : Sheet.t)
    (** the sheet object itself, as pushed by [usedItemsForLog.push(sheet)] *)
| Synthetic (materialType : string) (length width : Z) (gauge : string)
            (density thickness : Q)
    (** the descriptor of a scheduled use; it has no [id] *)
| Stripped (s : Sheet.t)
    (** [{...rest, qty: 1}]: the sheet without its [id] *).

Definition detail_id (d : detail) : option string :=
  match d with
  | Snapshot s => Some (Sheet.id s)
  | Synthetic _ _ _ _ _ _ => None
  | Stripped _ => None
  end.

Definition detail_materialType (d : detail) : string :=
  match d with
  | Snapshot s => Sheet.materialType s
  | Synthetic m _ _ _ _ _ => m
  | Stripped s => Sheet.materialType s
  end.

Definition detail_length (d : detail) : Z :=
  match d with
  | Snapshot s => Sheet.length s
  | Synthetic _ l _ _ _ _ => l
  | Stripped s => Sheet.length s
  end.

(** A document of the [usage_logs] collection. *)
Module Log.
Record t : Type := mk {
    id : string;
    job : string;
    customer : string;
    createdAt : timestamp;
    usedAt : timestamp;
    status : option string;
    details : list detail;
    qty : Z;
    fulfilledAt : option timestamp
  }.
End Log.

(** A document of the [materials] collection. *)
Module Material.
Record t : Type := mk {
    id : string;
    category : string;
    density : option Q;
    thickness : option Q
  }.
End Material.

(** ** The document store and its writes *)

Record db : Type := mkDb {
  inventoryCol : list Sheet.t;
  usageLogsCol : list Log.t;
  materialsCol : list Material.t
}.

(** The write operations the handlers stage through [transaction.set],
    [transaction.update], [transaction.delete], their [writeBatch]
    counterparts, [updateDoc] and [deleteDoc]. *)
Inductive write : Type :=
| SetSheet (id : string) (data : Sheet.t)
| UpdateSheet (id : string) (status : string)
              (usageLogId jobNameUsed customerUsed : option string)
              (usedAt : option timestamp)
| ReceiveSheet (id : string) (status : string) (dateReceived : timestamp)
| DeleteSheet (id : string)
| SetLog (id : string) (data : Log.t)
| FulfillLog (id : string) (status : string) (details : list detail)
             (fulfilledAt : timestamp)
| EditLog (id : string) (job customer : string) (usedAt : option timestamp)
          (details : list detail) (qty : Z)
| DeleteLog (id : string)
| SetMaterial (id : string) (data : Material.t)
| DeleteMaterial (id : string).

Definition hasSheet (i : string) (l : list Sheet.t) : bool :=
  existsb (fun s => String.eqb (Sheet.id s) i) l.

Definition hasLog (i : string) (l : list Log.t) : bool :=
  existsb (fun r => String.eqb (Log.id r) i) l.

Definition hasMaterial (i : string) (l : list Material.t) : bool :=
  existsb (fun m => String.eqb (Material.id m) i) l.

Definition patchSheet (i : string) (f : Sheet.t -> Sheet.t)
    (l : list Sheet.t) : list Sheet.t :=
  map (fun s => if String.eqb (Sheet.id s) i then f s else s) l.

Definition patchLog (i : string) (f : Log.t -> Log.t)
    (l : list Log.t) : list Log.t :=
  map (fun r => if String.eqb (Log.id r) i then f r else r) l.

Definition dropSheet (i : string) (l : list Sheet.t) : list Sheet.t :=
  filter (fun s => negb (String.eqb (Sheet.id s) i)) l.

Definition dropLog (i : string) (l : list Log.t) : list Log.t :=
  filter (fun r => negb (String.eqb (Log.id r) i)) l.

Definition dropMaterial (i : string) (l : list Material.t) : list Material.t :=
  filter (fun m => negb (String.eqb (Material.id m) i)) l.

Definition logWithId (i : string) (r : Log.t) : Log.t :=
  Log.mk i (Log.job r) (Log.customer r) (Log.createdAt r) (Log.usedAt r)
         (Log.status r) (Log.details r) (Log.qty r) (Log.fulfilledAt r).

Definition materialWithId (i : string) (m : Material.t) : Material.t :=
  Material.mk i (Material.category m) (Material.density m) (Material.thickness m).

(** One write against the store.  [set] creates or replaces the document,
    [update] fails when the document does not exist, [delete] of a missing
    document is a no-op. *)
Definition applyWrite (d : db) (w : write) : option db :=
  match w with
  | SetSheet i s =>
      let s' := Sheet.withId i s in
      Some (mkDb (if hasSheet i (inventoryCol d)
                  then patchSheet i (fun _ => s') (inventoryCol d)
                  else inventoryCol d ++ [s'])
                 (usageLogsCol d) (materialsCol d))
  | UpdateSheet i st l j c u =>
      if hasSheet i (inventoryCol d)
      then Some (mkDb (patchSheet i (Sheet.withUsage st l j c u) (inventoryCol d))
                      (usageLogsCol d) (materialsCol d))
      else None
  | ReceiveSheet i st r =>
      if hasSheet i (inventoryCol d)
      then Some (mkDb (patchSheet i (Sheet.withReceipt st r) (inventoryCol d))
                      (usageLogsCol d) (materialsCol d))
      else None
  | DeleteSheet i =>
      Some (mkDb (dropSheet i (inventoryCol d)) (usageLogsCol d) (materialsCol d))
  | SetLog i r =>
      let r' := logWithId i r in
      Some (mkDb (inventoryCol d)
                 (if hasLog i (usageLogsCol d)
                  then patchLog i (fun _ => r') (usageLogsCol d)
                  else usageLogsCol d ++ [r'])
                 (materialsCol d))
  | FulfillLog i st ds f =>
      if hasLog i (usageLogsCol d)
      then Some (mkDb (inventoryCol d)
                      (patchLog i (fun r =>
                         Log.mk (Log.id r) (Log.job r) (Log.customer r)
                                (Log.createdAt r) (Log.usedAt r) (Some st) ds
                                (Log.qty r) (Some f)) (usageLogsCol d))
                      (materialsCol d))
      else None
  | EditLog i j c u ds q =>
      if hasLog i (usageLogsCol d)
      then Some (mkDb (inventoryCol d)
                      (patchLog i (fun r =>
                         Log.mk (Log.id r) j c (Log.createdAt r)
                                (match u with Some t => t | None => Log.usedAt r end)
                                (Log.status r) ds q (Log.fulfilledAt r))
                                (usageLogsCol d))
                      (materialsCol d))
      else None
  | DeleteLog i =>
      Some (mkDb (inventoryCol d) (dropLog i (usageLogsCol d)) (materialsCol d))
  | SetMaterial i m =>
      let m' := materialWithId i m in
      Some (mkDb (inventoryCol d) (usageLogsCol d)
                 (if hasMaterial i (materialsCol d)
                  then map (fun x => if String.eqb (Material.id x) i then m' else x)
                           (materialsCol d)
                  else materialsCol d ++ [m']))
  | DeleteMaterial i =>
      Some (mkDb (inventoryCol d) (usageLogsCol d) (dropMaterial i (materialsCol d)))
  end.

(** All-or-nothing commit of a list of writes, in staging order. *)
Fixpoint commit (d : db) (ws : list write) : option db :=
  match ws with
  | [] => Some d
  | w :: ws' =>
      match applyWrite d w with
      | Some d' => commit d' ws'
      | None => None
      end
  end.

(** ** Errors thrown by the handlers

    Each constructor stands for one [throw new Error(...)] of the source and
    carries the values interpolated into its message. *)
Inductive error : Type :=
| NotEnoughStock (qty : Z) (materialType : string) (len : Z) (available : Z)
    (** "Not enough stock for ${qty}x ${materialType} @ ${len}. Only ${available} available." *)
| CannotFulfill (qty : Z) (materialType : string) (length : option Z) (available : Z)
    (** "Cannot fulfill: Not enough stock for ..." *)
| CannotRemove (sheetsToRemove available : Z)
    (** "Cannot remove ${sheetsToRemove} sheets. Only ${available} available." *)
| EditNotEnoughStock (materialType : string) (length : option Z) (needed available : Z)
    (** "Not enough stock for ${materialType} @ ${length}. Needed: ..., Available: ..." *)
| ConcurrencyError (materialType : string) (len : Z)
    (** "Concurrency Error: Not enough stock for ${materialType} @ ${len} during edit." *)
| ValidationError
    (** "A Customer name is required for all jobs." *)
| InvalidData
    (** the store rejects a document with an [undefined] field *)
| CommitFailed
    (** the store rejects the commit: an updated document does not exist *).

(** ** The transaction monad

    A transaction body stages writes and draws auto-generated document ids;
    a [throw] abandons everything staged. *)
Record txState : Type := mkTx {
  nextAuto : nat;
  staged : list write
}.

Definition Tx (A : Type) : Type := txState -> error + (A * txState).

Definition ret {A : Type} (a : A) : Tx A := fun st => inr (a, st).

Definition bind {A B : Type} (m : Tx A) (k : A -> Tx B) : Tx B :=
  fun st => match m st with
            | inl e => inl e
            | inr (a, st') => k a st'
            end.

Definition throw {A : Type} (e : error) : Tx A := fun _ => inl e.

Definition stage (w : write) : Tx unit :=
  fun st => inr (tt, mkTx (nextAuto st) (staged st ++ [w])).

Declare Scope tx_scope.
Delimit Scope tx_scope with tx.
Notation "x <- m ;; k" := (bind m (fun x => k))
  (at level 61, m at next level, right associativity) : tx_scope.
Notation "m ;; k" := (bind m (fun _ => k))
  (at level 61, right associativity) : tx_scope.
Local Open Scope tx_scope.

(** [for (const a of l) { acc = f(acc, a) }] with a body that may throw. *)
Fixpoint foldM {A B : Type} (f : B -> A -> Tx B) (l : list A) (b : B) : Tx B :=
  match l with
  | [] => ret b
  | a :: l' => b' <- f b a ;; foldM f l' b'
  end.

(** [l.forEach(f)] / [for (const a of l) f(a)]. *)
Definition forM_ {A : Type} (l : list A) (f : A -> Tx unit) : Tx unit :=
  foldM (fun _ a => f a) l tt.

(** [for (let i = 0; i < n; i++) body]. *)
Fixpoint repeatM (n : nat) (body : Tx unit) : Tx unit :=
  match n with
  | O => ret tt
  | S n' => body ;; repeatM n' body
  end.

(** ** Plain JavaScript objects used as string-keyed counters

    Keys of the form [`${materialType}|${length}`] are never array indices,
    so enumeration ([Object.entries], [for ... in]) is in insertion order. *)
Module Obj.
Definition t : Type := list (string * Z).

Fixpoint get (o : t) (k : string) : option Z :=
  match o with
  | [] => None
  | (k', v) :: o' => if String.eqb k' k then Some v else get o' k
  end.

Fixpoint set (o : t) (k : string) (v : Z) : t :=
  match o with
  | [] => [(k, v)]
  | (k', v') :: o' =>
      if String.eqb k' k then (k', v) :: o' else (k', v') :: set o' k v
  end.

(** [o[k] || 0]. *)
Definition getOr0 (o : t) (k : string) : Z :=
  match get o k with Some v => v | None => 0 end.
End Obj.

(** ** Requests from the form layer *)

(** One material line of a job.  [qty len] is the value of
    [parseInt(item[`qty${len}`] || 0)]; a NaN is recorded as [0], which every
    test the handlers make on the quantity ([qty > 0], [qty <= 0] followed
    by [slice(0, qty)], [i < qty]) treats alike. *)
Module Item.
Record t : Type := mk {
  materialType : string;
  qty : Z -> Z;
  costPerPound : Q
}.
End Item.

Module Job.
Record t : Type := mk {
  customer : string;
  jobName : string;
  items : list Item.t;
  status : string;
  supplier : string;
  arrivalDate : option timestamp
}.
End Job.

(** A group of units as shown in the incoming log ([originalOrderGroup],
    [orderGroup], [group]). *)
Module Group.
Record t : Type := mk {
  date : option timestamp;
  dateOrdered : option timestamp;
  details : list Sheet.t
}.
End Group.

(** A material of a new category, as entered. *)
Module MaterialInput.
Record t : Type := mk {
  name : string;
  thickness : Q;
  density : Q
}.
End MaterialInput.

(** The [newLogData] of an edit. *)
Module LogData.
Record t : Type := mk {
  jobName : string;
  customer : string;
  date : timestamp;
  items : list Item.t
}.
End LogData.

(** The hook's parameters that the handlers read: client-side state
    captured when the handler was created. *)
Record params : Type := mkParams {
  materials : list (string * Material.t);
  inventory : list Sheet.t;
  inventorySummary : string -> Z -> option Z;
  categoriesToDelete : list string
}.

(** [materials[key]]. *)
Fixpoint lookupMaterial (ms : list (string * Material.t)) (k : string)
    : option Material.t :=
  match ms with
  | [] => None
  | (k', m) :: ms' => if String.eqb k' k then Some m else lookupMaterial ms' k
  end.

(** [materialInfo?.density || 0] and [materialInfo?.thickness || 0]. *)
Definition densityOr0 (mi : option Material.t) : Q :=
  match mi with
  | Some m => match Material.density m with Some x => x | None => 0%Q end
  | None => 0%Q
  end.

Definition thicknessOr0 (mi : option Material.t) : Q :=
  match mi with
  | Some m => match Material.thickness m with Some x => x | None => 0%Q end
  | None => 0%Q
  end.

(** The comparator [(a, b) => new Date(a.createdAt) - new Date(b.createdAt)]. *)
Definition byCreatedAt (a b : Sheet.t) : Z := Sheet.createdAt a - Sheet.createdAt b.

(** [arr.includes(x)] on an array of possibly-undefined ids. *)
Definition includesId (ids : list (option string)) (i : string) : bool :=
  existsb (fun o => match o with Some j => String.eqb j i | None => false end) ids.

Definition includesStr (l : list string) (x : string) : bool :=
  existsb (String.eqb x) l.

(** [log.status === v]; a record written without [status] has none. *)
Definition statusIs (s : option string) (v : string) : bool :=
  match s with
  | Some x => String.eqb x v
  | None => false
  end.

(** [i.length === length] where [length] may be NaN. *)
Definition lengthIs (s : Sheet.t) (l : option Z) : bool :=
  match l with Some n => Sheet.length s =? n | None => false end.

(** The allocation step every consuming handler repeats inline:
    [pool.filter(pred).sort(byCreatedAt)], of which [slice(0, qty)] is
    taken. *)
Definition matching (pred : Sheet.t -> bool) (pool : list Sheet.t) : list Sheet.t :=
  JS.sort byCreatedAt (filter pred pool).

Definition selectSheets (pred : Sheet.t -> bool) (pool : list Sheet.t) (qty : Z)
    : list Sheet.t :=
  JS.slice0 qty (matching pred pool).

(** [i.materialType === m && i.length === len && i.status === 'On Hand']. *)
Definition onHandAt (m : string) (len : Z) (i : Sheet.t) : bool :=
  String.eqb (Sheet.materialType i) m && (Sheet.length i =? len)
  && String.eqb (Sheet.status i) "On Hand".

(** The state outside a transaction: the store and the number of
    auto-generated ids drawn so far. *)
Record world : Type := mkWorld {
  store : db;
  idsDrawn : nat
}.

(** [toISOString().split('T')[0]]: the UTC day of a time. *)
Definition dateOnly (t : timestamp) : timestamp := t - t mod 86400000.

(** [id.replace(/\//g, '-')]. *)
Fixpoint replaceSlash (s : string) : string :=
  match s with
  | EmptyString => EmptyString
  | String c s' => String (if Ascii.eqb c "/"%char then "-"%char else c) (replaceSlash s')
  end.

(** The key [`${materialType}|${length}`] of the tallies. *)
Definition keyOf (materialType : string) (length : Z) : string :=
  materialType ++ "|" ++ JS.showZ length.

(** ** The handlers *)

Section Engine.

(** [STANDARD_LENGTHS] of [constants/materials] and [getGaugeFromMaterial]
    of [utils/dataProcessing] are imported by the handlers; [autoId n] is
    the id of the [n]-th document reference created by [doc(collection)]. *)
Variable STANDARD_LENGTHS : list Z.
Variable getGaugeFromMaterial : string -> string.
Variable autoId : nat -> string.

(** [doc(collectionRef)]: a reference with an auto-generated id. *)
Definition newDoc : Tx string :=
  fun st => inr (autoId (nextAuto st), mkTx (S (nextAuto st)) (staged st)).

(** [runTransaction(db, body)]: the staged writes are committed together,
    or not at all when the body throws or the commit is rejected. *)
Definition runTransaction (body : Tx unit) (w : world) : option error * world :=
  match body (mkTx (idsDrawn w) []) with
  | inl e => (Some e, w)
  | inr (_, st) =>
      match commit (store w) (staged st) with
      | Some d => (None, mkWorld d (nextAuto st))
      | None => (Some CommitFailed, w)
      end
  end.

(** [batch.commit()], [updateDoc], [deleteDoc]. *)
Definition commitBatch (ws : list write) (w : world) : option error * world :=
  match commit (store w) ws with
  | Some d => (None, mkWorld d (idsDrawn w))
  | None => (Some CommitFailed, w)
  end.

(** The descriptors pushed for one scheduled job, with [totalItems]
    (lines 60-81; the same loop is lines 331-351 of the edit).
    [scheduledLen] is the body of the loop over the standard lengths. *)
Definition scheduledLen (p : params) (item : Item.t) (acc : list detail * Z)
    (len : Z) : list detail * Z :=
  let '(itemsForLog, totalItems) := acc in
  let qty := Item.qty item len in
  if qty >? 0 then
    let materialInfo := lookupMaterial (materials p) (Item.materialType item) in
    ((itemsForLog ++
        repeat (Synthetic (Item.materialType item) len 48
                          (getGaugeFromMaterial (Item.materialType item))
                          (densityOr0 materialInfo) (thicknessOr0 materialInfo))
               (Z.to_nat qty))%list,
     totalItems + qty)
  else (itemsForLog, totalItems).

Definition scheduledItems (p : params) (items : list Item.t) : list detail * Z :=
  fold_left (fun acc item => fold_left (scheduledLen p item) STANDARD_LENGTHS acc)
            items ([], 0).

(** The write that marks a sheet Used (lines 115-122, 170-177, 422-429). *)
Definition markUsed (now : timestamp) (logId jobNameUsed customerUsed : string)
    (sheet : Sheet.t) : Tx unit :=
  stage (UpdateSheet (Sheet.id sheet) "Used" (Some logId) (Some jobNameUsed)
                     (Some customerUsed) (Some now)).

(** Immediate use, body of the loop over the standard lengths for one item
    of one job (lines 101-125). *)
Definition useLen (p : params) (now : timestamp) (job : Job.t) (logDocRef : string)
    (item : Item.t) (usedItemsForLog : list Sheet.t) (len : Z) : Tx (list Sheet.t) :=
  let qty := Item.qty item len in
  if qty <=? 0 then ret usedItemsForLog
  else
    let matchingSheets :=
      matching (onHandAt (Item.materialType item) len) (inventory p) in
    if JS.len matchingSheets <? qty then
      throw (NotEnoughStock qty (Item.materialType item) len (JS.len matchingSheets))
    else
      let sheetsToUse := JS.slice0 qty matchingSheets in
      forM_ sheetsToUse
            (markUsed now logDocRef (JS.orElse (JS.trim (Job.jobName job)) "N/A")
                      (Job.customer job)) ;;
      ret (usedItemsForLog ++ sheetsToUse)%list.

(** One job of [handleUseStock] (lines 58-141). *)
Definition useJob (p : params) (now : timestamp) (isScheduled : bool)
    (scheduledDate : timestamp) (job : Job.t) : Tx unit :=
  if isScheduled then
    let '(itemsForLog, totalItems) := scheduledItems p (Job.items job) in
    if JS.len itemsForLog >? 0 then
      logDocRef <- newDoc ;;
      stage (SetLog logDocRef
               (Log.mk logDocRef (JS.orElse (JS.trim (Job.jobName job)) "N/A")
                       (Job.customer job) now scheduledDate (Some "Scheduled")
                       itemsForLog (- totalItems) None))
    else ret tt
  else
    logDocRef <- newDoc ;;
    usedItemsForLog <-
      foldM (fun used item => foldM (useLen p now job logDocRef item) STANDARD_LENGTHS used)
            (Job.items job) [] ;;
    if JS.len usedItemsForLog >? 0 then
      stage (SetLog logDocRef
               (Log.mk logDocRef (JS.orElse (JS.trim (Job.jobName job)) "N/A")
                       (Job.customer job) now now (Some "Completed")
                       (map Snapshot usedItemsForLog)
                       (- JS.len usedItemsForLog) None))
    else ret tt.

(** Body of the transaction of [handleUseStock] (lines 54-142). *)
Definition useStockBody (p : params) (now : timestamp) (jobs : list Job.t)
    (isScheduled : bool) (scheduledDate : timestamp) : Tx unit :=
  forM_ jobs (useJob p now isScheduled scheduledDate).

Definition handleUseStock (p : params) (now : timestamp) (jobs : list Job.t)
    (isScheduled : bool) (scheduledDate : timestamp) (w : world)
    : option error * world :=
  runTransaction (useStockBody p now jobs isScheduled scheduledDate) w.

(** [handleSubmit] of [UseStockModal.jsx] (lines 17-76); [inventory] is the
    modal's own prop.  [modalLen] is the body of the loop over the standard
    lengths (lines 33-51). *)
Definition modalLen (inventory : list Sheet.t) (item : Item.t)
    (usedItemsForLog : list detail) (len : Z) : Tx (list detail) :=
  let qty := Item.qty item len in
  if qty <=? 0 then ret usedItemsForLog
  else
    let matchingSheets :=
      matching (fun i =>
                  String.eqb (Sheet.materialType i) (Item.materialType item)
                  && (Sheet.length i =? len)
                  && negb (String.eqb (Sheet.status i) "Ordered"))
               inventory in
    if JS.len matchingSheets <? qty then
      throw (NotEnoughStock qty (Item.materialType item) len (JS.len matchingSheets))
    else
      let sheetsToUse := JS.slice0 qty matchingSheets in
      forM_ sheetsToUse (fun sheet => stage (DeleteSheet (Sheet.id sheet))) ;;
      ret (usedItemsForLog ++ map Stripped sheetsToUse)%list.

Definition modalJob (inventory : list Sheet.t) (now : timestamp) (job : Job.t)
    : Tx unit :=
  usedItemsForLog <-
    foldM (fun used item => foldM (modalLen inventory item) STANDARD_LENGTHS used)
          (Job.items job) [] ;;
  if JS.len usedItemsForLog >? 0 then
    logDocRef <- newDoc ;;
    stage (SetLog logDocRef
             (Log.mk logDocRef (JS.orElse (Job.jobName job) EmptyString)
                     (Job.customer job) now now None
                     usedItemsForLog (- JS.len usedItemsForLog) None))
  else ret tt.

Definition modalSubmitBody (inventory : list Sheet.t) (now : timestamp)
    (jobs : list Job.t) : Tx unit :=
  forM_ jobs (modalJob inventory now).

Definition modalHandleSubmit (inventory : list Sheet.t) (now : timestamp)
    (jobs : list Job.t) (w : world) : option error * world :=
  if existsb (fun j => match JS.trim (Job.customer j) with
                       | EmptyString => true
                       | _ => false
                       end) jobs
  then (Some ValidationError, w)
  else runTransaction (modalSubmitBody inventory now jobs) w.

(** [handleFulfillScheduledLog] (lines 145-191).  [tally] is the reducer of
    lines 148-152, [fulfillEntry] the body of the loop over the entries of
    [itemsNeeded] (lines 155-167). *)
Definition tally (acc : Obj.t) (item : detail) : Obj.t :=
  let key := keyOf (detail_materialType item) (detail_length item) in
  Obj.set acc key (Obj.getOr0 acc key + 1).

Definition fulfillEntry (p : params) (inventoryToUpdate : list Sheet.t)
    (entry : string * Z) : Tx (list Sheet.t) :=
  let '(key, qty) := entry in
  let parts := JS.splitBar key in
  let materialType := hd EmptyString parts in
  let length := JS.parseInt (nth_error parts 1) in
  let availableSheets :=
    matching (fun i => String.eqb (Sheet.materialType i) materialType
                       && lengthIs i length
                       && String.eqb (Sheet.status i) "On Hand")
             (inventory p) in
  if JS.len availableSheets <? qty then
    throw (CannotFulfill qty materialType length (JS.len availableSheets))
  else ret (inventoryToUpdate ++ JS.slice0 qty availableSheets)%list.

Definition fulfillBody (p : params) (now : timestamp) (logToFulfill : Log.t)
    : Tx unit :=
  let itemsNeeded := fold_left tally (Log.details logToFulfill) [] in
  inventoryToUpdate <- foldM (fulfillEntry p) itemsNeeded [] ;;
  forM_ inventoryToUpdate
        (markUsed now (Log.id logToFulfill) (Log.job logToFulfill)
                  (Log.customer logToFulfill)) ;;
  stage (FulfillLog (Log.id logToFulfill) "Completed"
           (map Snapshot inventoryToUpdate) now).

Definition handleFulfillScheduledLog (p : params) (now : timestamp)
    (logToFulfill : Log.t) (w : world) : option error * world :=
  runTransaction (fulfillBody p now logToFulfill) w.

(** [handleAddOrEditOrder] (lines 215-254).  A unit whose [createdAt] would
    be [undefined] is refused by [transaction.set]. *)
Definition addOrEditOrderBody (now : timestamp) (jobs : list Job.t)
    (originalOrderGroup : option Group.t) : Tx unit :=
  match originalOrderGroup with
  | Some g => forM_ (Group.details g) (fun item => stage (DeleteSheet (Sheet.id item)))
  | None => ret tt
  end ;;
  forM_ jobs (fun job =>
    let jobName := JS.orElse (JS.trim (Job.jobName job)) "N/A" in
    forM_ (Job.items job) (fun item =>
      let createdAt :=
        match originalOrderGroup with
        | Some g => match Group.date g with
                    | Some d => Some d
                    | None => Group.dateOrdered g
                    end
        | None => Some now
        end in
      let arrivalDate :=
        if String.eqb (Job.status job) "Ordered" then Job.arrivalDate job else None in
      forM_ STANDARD_LENGTHS (fun len =>
        let qty := Item.qty item len in
        repeatM (Z.to_nat qty)
          (newDocRef <- newDoc ;;
           match createdAt with
           | Some c =>
               stage (SetSheet newDocRef
                        (Sheet.mk newDocRef (Item.materialType item) len 48
                                  (getGaugeFromMaterial (Item.materialType item))
                                  None None (Item.costPerPound item)
                                  (Job.supplier job) (Job.status job) jobName
                                  c arrivalDate None None None None None))
           | None => throw InvalidData
           end)))).

Definition handleAddOrEditOrder (now : timestamp) (jobs : list Job.t)
    (originalOrderGroup : option Group.t) (w : world) : option error * world :=
  runTransaction (addOrEditOrderBody now jobs originalOrderGroup) w.

(** [handleAddCategory] (lines 193-205). *)
Definition handleAddCategory (categoryName : string)
    (materialsToAdd : list MaterialInput.t) (w : world) : option error * world :=
  commitBatch
    (map (fun material =>
            let materialId := replaceSlash (MaterialInput.name material) in
            SetMaterial materialId
              (Material.mk materialId categoryName
                           (Some (MaterialInput.density material))
                           (Some (MaterialInput.thickness material))))
         materialsToAdd) w.

(** [handleDeleteInventoryGroup] (lines 256-264). *)
Definition handleDeleteInventoryGroup (group : option Group.t) (w : world)
    : option error * world :=
  match group with
  | None => (None, w)
  | Some g =>
      match Group.details g with
      | [] => (None, w)
      | ds => commitBatch (map (fun item => DeleteSheet (Sheet.id item)) ds) w
      end
  end.

(** [handleDeleteLog] (lines 266-269). *)
Definition handleDeleteLog (logId : string) (w : world) : option error * world :=
  commitBatch [DeleteLog logId] w.

(** [handleReceiveOrder] (lines 271-280); an item without a (non-empty)
    [id] is skipped. *)
Definition handleReceiveOrder (now : timestamp) (orderGroup : Group.t) (w : world)
    : option error * world :=
  commitBatch
    (flat_map (fun item =>
                 match Sheet.id item with
                 | EmptyString => []
                 | i => [ReceiveSheet i "On Hand" (dateOnly now)]
                 end)
              (Group.details orderGroup)) w.

(** [handleStockEdit] (lines 282-326). *)
Definition stockEditBody (p : params) (now : timestamp) (materialType : string)
    (length : Z) (diff : Z) : Tx unit :=
  if diff >? 0 then
    let materialInfo := lookupMaterial (materials p) materialType in
    let stockData :=
      Sheet.mk EmptyString materialType length 48 (getGaugeFromMaterial materialType)
               (Some (densityOr0 materialInfo)) (Some (thicknessOr0 materialInfo))
               0%Q "Manual Edit" "On Hand" "MODIFICATION: ADD" now None
               (Some (dateOnly now)) None None None None in
    repeatM (Z.to_nat diff)
      (newDocRef <- newDoc ;; stage (SetSheet newDocRef stockData))
  else
    let sheetsToRemove := Z.abs diff in
    let availableSheets := matching (onHandAt materialType length) (inventory p) in
    if JS.len availableSheets <? sheetsToRemove then
      throw (CannotRemove sheetsToRemove (JS.len availableSheets))
    else
      let sheetsToDelete := JS.slice0 sheetsToRemove availableSheets in
      forM_ sheetsToDelete (fun sheet => stage (DeleteSheet (Sheet.id sheet))).

(** [inventorySummary[materialType]?.[length] || 0]. *)
Definition currentQuantity (p : params) (materialType : string) (length : Z) : Z :=
  match inventorySummary p materialType length with
  | Some n => n
  | None => 0
  end.

Definition handleStockEdit (p : params) (now : timestamp) (materialType : string)
    (length : Z) (newQuantity : Z) (w : world) : option error * world :=
  let diff := newQuantity - currentQuantity p materialType length in
  if diff =? 0 then (None, w)
  else runTransaction (stockEditBody p now materialType length diff) w.

(** [netChange] of the edit of a completed log (lines 362-375). *)
Definition netChangeOf (originalLog : Log.t) (newLogData : LogData.t) : Obj.t :=
  let counted := fold_left tally (Log.details originalLog) [] in
  fold_left (fun netChange item =>
    fold_left (fun netChange len =>
      let qty := Item.qty item len in
      if qty >? 0 then
        let key := keyOf (Item.materialType item) len in
        Obj.set netChange key (Obj.getOr0 netChange key - qty)
      else netChange)
      STANDARD_LENGTHS netChange)
    (LogData.items newLogData) counted.

(** The stock check of one key of [netChange] (lines 378-390). *)
Definition editCheck (p : params) (entry : string * Z) : Tx unit :=
  let '(key, change) := entry in
  if change <? 0 then
    let parts := JS.splitBar key in
    let materialType := hd EmptyString parts in
    let length := JS.parseInt (nth_error parts 1) in
    let needed := Z.abs change in
    let currentStock :=
      JS.len (filter (fun i => String.eqb (Sheet.materialType i) materialType
                               && lengthIs i length
                               && String.eqb (Sheet.status i) "On Hand")
                     (inventory p)) in
    if currentStock <? needed then
      throw (EditNotEnoughStock materialType length needed currentStock)
    else ret tt
  else ret tt.

(** Re-allocation for one item and one standard length (lines 409-431). *)
Definition editLen (p : params) (now : timestamp) (originalLog : Log.t)
    (newLogData : LogData.t) (originalItemIds : list (option string))
    (item : Item.t) (updatedUsedItemsForLog : list Sheet.t) (len : Z)
    : Tx (list Sheet.t) :=
  let qty := Item.qty item len in
  if qty <=? 0 then ret updatedUsedItemsForLog
  else
    let matchingSheets :=
      matching (fun i => onHandAt (Item.materialType item) len i
                         && negb (includesId originalItemIds (Sheet.id i)))
               (inventory p) in
    let sheetsToUse := JS.slice0 qty matchingSheets in
    if JS.len sheetsToUse <? qty then
      throw (ConcurrencyError (Item.materialType item) len)
    else
      forM_ sheetsToUse
            (markUsed now (Log.id originalLog) (LogData.jobName newLogData)
                      (LogData.customer newLogData)) ;;
      ret (updatedUsedItemsForLog ++ sheetsToUse)%list.

(** Transaction of [handleEditOutgoingLog] for a log that is not
    'Scheduled' (lines 360-441). *)
Definition editCompletedBody (p : params) (now : timestamp) (originalLog : Log.t)
    (newLogData : LogData.t) : Tx unit :=
  let netChange := netChangeOf originalLog newLogData in
  forM_ netChange (editCheck p) ;;
  let originalItemIds := map detail_id (Log.details originalLog) in
  let itemsToReturn :=
    filter (fun i => includesId originalItemIds (Sheet.id i)) (inventory p) in
  forM_ itemsToReturn (fun item =>
    stage (UpdateSheet (Sheet.id item) "On Hand" None None None None)) ;;
  updatedUsedItemsForLog <-
    foldM (fun used item =>
             foldM (editLen p now originalLog newLogData originalItemIds item)
                   STANDARD_LENGTHS used)
          (LogData.items newLogData) [] ;;
  stage (EditLog (Log.id originalLog) (LogData.jobName newLogData)
           (LogData.customer newLogData) None
           (map Snapshot updatedUsedItemsForLog)
           (- JS.len updatedUsedItemsForLog)).

(** [handleEditOutgoingLog] (lines 328-443). *)
Definition handleEditOutgoingLog (p : params) (now : timestamp) (originalLog : Log.t)
    (newLogData : LogData.t) (w : world) : option error * world :=
  if statusIs (Log.status originalLog) "Scheduled" then
    let '(newDetails, totalItems) := scheduledItems p (LogData.items newLogData) in
    commitBatch
      [EditLog (Log.id originalLog)
               (JS.orElse (JS.trim (LogData.jobName newLogData)) "N/A")
               (LogData.customer newLogData) (Some (LogData.date newLogData))
               newDetails (- totalItems)] w
  else runTransaction (editCompletedBody p now originalLog newLogData) w.

(** [handleConfirmDeleteCategories] (lines 22-49): the materials of the
    categories, the units of these materials, and the references to delete,
    materials first. *)
Definition materialIdsToDelete (p : params) : list string :=
  let materialsToDelete :=
    filter (fun m => includesStr (categoriesToDelete p) (Material.category m))
           (map snd (materials p)) in
  map Material.id materialsToDelete.

Definition inventoryToDelete (p : params) : list Sheet.t :=
  filter (fun item => includesStr (materialIdsToDelete p) (Sheet.materialType item))
         (inventory p).

Definition allDocRefsToDelete (p : params) : list write :=
  (map (fun id => DeleteMaterial (replaceSlash id)) (materialIdsToDelete p)
   ++ map (fun item => DeleteSheet (Sheet.id item)) (inventoryToDelete p))%list.

Definition MAX_BATCH_SIZE : Z := 500.

(** [a.slice(i, j)] for [0 <= i <= j]. *)
Definition slice {A : Type} (i j : Z) (l : list A) : list A :=
  firstn (Z.to_nat (j - i)) (skipn (Z.to_nat i) l).

(** [for (let i = 0; i < all.length; i += MAX_BATCH_SIZE)], collecting the
    chunk of every iteration; [fuel] bounds the number of iterations. *)
Fixpoint chunkLoop (fuel : nat) (i : Z) (all : list write) : list (list write) :=
  match fuel with
  | O => []
  | S fuel' =>
      if i <? JS.len all
      then slice i (i + MAX_BATCH_SIZE) all :: chunkLoop fuel' (i + MAX_BATCH_SIZE) all
      else []
  end.

(** The batches committed, in order; the loop makes at most one iteration
    per reference. *)
Definition deleteBatches (p : params) : list (list write) :=
  let all := allDocRefsToDelete p in
  chunkLoop (S (List.length all)) 0 all.

(** [await batch.commit()] chunk after chunk: a rejected commit ends the
    loop and leaves the earlier chunks committed. *)
Fixpoint commitChunks (chunks : list (list write)) (w : world) : option error * world :=
  match chunks with
  | [] => (None, w)
  | c :: cs =>
      match commitBatch c w with
      | (None, w') => commitChunks cs w'
      | (Some e, w') => (Some e, w')
      end
  end.

Definition handleConfirmDeleteCategories (p : params) (w : world)
    : option error * world :=
  commitChunks (deleteBatches p) w.

End Engine.

(** ** Vocabulary of the specification *)

(** Number of units of a list that are On Hand at a (materialType, length)
    key: the available stock of the key. *)
Definition onHandCount (m : string) (len : Z) (l : list Sheet.t) : Z :=
  JS.len (filter (onHandAt m len) l).

(** Units of a key that are Used and reference the record [logId]. *)
Definition usedFor (logId m : string) (len : Z) (i : Sheet.t) : bool :=
  String.eqb (Sheet.materialType i) m && (Sheet.length i =? len)
  && String.eqb (Sheet.status i) "Used"
  && match Sheet.usageLogId i with
     | Some l => String.eqb l logId
     | None => false
     end.

Definition atKey (m : string) (len : Z) (i : Sheet.t) : bool :=
  String.eqb (Sheet.materialType i) m && (Sheet.length i =? len).

(** [l'] is the first-in-first-out arrangement of [l]: the same units,
    ascending by [createdAt], units of equal [createdAt] in the order they
    have in [l]. *)
Definition fifoOf (l l' : list Sheet.t) : Prop :=
  Permutation l l'
  /\ StronglySorted (fun a b => Sheet.createdAt a <= Sheet.createdAt b) l'
  /\ forall t, filter (fun s => Sheet.createdAt s =? t) l'
               = filter (fun s => Sheet.createdAt s =? t) l.

(** Sizes of the chunks that cut [n] operations into batches of at most
    [MAX_BATCH_SIZE]. *)
Definition chunkSizes (n : Z) : list Z :=
  (repeat MAX_BATCH_SIZE (Z.to_nat (n / MAX_BATCH_SIZE))
   ++ (if n mod MAX_BATCH_SIZE =? 0 then [] else [n mod MAX_BATCH_SIZE]))%list.

Definition isSynthetic (d : detail) : bool :=
  match d with Synthetic _ _ _ _ _ _ => true | _ => false end.

(** [createdAt] of the units an order creates:
    [isEditing ? (group.date || group.dateOrdered) : now]. *)
Definition orderCreatedAt (now : timestamp) (originalOrderGroup : option Group.t)
    : option timestamp :=
  match originalOrderGroup with
  | Some g => match Group.date g with
              | Some d => Some d
              | None => Group.dateOrdered g
              end
  | None => Some now
  end.

(** ** Specifications of transaction bodies *)

(** [txspec m E P]: when [m] throws, the error satisfies [E]; when it
    returns, it has staged, after what was staged before, only writes
    satisfying [P]. *)
Definition txspec {A : Type} (m : Tx A) (E : error -> Prop) (P : write -> Prop) : Prop :=
  forall st,
    match m st with
    | inl e => E e
    | inr (_, st') => exists ws, staged st' = (staged st ++ ws)%list /\ Forall P ws
    end.

(** The first error among the elements of a loop, where [bad a] is the
    error the body throws on [a], if any. *)
Fixpoint firstBad {A : Type} (bad : A -> option error) (l : list A) : option error :=
  match l with
  | [] => None
  | a :: l' => match bad a with Some e => Some e | None => firstBad bad l' end
  end.

Definition failsBy {A : Type} (m : Tx A) (o : option error) : Prop :=
  forall st,
    match o with
    | Some e => m st = inl e
    | None => exists a st', m st = inr (a, st')
    end.

(** Number of units a list of items requests: the positive quantities,
    over all items and standard lengths. *)
Definition requestedTotal (STANDARD_LENGTHS : list Z) (items : list Item.t) : Z :=
  fold_right (fun item acc =>
                fold_right (fun len acc' => Z.max 0 (Item.qty item len) + acc')
                           acc STANDARD_LENGTHS)
             0 items.

(** The writes a transaction body has staged when it returns. *)
Definition stagedOf {A : Type} (r : error + (A * txState)) : list write :=
  match r with
  | inr (_, st) => staged st
  | inl _ => []
  end.

Definition isSetLog (w : write) : bool :=
  match w with SetLog _ _ => true | _ => false end.

(** The synthetic descriptors of a list of items: for every item and
    every standard length, in order, as many descriptors of that material
    and length as units are requested. *)
Definition descriptorsOf (STANDARD_LENGTHS : list Z)
    (getGaugeFromMaterial : string -> string) (p : params) (items : list Item.t)
    : list detail :=
  flat_map (fun item =>
    flat_map (fun len =>
      repeat (Synthetic (Item.materialType item) len 48
                        (getGaugeFromMaterial (Item.materialType item))
                        (densityOr0 (lookupMaterial (materials p) (Item.materialType item)))
                        (thicknessOr0 (lookupMaterial (materials p) (Item.materialType item))))
             (Z.to_nat (Item.qty item len)))
      STANDARD_LENGTHS)
    items.

(** A job asks for something when one of its quantities is positive. *)
Definition requests (STANDARD_LENGTHS : list Z) (job : Job.t) : bool :=
  requestedTotal STANDARD_LENGTHS (Job.items job) >? 0.

(** The error an immediate use throws on one standard length of one item,
    if any: the request is positive and exceeds the On Hand units of the
    key in the client's [inventory]. *)
Definition shortLen (p : params) (item : Item.t) (len : Z) : option error :=
  let qty := Item.qty item len in
  let available := onHandCount (Item.materialType item) len (inventory p) in
  if (0 <? qty) && (available <? qty)
  then Some (NotEnoughStock qty (Item.materialType item) len available)
  else None.

Definition shortItem (STANDARD_LENGTHS : list Z) (p : params) (item : Item.t)
    : option error :=
  firstBad (shortLen p item) STANDARD_LENGTHS.

Definition shortJob (STANDARD_LENGTHS : list Z) (p : params) (job : Job.t)
    : option error :=
  firstBad (shortItem STANDARD_LENGTHS p) (Job.items job).

(** A unit created by a manual adjustment of the key [(m, len)]: On Hand,
    of the distinguished origin, at no cost, never used. *)
Definition isManualAdd (m : string) (len : Z) (s : Sheet.t) : Prop :=
  Sheet.status s = "On Hand"
  /\ Sheet.supplier s = "Manual Edit"
  /\ Sheet.job s = "MODIFICATION: ADD"
  /\ Sheet.costPerPound s = 0%Q
  /\ Sheet.materialType s = m
  /\ Sheet.length s = len
  /\ Sheet.usageLogId s = None.

Definition isSnapshot (d : detail) : bool :=
  match d with Snapshot _ => true | _ => false end.

(** What the writes of an immediate use through [handleUseStock] look
    like: units marked Used with all four back-references, and Completed
    records whose details are unit snapshots, [qty] their negated number. *)
Definition immediateWrite (w : write) : Prop :=
  match w with
  | UpdateSheet _ st l j c t =>
      st = "Used" /\ l <> None /\ j <> None /\ c <> None /\ t <> None
  | SetLog i r =>
      Log.id r = i /\ Log.status r = Some "Completed"
      /\ Forall (fun d => isSnapshot d = true) (Log.details r)
      /\ Log.qty r = - JS.len (Log.details r)
  | _ => False
  end.

(** The error the re-allocation of an edit throws on one standard length
    of one item, if any: the request is positive and exceeds the On Hand
    units of the key that are not units of the original record. *)
Definition editShortLen (p : params) (originalItemIds : list (option string))
    (item : Item.t) (len : Z) : option error :=
  let qty := Item.qty item len in
  let others :=
    JS.len (filter (fun i => onHandAt (Item.materialType item) len i
                             && negb (includesId originalItemIds (Sheet.id i)))
                   (inventory p)) in
  if (0 <? qty) && (others <? qty)
  then Some (ConcurrencyError (Item.materialType item) len)
  else None.

(** ** Concrete inventories and requests *)

Module Scenario.

(** The lengths of the quantity fields [qty96], [qty120] and [qty144] of
    the forms. *)
Definition STANDARD_LENGTHS : list Z := [96; 120; 144].

(** The gauge of the materials of the examples. *)
Definition getGaugeFromMaterial (m : string) : string := "16GA".

(** Generated ids, in the order they are drawn: auto-0, auto-1, ... *)
Definition autoId (n : nat) : string :=
  "auto-" ++ NilEmpty.string_of_uint (Nat.to_uint n).

(** A received unit of stock. *)
Definition sheet (i m : string) (len : Z) (created : timestamp) : Sheet.t :=
  Sheet.mk i m len 48 (getGaugeFromMaterial m) None None 0%Q "Acme Steel"
           "On Hand" "Stock" created None (Some created) None None None None.

(** A material line asking for [q] units of one length. *)
Definition line (m : string) (len q : Z) : Item.t :=
  Item.mk m (fun l => if l =? len then q else 0) 0%Q.

Definition job (name : string) (items : list Item.t) : Job.t :=
  Job.mk "Borealis" name items "On Hand" "Acme Steel" None.

Definition clientOf (w : world) : params :=
  mkParams [] (inventoryCol (store w))
           (fun m len => Some (onHandCount m len (inventoryCol (store w)))) [].

Definition now : timestamp := 1700000000000.

(** Two and three units of A16GA at 96, On Hand. *)
Definition s1 : Sheet.t := sheet "s1" "A16GA" 96 1000.
Definition s2 : Sheet.t := sheet "s2" "A16GA" 96 2000.
Definition s3 : Sheet.t := sheet "s3" "A16GA" 96 3000.

(** Three units of which two share a lot timestamp. *)
Definition tiedB : Sheet.t := sheet "b" "A16GA" 96 5000.
Definition tiedA : Sheet.t := sheet "a" "A16GA" 96 5000.
Definition older : Sheet.t := sheet "c" "A16GA" 96 1000.
Definition tied : list Sheet.t := [tiedB; tiedA; older].

Definition twoOnHand : world := mkWorld (mkDb [s1; s2] [] []) 0.
Definition threeOnHand : world := mkWorld (mkDb [s1; s2; s3] [] []) 0.

Definition useOne : Job.t := job "Job 7" [line "A16GA" 96 1].
Definition useTwo : Job.t := job "Job 7" [line "A16GA" 96 2].
Definition useFour : Job.t := job "Job 7" [line "A16GA" 96 4].
Definition idle : Job.t := job "Job 8" [line "A16GA" 96 0].

(** The store after both units were used for one job, and the record of
    that use. *)
Definition bothUsed : world :=
  snd (handleUseStock STANDARD_LENGTHS getGaugeFromMaterial autoId
         (clientOf twoOnHand) now [useTwo] false 0 twoOnHand).

Definition recordOfUse : Log.t :=
  hd (Log.mk EmptyString EmptyString EmptyString 0 0 None [] 0 None) (usageLogsCol (store bothUsed)).

(** The edit that lowers the record from two units to one. *)
Definition lowerToOne : LogData.t :=
  LogData.mk "Job 7" "Borealis" now [line "A16GA" 96 1].

(** The store after [s1] was used, while a client still holds the
    inventory array from before. *)
Definition oneUsed : world :=
  snd (handleUseStock STANDARD_LENGTHS getGaugeFromMaterial autoId
         (clientOf twoOnHand) now [useOne] false 0 twoOnHand).


(** The group of the incoming log that holds [s1]. *)
Definition groupOfS1 : Group.t := Group.mk None (Some 1000) [s1].

(** A category of one material with 1200 units. *)
Definition cascadeUnits : list Sheet.t :=
  map (fun n => sheet ("u" ++ NilEmpty.string_of_uint (Nat.to_uint n)) "C10GA" 120
                      (Z.of_nat n))
      (seq 0 1200).

Definition cascade : params :=
  mkParams [("C10GA", Material.mk "C10GA" "Carbon" None None)] cascadeUnits
           (fun _ _ => None) ["Carbon"].

End Scenario.

(** ** Back-references between units and records *)

(** The unit [i] appears in the [details] of the record with id [l]. *)
Definition listedIn (logs : list Log.t) (l i : string) : Prop :=
  exists r, In r logs /\ Log.id r = l /\ In (Some i) (map detail_id (Log.details r)).

(** The condition on one unit: [usageLogId] is set exactly when the unit
    is Used, and the unit then appears in the details of the existing
    record that [usageLogId] identifies. *)
Definition backRefOk (d : db) (u : Sheet.t) : Prop :=
  (Sheet.usageLogId u <> None <-> Sheet.status u = "Used")
  /\ forall l, Sheet.usageLogId u = Some l -> listedIn (usageLogsCol d) l (Sheet.id u).

(** Its half that starts from the reference: a unit that has a
    [usageLogId] is Used and listed in that record. *)
Definition refOk (d : db) (u : Sheet.t) : Prop :=
  forall l, Sheet.usageLogId u = Some l ->
    Sheet.status u = "Used" /\ listedIn (usageLogsCol d) l (Sheet.id u).




(** Well-formed stores: every reference leads from a Used unit to a record
    that lists it, record ids are unique, the details of a scheduled record
    name no unit, and the ids still to be generated are not in use. *)
Record wfDb (autoId : nat -> string) (n : nat) (d : db) : Prop := mkWf {
  wf_refs : forall u, In u (inventoryCol d) -> refOk d u;
  wf_log_ids : NoDup (map Log.id (usageLogsCol d));
  wf_scheduled :
    forall r, In r (usageLogsCol d) -> Log.status r = Some "Scheduled" ->
    forall x, In x (Log.details r) -> detail_id x = None;
  wf_fresh_logs :
    forall j, (n <= j)%nat -> ~ In (autoId j) (map Log.id (usageLogsCol d));
  wf_fresh_sheets :
    forall j, (n <= j)%nat -> ~ In (autoId j) (map Sheet.id (inventoryCol d))
}.

Definition wfWorld (autoId : nat -> string) (w : world) : Prop :=
  wfDb autoId (idsDrawn w) (store w).

(** The operations of the engine that keep back-references in order.  The
    fulfilment is of a record of the store that is Scheduled; the edit is
    of a record of the store, by a client whose inventory is that of the
    store; an order is of units of a status other than Used; the receipt
    is of units that are Ordered.  Record deletion is not among them. *)
Inductive step (STANDARD_LENGTHS : list Z) (getGaugeFromMaterial : string -> string)
    (autoId : nat -> string) (w : world) : world -> Prop :=
| step_use (p : params) (now : timestamp) (jobs : list Job.t) (isScheduled : bool)
    (scheduledDate : timestamp) :
    step STANDARD_LENGTHS getGaugeFromMaterial autoId w
      (snd (handleUseStock STANDARD_LENGTHS getGaugeFromMaterial autoId p now jobs
              isScheduled scheduledDate w))
| step_modal (inventory : list Sheet.t) (now : timestamp) (jobs : list Job.t) :
    step STANDARD_LENGTHS getGaugeFromMaterial autoId w
      (snd (modalHandleSubmit STANDARD_LENGTHS autoId inventory now jobs w))
| step_fulfill (p : params) (now : timestamp) (logToFulfill : Log.t) :
    In logToFulfill (usageLogsCol (store w)) ->
    Log.status logToFulfill = Some "Scheduled" ->
    step STANDARD_LENGTHS getGaugeFromMaterial autoId w
      (snd (handleFulfillScheduledLog p now logToFulfill w))
| step_edit (p : params) (now : timestamp) (originalLog : Log.t)
    (newLogData : LogData.t) :
    In originalLog (usageLogsCol (store w)) ->
    inventory p = inventoryCol (store w) ->
    step STANDARD_LENGTHS getGaugeFromMaterial autoId w
      (snd (handleEditOutgoingLog STANDARD_LENGTHS getGaugeFromMaterial p now
              originalLog newLogData w))
| step_order (now : timestamp) (jobs : list Job.t) (originalOrderGroup : option Group.t) :
    (forall job, In job jobs -> Job.status job <> "Used") ->
    step STANDARD_LENGTHS getGaugeFromMaterial autoId w
      (snd (handleAddOrEditOrder STANDARD_LENGTHS getGaugeFromMaterial autoId now jobs
              originalOrderGroup w))
| step_receive (now : timestamp) (orderGroup : Group.t) :
    (forall u, In u (inventoryCol (store w)) ->
               In (Sheet.id u) (map Sheet.id (Group.details orderGroup)) ->
               Sheet.status u = "Ordered") ->
    step STANDARD_LENGTHS getGaugeFromMaterial autoId w
      (snd (handleReceiveOrder now orderGroup w))
| step_delete_group (group : option Group.t) :
    step STANDARD_LENGTHS getGaugeFromMaterial autoId w
      (snd (handleDeleteInventoryGroup group w))
| step_stock (p : params) (now : timestamp) (m : string) (len newQuantity : Z) :
    step STANDARD_LENGTHS getGaugeFromMaterial autoId w
      (snd (handleStockEdit getGaugeFromMaterial autoId p now m len newQuantity w))
| step_categories (p : params) :
    step STANDARD_LENGTHS getGaugeFromMaterial autoId w
      (snd (handleConfirmDeleteCategories p w))
| step_add_category (categoryName : string) (materialsToAdd : list MaterialInput.t) :
    step STANDARD_LENGTHS getGaugeFromMaterial autoId w
      (snd (handleAddCategory categoryName materialsToAdd w)).


(** Hoare triples on transaction bodies: nothing is claimed of a body that
    throws, since a transaction that throws changes nothing. *)
Definition hoare {A : Type} (P : txState -> Prop) (m : Tx A)
    (Q : A -> txState -> Prop) : Prop :=
  forall st, P st ->
    match m st with
    | inl _ => True
    | inr (a, st') => Q a st'
    end.

(** [after d0 K st]: if the writes staged in [st] commit on [d0], the
    resulting store satisfies [K]. *)
Definition after (d0 : db) (K : db -> Prop) (st : txState) : Prop :=
  forall d, commit d0 (staged st) = Some d -> K d.






From Stdlib Require DecimalPos.

(** ** Vocabulary for the tallies, the records and the units *)

(** A material name that holds no ['|'], the separator of the tally keys. *)
Fixpoint noBar (s : string) : bool :=
  match s with
  | EmptyString => true
  | String c s' => negb (Ascii.eqb c "|"%char) && noBar s'
  end.

(** The tally key of a detail and the number of details of a key. *)
Definition detailKey (d : detail) : string :=
  keyOf (detail_materialType d) (detail_length d).

Definition countKey (k : string) (ds : list detail) : Z :=
  JS.len (filter (fun d => String.eqb (detailKey d) k) ds).

(** Units requested at a key string: the positive quantities of the lines
    whose key it is. *)
Definition requestedAt (STANDARD_LENGTHS : list Z) (k : string) (items : list Item.t)
    : Z :=
  fold_right (fun item acc =>
                fold_right (fun len acc' =>
                              (if (Item.qty item len >? 0)
                                  && String.eqb (keyOf (Item.materialType item) len) k
                               then Item.qty item len else 0) + acc')
                           acc STANDARD_LENGTHS)
             0 items.

(** The error the fulfilment throws on one entry of [itemsNeeded], if
    any, and the units it takes for the entry otherwise. *)
Definition fulfilPred (key : string) (i : Sheet.t) : bool :=
  String.eqb (Sheet.materialType i) (hd EmptyString (JS.splitBar key))
  && lengthIs i (JS.parseInt (nth_error (JS.splitBar key) 1))
  && String.eqb (Sheet.status i) "On Hand".

Definition fulfilShort (p : params) (entry : string * Z) : option error :=
  let available := JS.len (filter (fulfilPred (fst entry)) (inventory p)) in
  if available <? snd entry
  then Some (CannotFulfill (snd entry) (hd EmptyString (JS.splitBar (fst entry)))
               (JS.parseInt (nth_error (JS.splitBar (fst entry)) 1)) available)
  else None.

Definition fulfilUnits (p : params) (entries : list (string * Z)) : list Sheet.t :=
  flat_map (fun entry => selectSheets (fulfilPred (fst entry)) (inventory p) (snd entry))
           entries.

(** The write of [markUsed]. *)
Definition usedWrite (now : timestamp) (logId jobNameUsed customerUsed : string)
    (sheet : Sheet.t) : write :=
  UpdateSheet (Sheet.id sheet) "Used" (Some logId) (Some jobNameUsed)
              (Some customerUsed) (Some now).

(** Every record's [qty] is the negated number of its details, and record
    ids are unique. *)
Definition qtyOk (logs : list Log.t) : Prop :=
  forall r, In r logs -> Log.qty r = - JS.len (Log.details r).

Definition ledgerOk (d : db) : Prop :=
  NoDup (map Log.id (usageLogsCol d)) /\ qtyOk (usageLogsCol d).

(** Writes that keep [qtyOk] whatever the store holds. *)
Definition ledgerSafe (w : write) : Prop :=
  match w with
  | SetLog _ r => Log.qty r = - JS.len (Log.details r)
  | EditLog _ _ _ _ ds q => q = - JS.len ds
  | FulfillLog _ _ _ _ => False
  | _ => True
  end.

(** Every call of a handler of the engine.  The fulfilment is of a record
    as the store holds it. *)
Inductive op (STANDARD_LENGTHS : list Z) (getGaugeFromMaterial : string -> string)
    (autoId : nat -> string) (w : world) : world -> Prop :=
| op_use (p : params) (now : timestamp) (jobs : list Job.t) (isScheduled : bool)
    (scheduledDate : timestamp) :
    op STANDARD_LENGTHS getGaugeFromMaterial autoId w
      (snd (handleUseStock STANDARD_LENGTHS getGaugeFromMaterial autoId p now jobs
              isScheduled scheduledDate w))
| op_modal (inventory : list Sheet.t) (now : timestamp) (jobs : list Job.t) :
    op STANDARD_LENGTHS getGaugeFromMaterial autoId w
      (snd (modalHandleSubmit STANDARD_LENGTHS autoId inventory now jobs w))
| op_fulfill (p : params) (now : timestamp) (logToFulfill : Log.t) :
    In logToFulfill (usageLogsCol (store w)) ->
    op STANDARD_LENGTHS getGaugeFromMaterial autoId w
      (snd (handleFulfillScheduledLog p now logToFulfill w))
| op_edit (p : params) (now : timestamp) (originalLog : Log.t)
    (newLogData : LogData.t) :
    op STANDARD_LENGTHS getGaugeFromMaterial autoId w
      (snd (handleEditOutgoingLog STANDARD_LENGTHS getGaugeFromMaterial p now
              originalLog newLogData w))
| op_order (now : timestamp) (jobs : list Job.t) (originalOrderGroup : option Group.t) :
    op STANDARD_LENGTHS getGaugeFromMaterial autoId w
      (snd (handleAddOrEditOrder STANDARD_LENGTHS getGaugeFromMaterial autoId now jobs
              originalOrderGroup w))
| op_receive (now : timestamp) (orderGroup : Group.t) :
    op STANDARD_LENGTHS getGaugeFromMaterial autoId w
      (snd (handleReceiveOrder now orderGroup w))
| op_delete_group (group : option Group.t) :
    op STANDARD_LENGTHS getGaugeFromMaterial autoId w
      (snd (handleDeleteInventoryGroup group w))
| op_delete_log (logId : string) :
    op STANDARD_LENGTHS getGaugeFromMaterial autoId w
      (snd (handleDeleteLog logId w))
| op_stock (p : params) (now : timestamp) (m : string) (len newQuantity : Z) :
    op STANDARD_LENGTHS getGaugeFromMaterial autoId w
      (snd (handleStockEdit getGaugeFromMaterial autoId p now m len newQuantity w))
| op_categories (p : params) :
    op STANDARD_LENGTHS getGaugeFromMaterial autoId w
      (snd (handleConfirmDeleteCategories p w))
| op_add_category (categoryName : string) (materialsToAdd : list MaterialInput.t) :
    op STANDARD_LENGTHS getGaugeFromMaterial autoId w
      (snd (handleAddCategory categoryName materialsToAdd w)).

Inductive ops (STANDARD_LENGTHS : list Z) (getGaugeFromMaterial : string -> string)
    (autoId : nat -> string) : world -> world -> Prop :=
| ops_refl (w : world) : ops STANDARD_LENGTHS getGaugeFromMaterial autoId w w
| ops_then (w w' w'' : world) :
    ops STANDARD_LENGTHS getGaugeFromMaterial autoId w w' ->
    op STANDARD_LENGTHS getGaugeFromMaterial autoId w' w'' ->
    ops STANDARD_LENGTHS getGaugeFromMaterial autoId w w''.

(** What a unit is, apart from its status, its receipt and its use. *)
Definition physical (s : Sheet.t) :=
  (Sheet.id s, Sheet.materialType s, Sheet.length s, Sheet.width s, Sheet.gauge s,
   Sheet.density s, Sheet.thickness s, Sheet.costPerPound s, Sheet.supplier s,
   Sheet.job s, Sheet.createdAt s, Sheet.arrivalDate s).

(** Writes that neither add nor remove nor replace a unit. *)
Definition keepsUnits (w : write) : Prop :=
  match w with
  | SetSheet _ _ | DeleteSheet _ => False
  | _ => True
  end.

(** The positive requests of an immediate use, in the order the handler
    treats them: material, length, quantity. *)
Definition linesOfItems (STANDARD_LENGTHS : list Z) (items : list Item.t)
    : list (string * Z * Z) :=
  flat_map (fun item =>
    flat_map (fun len =>
      if Item.qty item len >? 0
      then [(Item.materialType item, len, Item.qty item len)] else [])
      STANDARD_LENGTHS)
    items.

Definition linesOf (STANDARD_LENGTHS : list Z) (jobs : list Job.t)
    : list (string * Z * Z) :=
  flat_map (fun job => linesOfItems STANDARD_LENGTHS (Job.items job)) jobs.

(** The largest single request for a key, [0] when there is none. *)
Definition maxRequested (m : string) (len : Z) (lines : list (string * Z * Z)) : Z :=
  fold_right (fun line acc =>
                if String.eqb (fst (fst line)) m && (snd (fst line) =? len)
                then Z.max (snd line) acc else acc)
             0 lines.

(** What the writes of a use through [handleUseStock] (either mode) and of
    an edit of a completed record look like: updates of units of the
    client's inventory, and records whose [qty] is the negated number of
    their details. *)
Definition useWrite (p : params) (w : write) : Prop :=
  match w with
  | UpdateSheet i _ _ _ _ _ => In i (map Sheet.id (inventory p))
  | SetLog _ r => Log.qty r = - JS.len (Log.details r)
  | _ => False
  end.

Definition clientWrite (p : params) (w : write) : Prop :=
  match w with
  | EditLog _ _ _ _ ds q => q = - JS.len ds
  | _ => useWrite p w
  end.

(** The writes of the modal's use, of an order and of a manual adjustment:
    units set or deleted, and such records. *)
Definition unitWrite (w : write) : Prop :=
  match w with
  | SetSheet _ _ | DeleteSheet _ => True
  | SetLog _ r => Log.qty r = - JS.len (Log.details r)
  | _ => False
  end.

(** The ids of the units a list of writes updates. *)
Definition updatedIds (ws : list write) : list string :=
  flat_map (fun w => match w with
                     | UpdateSheet i _ _ _ _ _ => [i]
                     | _ => []
                     end) ws.

(** The units an immediate use takes for its requests: for every request,
    the first units by age among those On Hand at its key in the client's
    inventory. *)
Definition unitsOfLines (p : params) (lines : list (string * Z * Z)) : list Sheet.t :=
  flat_map (fun line =>
              selectSheets (onHandAt (fst (fst line)) (snd (fst line))) (inventory p)
                           (snd line))
           lines.

(** Updates that mark a unit Used, and records. *)
Definition usedOrLog (w : write) : Prop :=
  match w with
  | UpdateSheet _ st _ _ _ _ => st = "Used"
  | SetLog _ _ => True
  | _ => False
  end.

(** No request of an immediate use exceeds the On Hand units of its key
    in the client's inventory. *)
Definition stocked (STANDARD_LENGTHS : list Z) (p : params) (jobs : list Job.t) : Prop :=
  forall job item len,
    In job jobs -> In item (Job.items job) -> In len STANDARD_LENGTHS ->
    Item.qty item len <= onHandCount (Item.materialType item) len (inventory p).



(** [set] on the collections of records and of units: the document is
    created, or replaces the one of its id. *)
Definition putLog (logs : list Log.t) (r : Log.t) : list Log.t :=
  if hasLog (Log.id r) logs
  then patchLog (Log.id r) (fun _ => r) logs
  else (logs ++ [r])%list.

Definition putSheet (inv : list Sheet.t) (u : Sheet.t) : list Sheet.t :=
  if hasSheet (Sheet.id u) inv
  then patchSheet (Sheet.id u) (fun _ => u) inv
  else (inv ++ [u])%list.

(** The record a scheduled use writes for a job under the id [i]
    (lines 84-93), and the records of a list of jobs under the generated
    ids from the [n]-th on. *)
Definition scheduledRecord (STANDARD_LENGTHS : list Z)
    (getGaugeFromMaterial : string -> string) (p : params) (now sd : timestamp)
    (i : string) (job : Job.t) : Log.t :=
  let details :=
    fst (scheduledItems STANDARD_LENGTHS getGaugeFromMaterial p (Job.items job)) in
  Log.mk i (JS.orElse (JS.trim (Job.jobName job)) "N/A") (Job.customer job) now sd
         (Some "Scheduled") details (- JS.len details) None.

Fixpoint scheduledRecords (STANDARD_LENGTHS : list Z)
    (getGaugeFromMaterial : string -> string) (autoId : nat -> string) (p : params)
    (now sd : timestamp) (n : nat) (jobs : list Job.t) : list Log.t :=
  match jobs with
  | [] => []
  | job :: jobs' =>
      scheduledRecord STANDARD_LENGTHS getGaugeFromMaterial p now sd (autoId n) job
      :: scheduledRecords STANDARD_LENGTHS getGaugeFromMaterial autoId p now sd (S n) jobs'
  end.

(** The units of the store that an order keeps: all of them, or, for an
    edit, those that have not the id of a unit of the original group. *)
Definition keptUnits (originalOrderGroup : option Group.t) (inv : list Sheet.t)
    : list Sheet.t :=
  match originalOrderGroup with
  | Some g => filter (fun s => negb (hasSheet (Sheet.id s) (Group.details g))) inv
  | None => inv
  end.

(** The units an order creates for one standard length of one item of one
    job, ids apart, and the units of a whole order, in the order they are
    created. *)
Definition orderUnit (getGaugeFromMaterial : string -> string) (createdAt : timestamp)
    (job : Job.t) (item : Item.t) (len : Z) : Sheet.t :=
  Sheet.mk EmptyString (Item.materialType item) len 48
           (getGaugeFromMaterial (Item.materialType item)) None None
           (Item.costPerPound item) (Job.supplier job) (Job.status job)
           (JS.orElse (JS.trim (Job.jobName job)) "N/A") createdAt
           (if String.eqb (Job.status job) "Ordered" then Job.arrivalDate job else None)
           None None None None None.

Definition orderUnits (STANDARD_LENGTHS : list Z) (getGaugeFromMaterial : string -> string)
    (createdAt : timestamp) (jobs : list Job.t) : list Sheet.t :=
  flat_map (fun job =>
    flat_map (fun item =>
      flat_map (fun len =>
        repeat (orderUnit getGaugeFromMaterial createdAt job item len)
               (Z.to_nat (Item.qty item len)))
        STANDARD_LENGTHS)
      (Job.items job))
    jobs.

(** Units stored under the generated ids from the [n]-th on, and the
    writes that store them. *)
Fixpoint withIds (autoId : nat -> string) (n : nat) (us : list Sheet.t) : list Sheet.t :=
  match us with
  | [] => []
  | u :: us' => Sheet.withId (autoId n) u :: withIds autoId (S n) us'
  end.

Fixpoint setWrites (autoId : nat -> string) (n : nat) (us : list Sheet.t) : list write :=
  match us with
  | [] => []
  | u :: us' =>
      SetSheet (autoId n) (Sheet.withId (autoId n) u) :: setWrites autoId (S n) us'
  end.

(** The error the stock check of an edit throws on one entry of
    [netChange], if any. *)
Definition editShort (p : params) (entry : string * Z) : option error :=
  let available := JS.len (filter (fulfilPred (fst entry)) (inventory p)) in
  if (snd entry <? 0) && (available <? Z.abs (snd entry))
  then Some (EditNotEnoughStock (hd EmptyString (JS.splitBar (fst entry)))
               (JS.parseInt (nth_error (JS.splitBar (fst entry)) 1))
               (Z.abs (snd entry)) available)
  else None.

(** The units the modal's use may take for a key: those that are not
    Ordered; the error it throws on one standard length of one item, if
    any; and the requests of a batch being within those units. *)
Definition modalPred (m : string) (len : Z) (i : Sheet.t) : bool :=
  String.eqb (Sheet.materialType i) m && (Sheet.length i =? len)
  && negb (String.eqb (Sheet.status i) "Ordered").

Definition modalShortLen (inventory : list Sheet.t) (item : Item.t) (len : Z)
    : option error :=
  let qty := Item.qty item len in
  let available := JS.len (filter (modalPred (Item.materialType item) len) inventory) in
  if (0 <? qty) && (available <? qty)
  then Some (NotEnoughStock qty (Item.materialType item) len available)
  else None.

Definition modalStocked (STANDARD_LENGTHS : list Z) (inventory : list Sheet.t)
    (jobs : list Job.t) : Prop :=
  forall job item len,
    In job jobs -> In item (Job.items job) -> In len STANDARD_LENGTHS ->
    Item.qty item len
    <= JS.len (filter (modalPred (Item.materialType item) len) inventory).

(** ** Client-side state of the application *)

(** [handleAddSupplier] and [handleDeleteSupplier] (lines 207-213), as the
    updaters they hand to [setSuppliers]. *)
Definition handleAddSupplier (supplier : string) (prev : list string) : list string :=
  (prev ++ [supplier])%list.

Definition handleDeleteSupplier (supplier : string) (prev : list string) : list string :=
  filter (fun s => negb (String.eqb s supplier)) prev.

(** [handleToggleCategoryForDeletion] of [App.jsx] (lines 261-267), as the
    updater it hands to [setCategoriesToDelete]. *)
Definition handleToggleCategoryForDeletion (categoryName : string) (prev : list string)
    : list string :=
  if includesStr prev categoryName
  then filter (fun c => negb (String.eqb c categoryName)) prev
  else (prev ++ [categoryName])%list.

(** [[...new Set(a)]]: the elements of [a], each at its first occurrence. *)
Definition setAdd (seen : list string) (x : string) : list string :=
  if includesStr seen x then seen else (seen ++ [x])%list.

Definition uniq (a : list string) : list string := fold_left setAdd a [].

(** [initialCategories] of [App.jsx] (line 92). *)
Definition initialCategories (materials : list (string * Material.t)) : list string :=
  uniq (map (fun m => Material.category (snd m)) materials).

(** The update of the persisted order of the categories, [App.jsx]
    (lines 95-104). *)
Definition syncCategories (initialCategories prevOrder : list string) : list string :=
  let validOrdered := filter (fun cat => includesStr initialCategories cat) prevOrder in
  let newCategories :=
    filter (fun cat => negb (includesStr prevOrder cat)) initialCategories in
  (validOrdered ++ newCategories)%list.

(** [handleSearchKeyDown] of [App.jsx] (lines 219-242) on the pair of
    [searchResults.length] and [activeIndex]: Enter on a result ends in
    [clearSearch]; JavaScript's [%] is the remainder of the truncated
    division. *)
Definition handleSearchKeyDown (key : string) (st : Z * Z) : Z * Z :=
  let '(resultsLength, activeIndex) := st in
  if String.eqb key "Enter" then
    if (0 <=? activeIndex) && (activeIndex <? resultsLength) then (0, 0)
    else (resultsLength, activeIndex)
  else if resultsLength =? 0 then (resultsLength, activeIndex)
  else if String.eqb key "ArrowDown"
       then (resultsLength, Z.rem (activeIndex + 1) resultsLength)
  else if String.eqb key "ArrowUp"
       then (resultsLength, Z.rem (activeIndex - 1 + resultsLength) resultsLength)
  else (resultsLength, activeIndex).

(** The index points at a result, or is [0] when there is none. *)
Definition searchIndexOk (st : Z * Z) : Prop :=
  (fst st = 0 /\ snd st = 0) \/ 0 <= snd st < fst st.

(** ** The incoming log ([components/logs/IncomingLogDisplay.jsx]) *)

(** A row of the log: the units of one order.  [materialTypesSummary] is
    the [Set] of the material names, in insertion order. *)
Module Order.
Record t : Type := mk {
  id : string;
  isDeletable : bool;
  isAddition : bool;
  dateOrdered : timestamp;
  customer : string;
  job : string;
  qty : Z;
  details : list Sheet.t;
  isFuture : bool;
  dateIncoming : option timestamp;
  materialTypesSummary : list string
}.
End Order.

(** [groupedByOrder]: an object keyed by strings that are no array
    indices, hence enumerated in insertion order. *)
Fixpoint lookupOrder (o : list (string * Order.t)) (k : string) : option Order.t :=
  match o with
  | [] => None
  | (k', g) :: o' => if String.eqb k' k then Some g else lookupOrder o' k
  end.

Fixpoint setOrder (o : list (string * Order.t)) (k : string) (g : Order.t)
    : list (string * Order.t) :=
  match o with
  | [] => [(k, g)]
  | (k', g') :: o' =>
      if String.eqb k' k then (k', g) :: o' else (k', g') :: setOrder o' k g
  end.

Section IncomingLog.

(** [createdAt] as the ISO string the store holds. *)
Variable toISOString : timestamp -> string.

(** The key of line 8. *)
Definition orderKey (item : Sheet.t) : string :=
  toISOString (Sheet.createdAt item) ++ "-" ++ JS.orElse (Sheet.job item) "stock"
  ++ "-" ++ Sheet.supplier item.

(** Lines 9-22 on the group of the item's key, [None] when the key is
    new. *)
Definition addToOrder (g : option Order.t) (item : Sheet.t) : Order.t :=
  let g0 :=
    match g with
    | Some g => g
    | None =>
        Order.mk (orderKey item) true true (Sheet.createdAt item) (Sheet.supplier item)
                 (JS.orElse (Sheet.job item) "Stock") 0 []
                 (String.eqb (Sheet.status item) "Ordered")
                 (if String.eqb (Sheet.status item) "On Hand"
                  then Sheet.dateReceived item else Sheet.arrivalDate item)
                 []
    end in
  let dateIncoming :=
    if String.eqb (Sheet.status item) "Ordered" then
      match Sheet.arrivalDate item, Order.dateIncoming g0 with
      | Some a, None => Some a
      | Some a, Some d => if a >? d then Some a else Some d
      | None, d => d
      end
    else Order.dateIncoming g0 in
  Order.mk (Order.id g0) (Order.isDeletable g0) (Order.isAddition g0)
           (Order.dateOrdered g0) (Order.customer g0) (Order.job g0)
           (Order.qty g0 + 1) (Order.details g0 ++ [item])%list (Order.isFuture g0)
           dateIncoming
           (setAdd (Order.materialTypesSummary g0) (Sheet.materialType item)).

Definition groupStep (groupedByOrder : list (string * Order.t)) (item : Sheet.t)
    : list (string * Order.t) :=
  let key := orderKey item in
  setOrder groupedByOrder key (addToOrder (lookupOrder groupedByOrder key) item).

(** The units the log shows (line 7). *)
Definition logged (inventory : list Sheet.t) : list Sheet.t :=
  filter (fun item => negb (String.eqb (Sheet.supplier item) "MODIFICATION")) inventory.

Definition groupedByOrder (inventory : list Sheet.t) : list (string * Order.t) :=
  fold_left groupStep (logged inventory) [].

(** [incomingItems] (lines 5-27), newest order first; the
    [materialTypesDisplay] that line 25 adds to every row is a function of
    the row. *)
Definition incomingItems (inventory : list Sheet.t) : list Order.t :=
  JS.sort (fun a b => Order.dateOrdered b - Order.dateOrdered a)
          (map snd (groupedByOrder inventory)).

Definition materialTypesDisplay (item : Order.t) : string :=
  String.concat ", " (Order.materialTypesSummary item).

(** [visibleItems] (line 29), for a number of orders to show that is not
    negative. *)
Definition visibleItems (inventory : list Sheet.t) (ordersToShow : Z) : list Order.t :=
  JS.slice0 ordersToShow (incomingItems inventory).


(** The group of a non-empty list of units of one key. *)
Definition groupFrom (us : list Sheet.t) : option Order.t :=
  fold_left (fun g item => Some (addToOrder g item)) us None.

End IncomingLog.

(** The error the stock check or the re-allocation of an edit of a
    completed record throws first, if any. *)
Definition editFails (STANDARD_LENGTHS : list Z) (p : params) (originalLog : Log.t)
    (newLogData : LogData.t) : option error :=
  match firstBad (editShort p) (netChangeOf STANDARD_LENGTHS originalLog newLogData) with
  | Some e => Some e
  | None =>
      firstBad (fun item =>
                  firstBad (editShortLen p (map detail_id (Log.details originalLog)) item)
                           STANDARD_LENGTHS)
               (LogData.items newLogData)
  end.

(** The stock check of an edit passes for every key, and every request is
    within the On Hand units of its key that are not units of the record. *)
Definition editStocked (STANDARD_LENGTHS : list Z) (p : params) (originalLog : Log.t)
    (newLogData : LogData.t) : Prop :=
  (forall k change,
     In (k, change) (netChangeOf STANDARD_LENGTHS originalLog newLogData) ->
     change < 0 -> - change <= JS.len (filter (fulfilPred k) (inventory p)))
  /\ (forall item len,
        In item (LogData.items newLogData) -> In len STANDARD_LENGTHS ->
        Item.qty item len
        <= JS.len (filter (fun i =>
                             onHandAt (Item.materialType item) len i
                             && negb (includesId (map detail_id (Log.details originalLog))
                                                 (Sheet.id i)))
                          (inventory p))).

(** The units the re-allocation of an edit may take for a key, and those
    it takes for the requests: for every request, the first by age. *)
Definition editPred (ids : list (option string)) (m : string) (len : Z) (i : Sheet.t)
    : bool :=
  onHandAt m len i && negb (includesId ids (Sheet.id i)).

Definition editUnits (p : params) (ids : list (option string))
    (lines : list (string * Z * Z)) : list Sheet.t :=
  flat_map (fun line =>
              selectSheets (editPred ids (fst (fst line)) (snd (fst line))) (inventory p)
                           (snd line))
           lines.

(** A unit after an edit that took the units [taken] for the record and
    returned the units [returned]. *)
Definition edited (now : timestamp) (logId jobNameUsed customerUsed : string)
    (taken returned : list Sheet.t) (u : Sheet.t) : Sheet.t :=
  if hasSheet (Sheet.id u) taken
  then Sheet.withUsage "Used" (Some logId) (Some jobNameUsed) (Some customerUsed)
                       (Some now) u
  else if hasSheet (Sheet.id u) returned
       then Sheet.withUsage "On Hand" None None None None u
       else u.

(** Updates of units of the client's inventory. *)
Definition updateWrite (p : params) (w : write) : Prop :=
  match w with
  | UpdateSheet i _ _ _ _ _ => In i (map Sheet.id (inventory p))
  | _ => False
  end.



(** ** Further concrete cases *)

Module Cases.

(** The descriptor of one unit of A16GA at 96 of a scheduled use. *)
Definition descriptor : detail := Synthetic "A16GA" 96 48 "16GA" 0%Q 0%Q.

(** Scheduled records of two and of three such units. *)
Definition scheduledTwo : Log.t :=
  Log.mk "log-1" "Job 9" "Borealis" Scenario.now Scenario.now (Some "Scheduled")
         [descriptor; descriptor] (-2) None.

Definition scheduledThree : Log.t :=
  Log.mk "log-2" "Job 9" "Borealis" Scenario.now Scenario.now (Some "Scheduled")
         [descriptor; descriptor; descriptor] (-3) None.

(** The store with two units On Hand and the record of two units. *)
Definition planned : world :=
  mkWorld (mkDb [Scenario.s1; Scenario.s2] [scheduledTwo] []) 0.

(** An edit that asks for three units. *)
Definition raiseToThree : LogData.t :=
  LogData.mk "Job 7" "Borealis" Scenario.now [Scenario.line "A16GA" 96 3].

(** An order of two units, awaited. *)
Definition restock : Job.t :=
  Job.mk "Borealis" "Restock" [Scenario.line "A16GA" 96 2] "Ordered" "Acme Steel"
         (Some 1700086400000).

(** A unit made by a manual adjustment. *)
Definition manual : Sheet.t :=
  Sheet.mk "m1" "A16GA" 96 48 "16GA" (Some 0%Q) (Some 0%Q) 0%Q "Manual Edit"
           "On Hand" "MODIFICATION: ADD" 2000 None (Some 0) None None None None.

(** Dates written as the letter T and the number of milliseconds. *)
Definition toISOString (t : timestamp) : string := "T" ++ JS.showZ t.


(** The store after two of three units were used for one job, and the
    record of that use. *)
Definition thirdOnHand : world :=
  snd (handleUseStock Scenario.STANDARD_LENGTHS Scenario.getGaugeFromMaterial
         Scenario.autoId (Scenario.clientOf Scenario.threeOnHand) Scenario.now
         [Scenario.useTwo] false 0 Scenario.threeOnHand).

Definition recordOfTwo : Log.t :=
  hd (Log.mk EmptyString EmptyString EmptyString 0 0 None [] 0 None)
     (usageLogsCol (store thirdOnHand)).

(** A customer name that is one no-break space (U+00A0). *)
Definition noBreakSpace : string :=
  String (ascii_of_nat 194) (String (ascii_of_nat 160) EmptyString).

Definition blankCustomer : Job.t :=
  Job.mk noBreakSpace "Job 7" [Scenario.line "A16GA" 96 1] "On Hand" "Acme Steel" None.

(** A store in which a Scheduled record lists a unit that is Used for
    it. *)
Definition usedForScheduled : Sheet.t :=
  Sheet.withUsage "Used" (Some "log-1") (Some "Job 9") (Some "Borealis")
                  (Some Scenario.now) Scenario.s1.

Definition scheduledListing : Log.t :=
  Log.mk "log-1" "Job 9" "Borealis" Scenario.now Scenario.now (Some "Scheduled")
         [Snapshot usedForScheduled] (-1) None.

Definition listing : world :=
  mkWorld (mkDb [usedForScheduled] [scheduledListing] []) 0.

End Cases.


(** * Properties *)


(** ** First-in-first-out selection *)

Section SortFacts.
Context {A : Type} (key : A -> Z).
Local Abbreviation cmp := (fun a b : A => key a - key b).
Local Abbreviation le := (fun a b : A => key a <= key b).

Lemma insert_perm (x : A) (l : list A) : Permutation (x :: l) (JS.insert cmp x l).
Proof.
  induction l as [|y l IH]; simpl; [reflexivity|].
  destruct (cmp x y <=? 0); [reflexivity|].
  rewrite perm_swap. now apply perm_skip.
Qed.

Lemma sort_perm (l : list A) : Permutation l (JS.sort cmp l).
Proof.
  induction l as [|x l IH]; simpl; [constructor|].
  etransitivity; [apply perm_skip, IH | apply insert_perm].
Qed.

Lemma insert_sorted (x : A) (l : list A) :
  StronglySorted le l -> StronglySorted le (JS.insert cmp x l).
Proof.
  induction 1 as [|y l Hs IH Hy]; simpl.
  - repeat constructor.
  - destruct (Z.leb_spec (cmp x y) 0) as [Hle|Hgt]; simpl in *.
    + constructor; [now constructor|].
      constructor; [lia|].
      eapply Forall_impl; [|exact Hy]. simpl. intros; lia.
    + constructor; [exact IH|].
      eapply Permutation_Forall; [apply insert_perm|].
      constructor; [lia|exact Hy].
Qed.

Lemma sort_sorted (l : list A) : StronglySorted le (JS.sort cmp l).
Proof.
  induction l; simpl; [constructor | now apply insert_sorted].
Qed.

(** Inserting [x] in front of a sorted list puts it before the elements of
    its own key: the elements of any one key keep their order. *)
Lemma insert_stable (t : Z) (x : A) (l : list A) :
  StronglySorted le l ->
  filter (fun a => key a =? t) (JS.insert cmp x l)
  = filter (fun a => key a =? t) (x :: l).
Proof.
  induction 1 as [|y l Hs IH Hy]; simpl; [reflexivity|].
  destruct (Z.leb_spec (cmp x y) 0) as [Hle|Hgt]; [reflexivity|].
  simpl. rewrite IH. simpl.
  simpl in *.
  destruct (Z.eqb_spec (key x) t) as [Hx|Hx]; [|reflexivity].
  destruct (Z.eqb_spec (key y) t) as [Hy'|Hy']; [lia|reflexivity].
Qed.

Lemma sort_stable (t : Z) (l : list A) :
  filter (fun a => key a =? t) (JS.sort cmp l) = filter (fun a => key a =? t) l.
Proof.
  induction l as [|x l IH]; simpl; [reflexivity|].
  rewrite insert_stable by apply sort_sorted.
  simpl. now rewrite IH.
Qed.

(** Two sorted lists with the same elements of every key, in the same
    order, are the same list. *)
Lemma sorted_stable_unique (l1 l2 : list A) :
  StronglySorted le l1 -> StronglySorted le l2 ->
  (forall t, filter (fun a => key a =? t) l1 = filter (fun a => key a =? t) l2) ->
  l1 = l2.
Proof.
  intros H1; revert l2.
  induction H1 as [|x l1 Hs1 IH Hx]; intros l2 H2 Heq.
  - destruct l2 as [|y l2]; [reflexivity|].
    specialize (Heq (key y)). simpl in Heq. rewrite Z.eqb_refl in Heq. discriminate.
  - destruct H2 as [|y l2 Hs2 Hy].
    + specialize (Heq (key x)). simpl in Heq. rewrite Z.eqb_refl in Heq. discriminate.
    + assert (Hxy : x = y).
      { pose proof (Heq (key x)) as Ex. pose proof (Heq (key y)) as Ey.
        simpl in Ex, Ey. rewrite Z.eqb_refl in Ex, Ey.
        destruct (Z.eqb_spec (key y) (key x)) as [E|N].
        - congruence.
        - destruct (Z.eqb_spec (key x) (key y)) as [E'|_]; [congruence|].
          assert (In x l2).
          { eapply (proj1 (filter_In _ x l2)). rewrite <- Ex. now left. }
          assert (In y l1).
          { eapply (proj1 (filter_In _ y l1)). rewrite Ey. now left. }
          rewrite Forall_forall in Hx, Hy.
          specialize (Hx _ H0). specialize (Hy _ H). simpl in *. lia. }
      subst y. f_equal. apply IH; [assumption|].
      intros t. specialize (Heq t). simpl in Heq.
      destruct (key x =? t); congruence.
Qed.

End SortFacts.

Lemma matching_fifo (pred : Sheet.t -> bool) (pool : list Sheet.t) :
  fifoOf (filter pred pool) (matching pred pool).
Proof.
  unfold fifoOf, matching, byCreatedAt. split; [|split].
  - apply (sort_perm Sheet.createdAt).
  - apply (sort_sorted Sheet.createdAt).
  - intros t. apply (sort_stable Sheet.createdAt).
Qed.

Lemma fifoOf_unique (l l1 l2 : list Sheet.t) :
  fifoOf l l1 -> fifoOf l l2 -> l1 = l2.
Proof.
  intros (_ & S1 & E1) (_ & S2 & E2).
  apply (sorted_stable_unique Sheet.createdAt); auto.
  intros t. now rewrite E1, E2.
Qed.

(** C4: the selection is the first [qty] units of the matching units taken
    oldest [createdAt] first, units of equal [createdAt] in pool order; it
    is determined by pool, predicate and quantity alone, so that any
    arrangement with these properties yields the same units in the same
    order. *)
Theorem selectSheets_fifo (pred : Sheet.t -> bool) (pool : list Sheet.t) (qty : Z) :
  selectSheets pred pool qty = firstn (Z.to_nat qty) (matching pred pool)
  /\ Permutation (filter pred pool) (matching pred pool)
  /\ StronglySorted (fun a b => Sheet.createdAt a <= Sheet.createdAt b)
                    (matching pred pool)
  /\ (forall t,
        filter (fun s => Sheet.createdAt s =? t) (matching pred pool)
        = filter (fun s => pred s && (Sheet.createdAt s =? t)) pool)
  /\ (forall l', fifoOf (filter pred pool) l' ->
                 firstn (Z.to_nat qty) l' = selectSheets pred pool qty).
Proof.
  destruct (matching_fifo pred pool) as (HP & HS & HE).
  repeat split; auto.
  - intros t. rewrite HE. clear.
    induction pool as [|x pool IH]; simpl; [reflexivity|].
    destruct (pred x); simpl; [|exact IH].
    destruct (Sheet.createdAt x =? t); now rewrite IH.
  - intros l' Hl'. unfold selectSheets, JS.slice0.
    now rewrite (fifoOf_unique _ _ _ Hl' (matching_fifo pred pool)).
Qed.

(** ** Reasoning about transaction bodies *)


Lemma txspec_ret {A : Type} (a : A) E P : txspec (ret a) E P.
Proof. intros st. simpl. exists []. now rewrite app_nil_r. Qed.

Lemma txspec_throw {A : Type} (e : error) (E : error -> Prop) P :
  E e -> txspec (@throw A e) E P.
Proof. intros He st. exact He. Qed.

Lemma txspec_stage (w : write) E (P : write -> Prop) : P w -> txspec (stage w) E P.
Proof. intros Hw st. simpl. exists [w]. split; [reflexivity | now constructor]. Qed.

Lemma txspec_newDoc (autoId : nat -> string) E P : txspec (newDoc autoId) E P.
Proof. intros st. simpl. exists []. now rewrite app_nil_r. Qed.

Lemma txspec_bind {A B : Type} (m : Tx A) (k : A -> Tx B) E P :
  txspec m E P -> (forall a, txspec (k a) E P) -> txspec (bind m k) E P.
Proof.
  intros Hm Hk st. unfold bind. specialize (Hm st).
  destruct (m st) as [e|[a st1]]; [exact Hm|].
  destruct Hm as (ws1 & E1 & F1).
  specialize (Hk a st1). destruct (k a st1) as [e|[b st2]]; [exact Hk|].
  destruct Hk as (ws2 & E2 & F2).
  exists (ws1 ++ ws2)%list. split.
  - now rewrite E2, E1, app_assoc.
  - now apply Forall_app.
Qed.

Lemma txspec_foldM {A B : Type} (f : B -> A -> Tx B) E P (l : list A) :
  (forall b a, In a l -> txspec (f b a) E P) -> forall b, txspec (foldM f l b) E P.
Proof.
  induction l as [|a l IH]; intros Hf b; simpl.
  - apply txspec_ret.
  - apply txspec_bind; [apply Hf; now left|].
    intros b'. apply IH. intros; apply Hf; now right.
Qed.

Lemma txspec_forM {A : Type} (l : list A) (f : A -> Tx unit) E P :
  (forall a, In a l -> txspec (f a) E P) -> txspec (forM_ l f) E P.
Proof. intros Hf. unfold forM_. apply txspec_foldM. intros _ a Ha. now apply Hf. Qed.

Lemma txspec_repeatM (n : nat) (body : Tx unit) E P :
  txspec body E P -> txspec (repeatM n body) E P.
Proof.
  intros Hb. induction n; simpl; [apply txspec_ret|].
  apply txspec_bind; auto.
Qed.


Lemma failsBy_foldM {A B : Type} (f : B -> A -> Tx B) (bad : A -> option error)
    (l : list A) :
  (forall b a, In a l -> failsBy (f b a) (bad a)) ->
  forall b, failsBy (foldM f l b) (firstBad bad l).
Proof.
  induction l as [|a l IH]; intros Hf b st; simpl.
  - now exists b, st.
  - unfold bind. pose proof (Hf b a (or_introl eq_refl) st) as Ha.
    destruct (bad a) as [e|].
    + now rewrite Ha.
    + destruct Ha as (b' & st' & ->).
      apply IH. intros; apply Hf; now right.
Qed.

Lemma firstBad_Some {A : Type} (bad : A -> option error) (l : list A) (e : error) :
  firstBad bad l = Some e -> exists a, In a l /\ bad a = Some e.
Proof.
  induction l as [|a l IH]; simpl; [discriminate|].
  destruct (bad a) as [e'|] eqn:Ea.
  - intros [= <-]. exists a. auto.
  - intros H. destruct (IH H) as (x & Hx & Ex). exists x. auto.
Qed.

Lemma firstBad_None {A : Type} (bad : A -> option error) (l : list A) :
  firstBad bad l = None <-> forall a, In a l -> bad a = None.
Proof.
  induction l as [|a l IH]; simpl.
  - split; [intros _ a []|reflexivity].
  - destruct (bad a) as [e|] eqn:Ea.
    + split; [discriminate|]. intros H. specialize (H a (or_introl eq_refl)). congruence.
    + rewrite IH. split.
      * intros H x [<-|Hx]; auto.
      * intros H x Hx. apply H. now right.
Qed.


(** ** Scheduled use *)

Section Scheduled.
Variable STANDARD_LENGTHS : list Z.
Variable getGaugeFromMaterial : string -> string.
Variable autoId : nat -> string.

Local Abbreviation scheduledItems' := (scheduledItems STANDARD_LENGTHS getGaugeFromMaterial).
Local Abbreviation synthetic := (fun d : detail => isSynthetic d = true).

(** One step of the loop over the standard lengths keeps [totalItems]
    equal to the number of descriptors pushed. *)
Lemma scheduledLen_step (p : params) (item : Item.t) (acc : list detail * Z) (len : Z) :
  let r := scheduledLen getGaugeFromMaterial p item acc len in
  snd acc = JS.len (fst acc) -> Forall synthetic (fst acc) ->
  snd r = JS.len (fst r)
  /\ Forall synthetic (fst r)
  /\ JS.len (fst r) = JS.len (fst acc) + Z.max 0 (Item.qty item len).
Proof.
  destruct acc as [ds t]. unfold scheduledLen. simpl. intros Ht Hs.
  destruct (Z.gtb_spec (Item.qty item len) 0) as [Hq|Hq]; simpl.
  - unfold JS.len in *. rewrite length_app, repeat_length. repeat split; try lia.
    apply Forall_app. split; [exact Hs|]. apply Forall_forall.
    intros d Hd. apply repeat_spec in Hd. now subst d.
  - repeat split; auto. lia.
Qed.

Lemma scheduledLen_fold (p : params) (item : Item.t) (lens : list Z)
    (acc : list detail * Z) :
  let r := fold_left (scheduledLen getGaugeFromMaterial p item) lens acc in
  snd acc = JS.len (fst acc) -> Forall synthetic (fst acc) ->
  snd r = JS.len (fst r)
  /\ Forall synthetic (fst r)
  /\ JS.len (fst r)
     = JS.len (fst acc)
       + fold_right (fun len a => Z.max 0 (Item.qty item len) + a) 0 lens.
Proof.
  revert acc. induction lens as [|len lens IH]; intros acc r Ht Hs; subst r.
  - simpl. repeat split; auto. lia.
  - simpl fold_left.
    destruct (scheduledLen_step p item acc len Ht Hs) as (S1 & S2 & S3).
    destruct (IH _ S1 S2) as (H1 & H2 & H3).
    repeat split; auto. rewrite H3, S3. simpl. lia.
Qed.

Lemma requested_lens_acc (item : Item.t) (lens : list Z) (a : Z) :
  fold_right (fun len acc' => Z.max 0 (Item.qty item len) + acc') a lens
  = fold_right (fun len acc' => Z.max 0 (Item.qty item len) + acc') 0 lens + a.
Proof. induction lens as [|l lens IH]; simpl; [lia|]. rewrite IH. lia. Qed.

Lemma scheduledItems_fold (p : params) (items : list Item.t) (acc : list detail * Z) :
  let r := fold_left (fun acc item =>
                        fold_left (scheduledLen getGaugeFromMaterial p item)
                                  STANDARD_LENGTHS acc) items acc in
  snd acc = JS.len (fst acc) -> Forall synthetic (fst acc) ->
  snd r = JS.len (fst r)
  /\ Forall synthetic (fst r)
  /\ JS.len (fst r) = JS.len (fst acc) + requestedTotal STANDARD_LENGTHS items.
Proof.
  revert acc. induction items as [|item items IH]; intros acc r Ht Hs; subst r.
  - simpl. repeat split; auto. lia.
  - simpl fold_left.
    destruct (scheduledLen_fold p item STANDARD_LENGTHS acc Ht Hs) as (H1 & H2 & H3).
    destruct (IH _ H1 H2) as (I1 & I2 & I3).
    repeat split; auto.
    rewrite I3, H3. simpl. rewrite (requested_lens_acc item STANDARD_LENGTHS (requestedTotal _ _)). lia.
Qed.

(** [totalItems] is [details.length], the descriptors are all synthetic,
    and there is one per requested unit. *)
Lemma scheduledItems_spec (p : params) (items : list Item.t) :
  snd (scheduledItems' p items) = JS.len (fst (scheduledItems' p items))
  /\ Forall synthetic (fst (scheduledItems' p items))
  /\ JS.len (fst (scheduledItems' p items)) = requestedTotal STANDARD_LENGTHS items.
Proof.
  destruct (scheduledItems_fold p items ([], 0)) as (H1 & H2 & H3);
    [reflexivity | constructor |].
  unfold scheduledItems. repeat split; auto.
Qed.

Lemma scheduledLen_details (p : params) (item : Item.t) (lens : list Z)
    (acc : list detail * Z) :
  fst (fold_left (scheduledLen getGaugeFromMaterial p item) lens acc)
  = (fst acc
     ++ flat_map (fun len =>
          repeat (Synthetic (Item.materialType item) len 48
                    (getGaugeFromMaterial (Item.materialType item))
                    (densityOr0 (lookupMaterial (materials p) (Item.materialType item)))
                    (thicknessOr0 (lookupMaterial (materials p) (Item.materialType item))))
                 (Z.to_nat (Item.qty item len))) lens)%list.
Proof.
  revert acc. induction lens as [|len lens IH]; intros [ds t]; simpl.
  - now rewrite app_nil_r.
  - rewrite IH. destruct (Z.gtb_spec (Item.qty item len) 0) as [Hq|Hq]; simpl.
    + now rewrite <- app_assoc.
    + replace (Z.to_nat (Item.qty item len)) with 0%nat by lia. reflexivity.
Qed.

Lemma scheduledItems_fold_details (p : params) (items : list Item.t)
    (acc : list detail * Z) :
  fst (fold_left (fun acc item =>
                    fold_left (scheduledLen getGaugeFromMaterial p item)
                              STANDARD_LENGTHS acc) items acc)
  = (fst acc ++ descriptorsOf STANDARD_LENGTHS getGaugeFromMaterial p items)%list.
Proof.
  unfold descriptorsOf. revert acc.
  induction items as [|item items IH]; intros acc; simpl.
  - now rewrite app_nil_r.
  - rewrite IH, scheduledLen_details. now rewrite <- app_assoc.
Qed.

(** The descriptors are those of the requested quantities, item by item
    and length by length. *)
Lemma scheduledItems_details (p : params) (items : list Item.t) :
  fst (scheduledItems' p items)
  = descriptorsOf STANDARD_LENGTHS getGaugeFromMaterial p items.
Proof.
  unfold scheduledItems. now rewrite scheduledItems_fold_details.
Qed.

Lemma useJob_scheduled (p : params) (now sd : timestamp) (job : Job.t)
    (n : nat) (ws0 : list write) :
  useJob STANDARD_LENGTHS getGaugeFromMaterial autoId p now true sd job (mkTx n ws0)
  = if requests STANDARD_LENGTHS job
    then inr (tt, mkTx (S n)
                       (ws0 ++ [SetLog (autoId n)
                                  (Log.mk (autoId n)
                                     (JS.orElse (JS.trim (Job.jobName job)) "N/A")
                                     (Job.customer job) now sd (Some "Scheduled")
                                     (fst (scheduledItems' p (Job.items job)))
                                     (- JS.len (fst (scheduledItems' p (Job.items job))))
                                     None)])%list)
    else inr (tt, mkTx n ws0).
Proof.
  unfold useJob, requests.
  destruct (scheduledItems_spec p (Job.items job)) as (H1 & _ & H3).
  rewrite <- H3.
  destruct (scheduledItems' p (Job.items job)) as [ds t]. simpl in *. subst t.
  destruct (JS.len ds >? 0); reflexivity.
Qed.

Lemma scheduled_staged (p : params) (now sd : timestamp) (jobs : list Job.t) :
  forall n ws0,
    useStockBody STANDARD_LENGTHS getGaugeFromMaterial autoId p now jobs true sd
                 (mkTx n ws0)
    = inr (tt, mkTx (n + List.length (filter (requests STANDARD_LENGTHS) jobs))
                    (ws0 ++ map (fun r => SetLog (Log.id r) r)
                                (scheduledRecords STANDARD_LENGTHS getGaugeFromMaterial
                                   autoId p now sd n
                                   (filter (requests STANDARD_LENGTHS) jobs)))%list).
Proof.
  unfold useStockBody, forM_.
  induction jobs as [|job jobs IH]; intros n ws0.
  - simpl. unfold ret. now rewrite Nat.add_0_r, app_nil_r.
  - cbn [foldM filter]. unfold bind at 1. rewrite useJob_scheduled.
    destruct (requests STANDARD_LENGTHS job).
    + rewrite IH. cbn [scheduledRecords map List.length].
      rewrite <- app_assoc, Nat.add_succ_r. reflexivity.
    + apply IH.
Qed.

Lemma commit_setLogs (rs : list Log.t) :
  forall d,
    commit d (map (fun r => SetLog (Log.id r) r) rs)
    = Some (mkDb (inventoryCol d) (fold_left putLog rs (usageLogsCol d))
                 (materialsCol d)).
Proof.
  induction rs as [|r rs IH]; intros d; simpl.
  - now destruct d.
  - rewrite IH. simpl. unfold putLog.
    assert (E : logWithId (Log.id r) r = r) by now destruct r.
    now rewrite E.
Qed.

Lemma scheduledRecords_ids (p : params) (now sd : timestamp) (jobs : list Job.t) :
  forall n,
    map Log.id (scheduledRecords STANDARD_LENGTHS getGaugeFromMaterial autoId p now sd
                  n jobs)
    = map autoId (seq n (List.length jobs)).
Proof.
  induction jobs as [|job jobs IH]; intros n; simpl; [reflexivity|].
  now rewrite IH.
Qed.

Lemma putLogs_fresh (rs : list Log.t) :
  forall n logs,
    map Log.id rs = map autoId (seq n (List.length rs)) ->
    (forall i j, autoId i = autoId j -> i = j) ->
    (forall j, (n <= j)%nat -> hasLog (autoId j) logs = false) ->
    fold_left putLog rs logs = (logs ++ rs)%list.
Proof.
  induction rs as [|r rs IH]; intros n logs Hids Hinj Hfresh; simpl.
  - now rewrite app_nil_r.
  - simpl in Hids. injection Hids as Hr Hrs.
    unfold putLog at 2. rewrite Hr, (Hfresh n) by lia.
    rewrite (IH (S n)); auto.
    + now rewrite <- app_assoc.
    + intros j Hj. unfold hasLog. rewrite existsb_app.
      fold (hasLog (autoId j) logs). rewrite (Hfresh j) by lia. simpl.
      rewrite orb_false_r, Hr. apply String.eqb_neq. intros E.
      apply Hinj in E. lia.
Qed.

Lemma scheduledRecords_facts (p : params) (now sd : timestamp) (jobs : list Job.t) :
  forall n,
    Forall2 (fun r job =>
               r = scheduledRecord STANDARD_LENGTHS getGaugeFromMaterial p now sd
                     (Log.id r) job
               /\ Log.status r = Some "Scheduled"
               /\ Log.details r
                  = descriptorsOf STANDARD_LENGTHS getGaugeFromMaterial p (Job.items job)
               /\ Forall (fun d => isSynthetic d = true) (Log.details r)
               /\ JS.len (Log.details r) = requestedTotal STANDARD_LENGTHS (Job.items job)
               /\ Log.qty r = - JS.len (Log.details r))
            (scheduledRecords STANDARD_LENGTHS getGaugeFromMaterial autoId p now sd n jobs)
            jobs.
Proof.
  induction jobs as [|job jobs IH]; intros n; simpl.
  - constructor.
  - constructor; [|apply IH].
    destruct (scheduledItems_spec p (Job.items job)) as (_ & H2 & H3).
    simpl. repeat split; auto. apply scheduledItems_details.
Qed.

Lemma scheduledRecords_materials (p q : params) (now sd : timestamp) (jobs : list Job.t) :
  materials q = materials p ->
  forall n,
    scheduledRecords STANDARD_LENGTHS getGaugeFromMaterial autoId q now sd n jobs
    = scheduledRecords STANDARD_LENGTHS getGaugeFromMaterial autoId p now sd n jobs.
Proof.
  intros Hq. induction jobs as [|job jobs IH]; intros n; simpl; [reflexivity|].
  rewrite IH. unfold scheduledRecord, scheduledItems, scheduledLen.
  now rewrite Hq.
Qed.

(** C9 (as amended): a scheduled call never fails, whatever the inventory.
    It draws one id per job that requests at least one unit, in job order,
    and sets under it a record with status Scheduled, whose [details] are
    the synthetic descriptors of the requested quantities, one per
    requested unit, and whose [qty] is the negative of their number: the
    store afterwards has the same units and materials, and its records are
    the former ones with these records set, which, the ids drawn being
    distinct and not in use, are the former ones followed by these.  The
    client's [inventory] array has no influence on the result. *)
Theorem scheduled_use_writes (p : params) (now sd : timestamp) (jobs : list Job.t)
    (w : world) :
  let asking := filter (requests STANDARD_LENGTHS) jobs in
  let records :=
    scheduledRecords STANDARD_LENGTHS getGaugeFromMaterial autoId p now sd
                     (idsDrawn w) asking in
  handleUseStock STANDARD_LENGTHS getGaugeFromMaterial autoId p now jobs true sd w
  = (None,
     mkWorld (mkDb (inventoryCol (store w))
                   (fold_left putLog records (usageLogsCol (store w)))
                   (materialsCol (store w)))
             (idsDrawn w + List.length asking))
  /\ map Log.id records = map autoId (seq (idsDrawn w) (List.length asking))
  /\ Forall2 (fun r job =>
                r = scheduledRecord STANDARD_LENGTHS getGaugeFromMaterial p now sd
                      (Log.id r) job
                /\ Log.status r = Some "Scheduled"
                /\ Log.details r
                   = descriptorsOf STANDARD_LENGTHS getGaugeFromMaterial p (Job.items job)
                /\ Forall (fun d => isSynthetic d = true) (Log.details r)
                /\ JS.len (Log.details r) = requestedTotal STANDARD_LENGTHS (Job.items job)
                /\ Log.qty r = - JS.len (Log.details r))
             records asking
  /\ ((forall i j, autoId i = autoId j -> i = j) ->
      (forall j, (idsDrawn w <= j)%nat ->
                 hasLog (autoId j) (usageLogsCol (store w)) = false) ->
      fold_left putLog records (usageLogsCol (store w))
      = (usageLogsCol (store w) ++ records)%list)
  /\ (forall inv',
        handleUseStock STANDARD_LENGTHS getGaugeFromMaterial autoId
          (mkParams (materials p) inv' (inventorySummary p) (categoriesToDelete p))
          now jobs true sd w
        = handleUseStock STANDARD_LENGTHS getGaugeFromMaterial autoId p now jobs true
            sd w).
Proof.
  intros asking records.
  assert (Hrun : forall q,
             materials q = materials p ->
             handleUseStock STANDARD_LENGTHS getGaugeFromMaterial autoId q now jobs
               true sd w
             = (None,
                mkWorld (mkDb (inventoryCol (store w))
                              (fold_left putLog records (usageLogsCol (store w)))
                              (materialsCol (store w)))
                        (idsDrawn w + List.length asking))).
  { intros q Hq. unfold handleUseStock, runTransaction.
    rewrite scheduled_staged. cbn [staged nextAuto app].
    rewrite commit_setLogs. fold asking.
    now rewrite (scheduledRecords_materials p q now sd asking Hq). }
  split; [now apply Hrun|]. split.
  { subst records. now rewrite scheduledRecords_ids. }
  split; [apply scheduledRecords_facts|]. split.
  { intros Hinj Hfresh. apply (putLogs_fresh records (idsDrawn w)); auto.
    subst records. rewrite scheduledRecords_ids.
    do 2 f_equal. clear. generalize (idsDrawn w).
    induction asking as [|job l IH]; intros n; simpl; auto. }
  intros inv'. rewrite (Hrun p eq_refl). now apply Hrun.
Qed.

End Scheduled.

(** ** Running loops of writes, and committing them *)

Lemma forM_stage_run {A : Type} (f : A -> write) (l : list A) (st : txState) :
  forM_ l (fun a => stage (f a)) st
  = inr (tt, mkTx (nextAuto st) (staged st ++ map f l)%list).
Proof.
  unfold forM_. revert st. induction l as [|a l IH]; intros [n ws]; simpl.
  - unfold ret. now rewrite app_nil_r.
  - unfold bind at 1. unfold stage at 1. simpl. rewrite IH. simpl.
    now rewrite <- app_assoc.
Qed.

Lemma repeatM_new_run (autoId : nat -> string) (sd : Sheet.t) (k n : nat)
    (ws0 : list write) :
  repeatM k (bind (newDoc autoId) (fun r => stage (SetSheet r sd))) (mkTx n ws0)
  = inr (tt, mkTx (n + k)
                  (ws0 ++ map (fun j => SetSheet (autoId j) sd) (seq n k))%list).
Proof.
  revert n ws0. induction k as [|k IH]; intros n ws0; simpl.
  - unfold ret. now rewrite Nat.add_0_r, app_nil_r.
  - unfold bind at 1. unfold bind at 1. unfold newDoc at 1, stage at 1. simpl.
    rewrite IH. rewrite <- app_assoc. simpl. now rewrite Nat.add_succ_r.
Qed.

Lemma hasSheet_app (i : string) (l1 l2 : list Sheet.t) :
  hasSheet i (l1 ++ l2) = hasSheet i l1 || hasSheet i l2.
Proof. apply existsb_app. Qed.

Lemma hasSheet_true (i : string) (l : list Sheet.t) :
  hasSheet i l = true <-> In i (map Sheet.id l).
Proof.
  unfold hasSheet. rewrite existsb_exists, in_map_iff.
  split; intros (s & H1 & H2); exists s.
  - apply String.eqb_eq in H2. auto.
  - split; [tauto|]. apply String.eqb_eq. tauto.
Qed.

Lemma hasSheet_false (i : string) (l : list Sheet.t) :
  hasSheet i l = false <-> ~ In i (map Sheet.id l).
Proof.
  rewrite <- hasSheet_true. destruct (hasSheet i l); split; intros; congruence.
Qed.

Lemma filter_filter {A : Type} (f g : A -> bool) (l : list A) :
  filter f (filter g l) = filter (fun x => g x && f x) l.
Proof.
  induction l as [|x l IH]; simpl; [reflexivity|].
  destruct (g x); simpl; [destruct (f x)|]; now rewrite IH.
Qed.

(** Committing the deletion of the units of [l] removes from the inventory
    collection exactly the documents whose id is that of a unit of [l]. *)
Lemma commit_deletes (l : list Sheet.t) :
  forall d,
    commit d (map (fun s => DeleteSheet (Sheet.id s)) l)
    = Some (mkDb (filter (fun s => negb (hasSheet (Sheet.id s) l)) (inventoryCol d))
                 (usageLogsCol d) (materialsCol d)).
Proof.
  induction l as [|x l IH]; intros [inv logs mats]; simpl.
  - now rewrite filter_true.
  - rewrite IH. simpl. unfold dropSheet. rewrite filter_filter.
    do 2 f_equal. apply filter_ext. intros s.
    rewrite negb_orb. now rewrite (String.eqb_sym (Sheet.id x)).
Qed.

(** Committing [k] new units under fresh, distinct ids appends them. *)
Lemma commit_new_sheets (autoId : nat -> string) (sd : Sheet.t) :
  (forall i j, autoId i = autoId j -> i = j) ->
  forall k n d,
    (forall j, (n <= j)%nat -> hasSheet (autoId j) (inventoryCol d) = false) ->
    commit d (map (fun j => SetSheet (autoId j) sd) (seq n k))
    = Some (mkDb (inventoryCol d
                  ++ map (fun j => Sheet.withId (autoId j) sd) (seq n k))%list
                 (usageLogsCol d) (materialsCol d)).
Proof.
  intros Hinj. induction k as [|k IH]; intros n [inv logs mats] Hfresh; simpl in *.
  - now rewrite app_nil_r.
  - rewrite (Hfresh n) by lia. rewrite IH; simpl.
    + now rewrite <- app_assoc.
    + intros j Hj. rewrite hasSheet_app, (Hfresh j) by lia. simpl.
      rewrite orb_false_r. apply String.eqb_neq. intros E.
      apply Hinj in E. lia.
Qed.

(** ** Counting after a removal *)

Lemma Permutation_filter_length {A : Type} (f : A -> bool) (l l' : list A) :
  Permutation l l' -> List.length (filter f l) = List.length (filter f l').
Proof.
  induction 1; simpl; auto.
  - destruct (f x); simpl; auto.
  - destruct (f x), (f y); simpl; auto.
  - congruence.
Qed.

Lemma NoDup_ids_filter (f : Sheet.t -> bool) (l : list Sheet.t) :
  NoDup (map Sheet.id l) -> NoDup (map Sheet.id (filter f l)).
Proof.
  induction l as [|x l IH]; simpl; [auto|].
  intros H. inversion H as [|? ? Hx Hl]; subst.
  destruct (f x); simpl; [|auto].
  constructor; [|auto]. intros Hin. apply Hx.
  apply in_map_iff in Hin. destruct Hin as (s & Es & Hs).
  apply filter_In in Hs. apply in_map_iff. exists s. tauto.
Qed.

Lemma NoDup_app_disjoint {A : Type} (l1 l2 : list A) :
  NoDup (l1 ++ l2) -> forall a, In a l1 -> ~ In a l2.
Proof.
  induction l1 as [|x l1 IH]; simpl; intros H a; [tauto|].
  inversion H as [|? ? Hx Hl]; subst. intros [<-|Ha] H2.
  - apply Hx, in_or_app. now right.
  - now apply (IH Hl a).
Qed.

Lemma filter_none {A : Type} (q : A -> bool) (l : list A) :
  (forall x, In x l -> q x = false) -> filter q l = [].
Proof.
  induction l as [|x l IH]; intros F; simpl; [reflexivity|].
  rewrite (F x) by now left. apply IH. intros; apply F; now right.
Qed.

(** Removing the first [k] units of the arrangement of the matching units
    leaves [k] fewer matching units. *)
Lemma count_after_removal (pred : Sheet.t -> bool) (inv : list Sheet.t) (k : nat) :
  NoDup (map Sheet.id inv) ->
  (k <= List.length (filter pred inv))%nat ->
  List.length
    (filter pred
       (filter (fun s => negb (hasSheet (Sheet.id s) (firstn k (matching pred inv))))
               inv))
  = (List.length (filter pred inv) - k)%nat.
Proof.
  intros Hnd Hk.
  set (SM := matching pred inv).
  set (q := fun s => negb (hasSheet (Sheet.id s) (firstn k SM))).
  assert (HP : Permutation (filter pred inv) SM) by apply (sort_perm Sheet.createdAt).
  assert (Hnd' : NoDup (map Sheet.id SM)).
  { eapply Permutation_NoDup; [apply Permutation_map, HP|].
    now apply NoDup_ids_filter. }
  rewrite filter_filter.
  rewrite (filter_ext (fun x => q x && pred x) (fun x => pred x && q x))
    by (intros; apply andb_comm).
  rewrite <- filter_filter.
  rewrite (Permutation_filter_length q _ _ HP).
  rewrite (Permutation_length HP).
  rewrite <- (firstn_skipn k SM) at 1.
  rewrite <- (firstn_skipn k SM) in Hnd'.
  rewrite filter_app, !length_app.
  assert (E1 : filter q (firstn k SM) = []).
  { assert (F : forall x, In x (firstn k SM) -> q x = false).
    { intros x Hx. unfold q. apply negb_false_iff. apply hasSheet_true.
      now apply in_map. }
    now apply filter_none. }
  assert (E2 : filter q (skipn k SM) = skipn k SM).
  { apply forallb_filter_id. apply forallb_forall. intros x Hx.
    unfold q. apply negb_true_iff. apply hasSheet_false. intros Hin.
    rewrite map_app in Hnd'.
    apply (NoDup_app_disjoint _ _ Hnd' (Sheet.id x)); [exact Hin | now apply in_map]. }
  rewrite E1, E2. simpl.
  rewrite length_skipn. lia.
Qed.

(** ** Immediate use: all or nothing *)

Lemma failsBy_ret {A : Type} (a : A) : failsBy (ret a) None.
Proof. intros st. now exists a, st. Qed.

Lemma failsBy_throw {A : Type} (e : error) : failsBy (@throw A e) (Some e).
Proof. intros st. reflexivity. Qed.

Lemma failsBy_stage (w : write) : failsBy (stage w) None.
Proof. intros st. eexists _, _. reflexivity. Qed.

Lemma failsBy_newDoc (autoId : nat -> string) : failsBy (newDoc autoId) None.
Proof. intros st. eexists _, _. reflexivity. Qed.

Lemma failsBy_bind {A B : Type} (m : Tx A) (k : A -> Tx B) (o : option error) :
  failsBy m None -> (forall a, failsBy (k a) o) -> failsBy (bind m k) o.
Proof.
  intros Hm Hk st. unfold bind. destruct (Hm st) as (a & st' & ->). apply Hk.
Qed.

Lemma failsBy_bind_fail {A B : Type} (m : Tx A) (k : A -> Tx B) (e : error) :
  failsBy m (Some e) -> failsBy (bind m k) (Some e).
Proof. intros Hm st. unfold bind. now rewrite (Hm st). Qed.

Lemma failsBy_forM_ok {A : Type} (l : list A) (f : A -> Tx unit) :
  (forall a, failsBy (f a) None) -> failsBy (forM_ l f) None.
Proof.
  intros Hf. unfold forM_.
  replace (@None error) with (firstBad (fun _ : A => @None error) l)
    by (induction l; simpl; auto).
  apply failsBy_foldM. intros _ a _. apply Hf.
Qed.

Lemma matching_len (pred : Sheet.t -> bool) (pool : list Sheet.t) :
  JS.len (matching pred pool) = JS.len (filter pred pool).
Proof.
  unfold JS.len. f_equal. symmetry. apply Permutation_length.
  apply (sort_perm Sheet.createdAt).
Qed.

Section ImmediateUse.
Variable STANDARD_LENGTHS : list Z.
Variable getGaugeFromMaterial : string -> string.
Variable autoId : nat -> string.

Lemma useLen_fails (p : params) (now : timestamp) (job : Job.t) (ref : string)
    (item : Item.t) (used : list Sheet.t) (len : Z) :
  failsBy (useLen p now job ref item used len) (shortLen p item len).
Proof.
  unfold useLen, shortLen, onHandCount. rewrite matching_len.
  destruct (Z.leb_spec (Item.qty item len) 0) as [Hq|Hq].
  - replace (0 <? Item.qty item len) with false by (symmetry; apply Z.ltb_ge; lia).
    apply failsBy_ret.
  - replace (0 <? Item.qty item len) with true by (symmetry; apply Z.ltb_lt; lia).
    simpl. destruct (_ <? Item.qty item len).
    + apply failsBy_throw.
    + apply failsBy_bind; [|intros; apply failsBy_ret].
      apply failsBy_forM_ok. intros s. apply failsBy_stage.
Qed.

Lemma useJob_fails (p : params) (now sd : timestamp) (job : Job.t) :
  failsBy (useJob STANDARD_LENGTHS getGaugeFromMaterial autoId p now false sd job)
          (shortJob STANDARD_LENGTHS p job).
Proof.
  unfold useJob. apply failsBy_bind; [apply failsBy_newDoc|]. intros ref.
  assert (H : forall used,
             failsBy (foldM (fun used item =>
                               foldM (useLen p now job ref item) STANDARD_LENGTHS used)
                            (Job.items job) used)
                     (shortJob STANDARD_LENGTHS p job)).
  { apply failsBy_foldM. intros used item _.
    apply failsBy_foldM. intros used' len _. apply useLen_fails. }
  destruct (shortJob STANDARD_LENGTHS p job) as [e|].
  - apply failsBy_bind_fail, H.
  - apply failsBy_bind; [apply H|]. intros used.
    destruct (_ >? 0); [apply failsBy_stage | apply failsBy_ret].
Qed.

Lemma useStockBody_fails (p : params) (now sd : timestamp) (jobs : list Job.t) :
  failsBy (useStockBody STANDARD_LENGTHS getGaugeFromMaterial autoId p now jobs false sd)
          (firstBad (shortJob STANDARD_LENGTHS p) jobs).
Proof.
  unfold useStockBody, forM_. apply failsBy_foldM. intros _ job _. apply useJob_fails.
Qed.

Lemma shortLen_Some (p : params) (item : Item.t) (len : Z) (e : error) :
  shortLen p item len = Some e ->
  e = NotEnoughStock (Item.qty item len) (Item.materialType item) len
        (onHandCount (Item.materialType item) len (inventory p))
  /\ onHandCount (Item.materialType item) len (inventory p) < Item.qty item len.
Proof.
  unfold shortLen. destruct (0 <? _); simpl; [|discriminate].
  destruct (Z.ltb_spec (onHandCount (Item.materialType item) len (inventory p))
                       (Item.qty item len)); [|discriminate].
  intros [= <-]. auto.
Qed.

(** C3: when some requirement of some job of an immediate batch asks for
    more units than the inventory holds On Hand at its key, the call fails
    with the error of a short requirement of the batch, which carries the
    requested quantity, the key and the number available; the store is
    left as it was: no unit is changed and no record is written, for any
    job of the batch. *)
Theorem use_stock_all_or_nothing (p : params) (now sd : timestamp)
    (jobs : list Job.t) (w : world) (job : Job.t) (item : Item.t) (len : Z) :
  In job jobs -> In item (Job.items job) -> In len STANDARD_LENGTHS ->
  onHandCount (Item.materialType item) len (inventory p) < Item.qty item len ->
  exists job' item' len',
    In job' jobs /\ In item' (Job.items job') /\ In len' STANDARD_LENGTHS
    /\ onHandCount (Item.materialType item') len' (inventory p) < Item.qty item' len'
    /\ handleUseStock STANDARD_LENGTHS getGaugeFromMaterial autoId p now jobs false sd w
       = (Some (NotEnoughStock (Item.qty item' len') (Item.materialType item') len'
                  (onHandCount (Item.materialType item') len' (inventory p))),
          w).
Proof.
  intros Hjob Hitem Hlen Hshort.
  destruct (firstBad (shortJob STANDARD_LENGTHS p) jobs) as [e|] eqn:Ebad.
  - destruct (firstBad_Some _ _ _ Ebad) as (job' & Hj' & Ej).
    destruct (firstBad_Some _ _ _ Ej) as (item' & Hi' & Ei).
    destruct (firstBad_Some _ _ _ Ei) as (len' & Hl' & El).
    destruct (shortLen_Some _ _ _ _ El) as (-> & Hlt).
    exists job', item', len'. repeat split; auto.
    unfold handleUseStock, runTransaction.
    pose proof (useStockBody_fails p now sd jobs (mkTx (idsDrawn w) [])) as Hf.
    rewrite Ebad in Hf. now rewrite Hf.
  - exfalso.
    pose proof (proj1 (firstBad_None _ _) Ebad job Hjob) as Hj.
    pose proof (proj1 (firstBad_None _ _) Hj item Hitem) as Hi.
    pose proof (proj1 (firstBad_None _ _) Hi len Hlen) as Hl.
    unfold shortLen in Hl.
    assert (0 <= onHandCount (Item.materialType item) len (inventory p))
      by (unfold onHandCount, JS.len; lia).
    replace (0 <? Item.qty item len) with true in Hl by (symmetry; apply Z.ltb_lt; lia).
    replace (_ <? Item.qty item len) with true in Hl by (symmetry; apply Z.ltb_lt; lia).
    discriminate.
Qed.

(** Through [handleUseStock] an immediate use stages no deletion: it only
    marks units Used, with their back-references, and writes Completed
    records of unit snapshots. *)
Lemma hook_use_writes (p : params) (now sd : timestamp) (jobs : list Job.t) :
  txspec (useStockBody STANDARD_LENGTHS getGaugeFromMaterial autoId p now jobs false sd)
         (fun _ => True) immediateWrite.
Proof.
  unfold useStockBody. apply txspec_forM. intros job _. unfold useJob.
  apply txspec_bind; [apply txspec_newDoc|]. intros ref.
  apply txspec_bind.
  - apply txspec_foldM. intros used item _. apply txspec_foldM. intros used' len _.
    unfold useLen. destruct (_ <=? 0); [apply txspec_ret|].
    destruct (_ <? _); [now apply txspec_throw|].
    apply txspec_bind; [|intros; apply txspec_ret].
    apply txspec_forM. intros sheet _. apply txspec_stage.
    simpl. repeat split; discriminate.
  - intros used. destruct (_ >? 0); [|apply txspec_ret].
    apply txspec_stage. simpl. repeat split.
    + apply Forall_forall. intros d Hd. apply in_map_iff in Hd.
      now destruct Hd as (s & <- & _).
    + unfold JS.len. now rewrite length_map.
Qed.

End ImmediateUse.

(** ** Editing a completed record *)

Section EditCompleted.
Variable STANDARD_LENGTHS : list Z.
Variable getGaugeFromMaterial : string -> string.

Lemma slice0_short {A : Type} (q : Z) (l : list A) :
  0 < q -> (JS.len (JS.slice0 q l) <? q) = (JS.len l <? q).
Proof.
  intros Hq. unfold JS.len, JS.slice0. rewrite length_firstn.
  destruct (Z.ltb_spec (Z.of_nat (List.length l)) q);
    [apply Z.ltb_lt | apply Z.ltb_ge]; lia.
Qed.

Lemma editLen_fails (p : params) (now : timestamp) (originalLog : Log.t)
    (newLogData : LogData.t) (ids : list (option string)) (item : Item.t)
    (used : list Sheet.t) (len : Z) :
  failsBy (editLen p now originalLog newLogData ids item used len)
          (editShortLen p ids item len).
Proof.
  unfold editLen, editShortLen.
  destruct (Z.leb_spec (Item.qty item len) 0) as [Hq|Hq].
  - replace (0 <? Item.qty item len) with false by (symmetry; apply Z.ltb_ge; lia).
    apply failsBy_ret.
  - replace (0 <? Item.qty item len) with true by (symmetry; apply Z.ltb_lt; lia).
    rewrite slice0_short, matching_len by exact Hq. simpl.
    destruct (_ <? Item.qty item len).
    + apply failsBy_throw.
    + apply failsBy_bind; [|intros; apply failsBy_ret].
      apply failsBy_forM_ok. intros s. apply failsBy_stage.
Qed.

(** An edit of a completed record re-allocates every requested quantity
    from units that are On Hand in the client's inventory and are not
    units of the record: when they are fewer than requested, the edit
    fails and changes nothing, whatever the record held. *)
Lemma edit_needs_other_stock (p : params) (now : timestamp) (originalLog : Log.t)
    (newLogData : LogData.t) (w : world) (item : Item.t) (len : Z) :
  statusIs (Log.status originalLog) "Scheduled" = false ->
  In item (LogData.items newLogData) -> In len STANDARD_LENGTHS ->
  JS.len (filter (fun i => onHandAt (Item.materialType item) len i
                           && negb (includesId (map detail_id (Log.details originalLog))
                                               (Sheet.id i)))
                 (inventory p)) < Item.qty item len ->
  exists e,
    handleEditOutgoingLog STANDARD_LENGTHS getGaugeFromMaterial p now originalLog
                          newLogData w = (Some e, w).
Proof.
  intros Hst Hitem Hlen Hshort. unfold handleEditOutgoingLog. rewrite Hst.
  unfold runTransaction, editCompletedBody.
  unfold bind at 1.
  destruct (forM_ _ (editCheck p) _) as [e|[[] st1]]; [now exists e|].
  unfold bind at 1. rewrite forM_stage_run. unfold bind at 1.
  set (ids := map detail_id (Log.details originalLog)).
  pose proof (failsBy_foldM
                (fun used item' =>
                   foldM (editLen p now originalLog newLogData ids item')
                         STANDARD_LENGTHS used)
                (fun item' => firstBad (editShortLen p ids item') STANDARD_LENGTHS)
                (LogData.items newLogData)
                (fun used item' _ =>
                   failsBy_foldM _ _ STANDARD_LENGTHS
                     (fun used' len' _ =>
                        editLen_fails p now originalLog newLogData ids item' used' len')
                     used) []) as Hf.
  match type of Hf with failsBy _ ?o => destruct o as [e|] eqn:Ebad end.
  - rewrite Hf. now exists e.
  - exfalso.
    pose proof (proj1 (firstBad_None _ _) Ebad item Hitem) as Hi.
    pose proof (proj1 (firstBad_None _ _) Hi len Hlen) as Hl.
    unfold editShortLen in Hl. fold ids in Hshort.
    assert (0 <= JS.len (filter (fun i => onHandAt (Item.materialType item) len i
                           && negb (includesId ids (Sheet.id i))) (inventory p)))
      by (unfold JS.len; lia).
    replace (0 <? Item.qty item len) with true in Hl by (symmetry; apply Z.ltb_lt; lia).
    replace (_ <? Item.qty item len) with true in Hl by (symmetry; apply Z.ltb_lt; lia).
    discriminate.
Qed.

End EditCompleted.

(** ** Category deletion in chunks *)

Lemma chunkSizes_unfold (m : Z) :
  0 <= m ->
  chunkSizes m
  = if m =? 0 then []
    else if m <? MAX_BATCH_SIZE then [m]
         else MAX_BATCH_SIZE :: chunkSizes (m - MAX_BATCH_SIZE).
Proof.
  intros Hm. unfold chunkSizes, MAX_BATCH_SIZE.
  destruct (Z.eqb_spec m 0) as [->|Hn]; [reflexivity|].
  destruct (Z.ltb_spec m 500) as [Hlt|Hge].
  - rewrite Z.div_small, Z.mod_small by lia. simpl.
    destruct (Z.eqb_spec m 0); [lia|reflexivity].
  - assert (Ediv : m / 500 = (m - 500) / 500 + 1).
    { replace m with ((m - 500) + 1 * 500) at 1 by lia. now rewrite Z.div_add by lia. }
    assert (Emod : m mod 500 = (m - 500) mod 500).
    { replace m with ((m - 500) + 1 * 500) at 1 by lia. now rewrite Z.mod_add by lia. }
    rewrite Ediv, Emod.
    rewrite Z2Nat.inj_add by (try apply Z.div_pos; lia).
    rewrite Nat.add_comm. reflexivity.
Qed.

Lemma slice_length {A : Type} (i j : Z) (l : list A) :
  0 <= i -> i <= j ->
  JS.len (slice i j l) = Z.min (j - i) (Z.max 0 (JS.len l - i)).
Proof.
  intros Hi Hj. unfold slice, JS.len. rewrite length_firstn, length_skipn. lia.
Qed.

Lemma slice_next {A : Type} (i k : Z) (l : list A) :
  0 <= i -> 0 <= k ->
  (slice i (i + k) l ++ skipn (Z.to_nat (i + k)) l)%list = skipn (Z.to_nat i) l.
Proof.
  intros Hi Hk. unfold slice.
  replace (i + k - i) with k by lia.
  rewrite Z2Nat.inj_add by lia. rewrite Nat.add_comm, <- skipn_skipn.
  apply firstn_skipn.
Qed.

(** With enough fuel the loop ends by its own test: it cuts what lies
    after [i] into full chunks followed by the remainder. *)
Lemma chunkLoop_spec (all : list write) (fuel : nat) :
  forall i, 0 <= i ->
  JS.len all - i < Z.of_nat fuel * MAX_BATCH_SIZE ->
  List.concat (chunkLoop fuel i all) = skipn (Z.to_nat i) all
  /\ map JS.len (chunkLoop fuel i all) = chunkSizes (Z.max 0 (JS.len all - i))
  /\ Forall (fun c => 0 < JS.len c <= MAX_BATCH_SIZE) (chunkLoop fuel i all).
Proof.
  unfold MAX_BATCH_SIZE.
  induction fuel as [|fuel IH]; intros i Hi Hfuel.
  - simpl in *. assert (JS.len all <= i) by lia.
    rewrite skipn_all2 by (unfold JS.len in *; lia).
    replace (Z.max 0 (JS.len all - i)) with 0 by lia. repeat split; constructor.
  - simpl chunkLoop. destruct (Z.ltb_spec i (JS.len all)) as [Hlt|Hge].
    + destruct (IH (i + MAX_BATCH_SIZE)) as (H1 & H2 & H3);
        unfold MAX_BATCH_SIZE in *; try lia.
      pose proof (slice_length i (i + 500) all Hi ltac:(lia)) as Hlen.
      repeat split.
      * simpl. rewrite H1. apply slice_next; lia.
      * simpl. rewrite H2, Hlen.
        rewrite (chunkSizes_unfold (Z.max 0 (JS.len all - i))) by lia.
        unfold MAX_BATCH_SIZE.
        destruct (Z.eqb_spec (Z.max 0 (JS.len all - i)) 0); [lia|].
        destruct (Z.ltb_spec (Z.max 0 (JS.len all - i)) 500).
        -- replace (Z.max 0 (JS.len all - (i + 500))) with 0 by lia.
           simpl. f_equal. lia.
        -- f_equal; [lia|]. f_equal. lia.
      * constructor; [|exact H3]. rewrite Hlen. lia.
    + rewrite skipn_all2 by (unfold JS.len in *; lia).
      replace (Z.max 0 (JS.len all - i)) with 0 by lia. repeat split; constructor.
Qed.

(** The batches are the references to delete, cut in order into chunks of
    at most [MAX_BATCH_SIZE], all full but possibly the last. *)
Lemma deleteBatches_spec (p : params) :
  List.concat (deleteBatches p) = allDocRefsToDelete p
  /\ map JS.len (deleteBatches p)
     = chunkSizes (JS.len (materialIdsToDelete p) + JS.len (inventoryToDelete p))
  /\ Forall (fun c => 0 < JS.len c <= MAX_BATCH_SIZE) (deleteBatches p).
Proof.
  unfold deleteBatches.
  destruct (chunkLoop_spec (allDocRefsToDelete p)
              (S (List.length (allDocRefsToDelete p))) 0) as (H1 & H2 & H3);
    [lia | unfold JS.len, MAX_BATCH_SIZE; lia |].
  assert (Hlen : JS.len (allDocRefsToDelete p)
                 = JS.len (materialIdsToDelete p) + JS.len (inventoryToDelete p)).
  { unfold allDocRefsToDelete, JS.len. rewrite length_app, !length_map. lia. }
  rewrite Z.sub_0_r, Z.max_r, Hlen in H2 by (unfold JS.len; lia).
  auto.
Qed.

(** C8 (as amended): the references to delete are those of the materials
    of the categories followed by those of their units; the batches
    committed one after the other are these references cut, in order, into
    chunks of at most 500, all full but possibly the last.  With one
    material and 1200 units there are 1201 references, hence three commits
    of 500, 500 and 201 operations. *)
Theorem delete_batches_chunks (p : params) :
  List.concat (deleteBatches p) = allDocRefsToDelete p
  /\ allDocRefsToDelete p
     = (map (fun id => DeleteMaterial (replaceSlash id)) (materialIdsToDelete p)
        ++ map (fun item => DeleteSheet (Sheet.id item)) (inventoryToDelete p))%list
  /\ map JS.len (deleteBatches p)
     = chunkSizes (JS.len (materialIdsToDelete p) + JS.len (inventoryToDelete p))
  /\ Forall (fun c => 0 < JS.len c <= MAX_BATCH_SIZE) (deleteBatches p)
  /\ (forall w, handleConfirmDeleteCategories p w = commitChunks (deleteBatches p) w)
  /\ (JS.len (materialIdsToDelete p) = 1 ->
      JS.len (inventoryToDelete p) = 1200 ->
      map JS.len (deleteBatches p) = [500; 500; 201]).
Proof.
  destruct (deleteBatches_spec p) as (H1 & H2 & H3).
  repeat split; auto.
  intros Em Eu. rewrite H2, Em, Eu. reflexivity.
Qed.

(** ** Manual stock adjustment *)

Section ManualAdjust.
Variable getGaugeFromMaterial : string -> string.
Variable autoId : nat -> string.

Lemma onHandCount_app (m : string) (len : Z) (l1 l2 : list Sheet.t) :
  onHandCount m len (l1 ++ l2) = onHandCount m len l1 + onHandCount m len l2.
Proof. unfold onHandCount, JS.len. rewrite filter_app, length_app. lia. Qed.

Lemma onHandCount_manual (m : string) (len : Z) (l : list Sheet.t) :
  Forall (isManualAdd m len) l -> onHandCount m len l = JS.len l.
Proof.
  intros H. unfold onHandCount. f_equal. apply forallb_filter_id.
  apply forallb_forall. intros s Hs. rewrite Forall_forall in H.
  destruct (H s Hs) as (E1 & _ & _ & _ & E2 & E3 & _).
  unfold onHandAt. rewrite E1, E2, E3, String.eqb_refl, Z.eqb_refl. reflexivity.
Qed.

(** X28: with the summary and the client's inventory in step with the
    store, unit ids unique and generated ids distinct and not in use, a
    manual adjustment to [newQuantity] computes the difference to the On
    Hand count of the key; it writes nothing when the difference is zero;
    it appends that many new On Hand units of manual origin and zero cost
    when it is positive; when it is negative it fails if fewer units are On
    Hand than must go, and otherwise deletes the first of them in
    first-in-first-out order, leaving every other unit as it was.  After
    a successful call the On Hand count of the key is [newQuantity]. *)
Theorem stock_edit_sets_quantity (p : params) (now : timestamp) (m : string)
    (len newQuantity : Z) (w : world) :
  inventory p = inventoryCol (store w) ->
  currentQuantity p m len = onHandCount m len (inventory p) ->
  NoDup (map Sheet.id (inventoryCol (store w))) ->
  (forall i j, autoId i = autoId j -> i = j) ->
  (forall j, (idsDrawn w <= j)%nat ->
             hasSheet (autoId j) (inventoryCol (store w)) = false) ->
  let inv := inventoryCol (store w) in
  let diff := newQuantity - onHandCount m len inv in
  let r := handleStockEdit getGaugeFromMaterial autoId p now m len newQuantity w in
  (diff = 0 -> r = (None, w))
  /\ (0 < diff ->
      exists added,
        r = (None, mkWorld (mkDb (inv ++ added)%list (usageLogsCol (store w))
                                 (materialsCol (store w)))
                           (idsDrawn w + Z.to_nat diff))
        /\ JS.len added = diff /\ Forall (isManualAdd m len) added)
  /\ (diff < 0 ->
      if onHandCount m len inv <? - diff
      then r = (Some (CannotRemove (- diff) (onHandCount m len inv)), w)
      else r = (None,
                mkWorld (mkDb (filter (fun s =>
                                 negb (hasSheet (Sheet.id s)
                                         (selectSheets (onHandAt m len) inv (- diff))))
                                 inv)
                              (usageLogsCol (store w)) (materialsCol (store w)))
                        (idsDrawn w)))
  /\ (fst r = None -> onHandCount m len (inventoryCol (store (snd r))) = newQuantity).
Proof.
  intros Hsync Hcur Hnd Hinj Hfresh inv diff r.
  assert (Hr : r = if diff =? 0 then (None, w)
                   else runTransaction
                          (stockEditBody getGaugeFromMaterial autoId p now m len diff) w).
  { subst r diff inv. unfold handleStockEdit. now rewrite Hcur, Hsync. }
  assert (Hpos : 0 < diff ->
      exists added,
        r = (None, mkWorld (mkDb (inv ++ added)%list (usageLogsCol (store w))
                                 (materialsCol (store w)))
                           (idsDrawn w + Z.to_nat diff))
        /\ JS.len added = diff /\ Forall (isManualAdd m len) added).
  { intros Hd. rewrite Hr.
    replace (diff =? 0) with false by (symmetry; apply Z.eqb_neq; lia).
    unfold runTransaction, stockEditBody.
    replace (diff >? 0) with true by (symmetry; apply Z.gtb_lt; lia).
    rewrite repeatM_new_run. simpl.
    rewrite (commit_new_sheets autoId _ Hinj _ _ (store w) Hfresh).
    eexists. split; [reflexivity|]. split.
    - unfold JS.len. rewrite length_map, length_seq. lia.
    - apply Forall_forall. intros s Hs. apply in_map_iff in Hs.
      destruct Hs as (j & <- & _). repeat split. }
  assert (Hneg : diff < 0 ->
      if onHandCount m len inv <? - diff
      then r = (Some (CannotRemove (- diff) (onHandCount m len inv)), w)
      else r = (None,
                mkWorld (mkDb (filter (fun s =>
                                 negb (hasSheet (Sheet.id s)
                                         (selectSheets (onHandAt m len) inv (- diff))))
                                 inv)
                              (usageLogsCol (store w)) (materialsCol (store w)))
                        (idsDrawn w))).
  { intros Hd. rewrite Hr.
    replace (diff =? 0) with false by (symmetry; apply Z.eqb_neq; lia).
    unfold runTransaction, stockEditBody.
    replace (diff >? 0) with false by (symmetry; rewrite Z.gtb_ltb; apply Z.ltb_ge; lia).
    rewrite matching_len, Hsync. fold inv. fold (onHandCount m len inv).
    replace (Z.abs diff) with (- diff) by lia.
    destruct (onHandCount m len inv <? - diff); [reflexivity|].
    rewrite forM_stage_run. simpl. rewrite commit_deletes. reflexivity. }
  repeat split; auto.
  - intros Hd. rewrite Hr. now replace (diff =? 0) with true
      by (symmetry; apply Z.eqb_eq; lia).
  - intros Hok.
    destruct (Z.lt_trichotomy diff 0) as [Hd|[Hd|Hd]].
    + specialize (Hneg Hd).
      destruct (Z.ltb_spec (onHandCount m len inv) (- diff)) as [Hlt|Hge].
      * rewrite Hneg in Hok. discriminate.
      * rewrite Hneg. simpl. unfold onHandCount, selectSheets, JS.slice0.
        unfold JS.len. rewrite count_after_removal; auto.
        -- unfold onHandCount, JS.len in *. subst diff. fold inv. lia.
        -- unfold onHandCount, JS.len in Hge. fold inv. lia.
    + rewrite Hr. replace (diff =? 0) with true by (symmetry; apply Z.eqb_eq; lia).
      simpl. subst diff inv. lia.
    + destruct (Hpos Hd) as (added & -> & Hlen & Hall). simpl.
      rewrite onHandCount_app, (onHandCount_manual _ _ _ Hall), Hlen.
      subst diff. fold inv. lia.
Qed.

End ManualAdjust.

(** ** Hoare rules for transaction bodies *)




Lemma hoare_conseq {A : Type} (m : Tx A) (P P' : txState -> Prop)
    (Q Q' : A -> txState -> Prop) :
  (forall st, P' st -> P st) -> (forall a st, Q a st -> Q' a st) ->
  hoare P m Q -> hoare P' m Q'.
Proof.
  intros HP HQ Hm st H. specialize (Hm st (HP st H)).
  destruct (m st) as [e|[a st']]; auto.
Qed.




Lemma hoare_stage (w : write) (Q : unit -> txState -> Prop) :
  hoare (fun st => Q tt (mkTx (nextAuto st) (staged st ++ [w])%list)) (stage w) Q.
Proof. intros st H. exact H. Qed.

Lemma hoare_newDoc (autoId : nat -> string) (Q : string -> txState -> Prop) :
  hoare (fun st => Q (autoId (nextAuto st)) (mkTx (S (nextAuto st)) (staged st)))
        (newDoc autoId) Q.
Proof. intros st H. exact H. Qed.

Lemma commit_app (ws1 ws2 : list write) (d : db) :
  commit d (ws1 ++ ws2)
  = match commit d ws1 with
    | Some d1 => commit d1 ws2
    | None => None
    end.
Proof.
  revert d. induction ws1 as [|w ws1 IH]; intros d; simpl; [reflexivity|].
  destruct (applyWrite d w); [apply IH | reflexivity].
Qed.

(** Staging one write moves a store property along that write. *)
Lemma after_stage (d0 : db) (K K' : db -> Prop) (w : write) (st : txState) :
  (forall d d', K d -> applyWrite d w = Some d' -> K' d') ->
  after d0 K st ->
  after d0 K' (mkTx (nextAuto st) (staged st ++ [w])%list).
Proof.
  intros Hw HK d'. simpl. rewrite commit_app.
  destruct (commit d0 (staged st)) as [d|] eqn:Ec; [|discriminate].
  simpl. destruct (applyWrite d w) as [d1|] eqn:Ew; [|discriminate].
  intros [= <-]. eapply Hw; eauto.
Qed.

(** A property kept by every staged write is kept by a loop that only
    stages such writes. *)
Lemma hoare_stage_keeps (d0 : db) (K : db -> Prop) (w : write)
    (N : nat -> Prop) :
  (forall d d', K d -> applyWrite d w = Some d' -> K d') ->
  hoare (fun st => N (nextAuto st) /\ after d0 K st) (stage w)
        (fun _ st => N (nextAuto st) /\ after d0 K st).
Proof.
  intros Hw st [HN HK]. simpl. split; [exact HN|].
  now apply (after_stage d0 K K w st).
Qed.


(** ** Writes and well-formed stores *)


Lemma hasLog_true (i : string) (l : list Log.t) :
  hasLog i l = true <-> In i (map Log.id l).
Proof.
  unfold hasLog. rewrite existsb_exists, in_map_iff.
  split; intros (r & H1 & H2); exists r.
  - apply String.eqb_eq in H2. auto.
  - split; [tauto|]. apply String.eqb_eq. tauto.
Qed.

Lemma patchSheet_ids (i : string) (f : Sheet.t -> Sheet.t) (l : list Sheet.t) :
  (forall s, Sheet.id (f s) = Sheet.id s) ->
  map Sheet.id (patchSheet i f l) = map Sheet.id l.
Proof.
  intros Hf. unfold patchSheet. rewrite map_map. apply map_ext.
  intros s. destruct (String.eqb _ _); auto.
Qed.

Lemma patchLog_ids (i : string) (f : Log.t -> Log.t) (l : list Log.t) :
  (forall r, Log.id (f r) = Log.id r) ->
  map Log.id (patchLog i f l) = map Log.id l.
Proof.
  intros Hf. unfold patchLog. rewrite map_map. apply map_ext.
  intros r. destruct (String.eqb _ _); auto.
Qed.






(** *** Pending references *)








(** *** Deletions *)




(** *** New units *)


(** *** New records *)




(** *** Rewriting a record *)

Lemma log_by_id (logs : list Log.t) (r r' : Log.t) :
  NoDup (map Log.id logs) -> In r logs -> In r' logs -> Log.id r = Log.id r' -> r = r'.
Proof.
  induction logs as [|x logs IH]; simpl; [tauto|].
  intros Hnd. inversion Hnd as [|? ? Hx Hl]; subst.
  intros [->|Hr] [->|Hr'] E; auto.
  - exfalso. apply Hx. rewrite E. now apply in_map.
  - exfalso. apply Hx. rewrite <- E. now apply in_map.
Qed.





(** *** Returning units *)


(** *** Receiving units *)


(** A property kept by each write of a list is kept by its commit. *)
Lemma commit_keeps (K : db -> Prop) (ws : list write) :
  (forall w, In w ws -> forall d d', K d -> applyWrite d w = Some d' -> K d') ->
  forall d d', K d -> commit d ws = Some d' -> K d'.
Proof.
  induction ws as [|w ws IH]; intros Hw d d' HK; simpl.
  - now intros [= <-].
  - destruct (applyWrite d w) as [d1|] eqn:E; [|discriminate].
    apply IH; [intros; eapply Hw; eauto; now right|].
    eapply Hw; eauto. now left.
Qed.



(** ** The handlers keep the store well-formed *)

Section Preservation.
Variable STANDARD_LENGTHS : list Z.
Variable getGaugeFromMaterial : string -> string.
Variable autoId : nat -> string.
Hypothesis autoId_inj : forall i j, autoId i = autoId j -> i = j.











(** *** The modal *)




(** *** Fulfilment *)



(** *** Edits *)





(** *** Orders, adjustments, deletions *)











End Preservation.

(** ** Every Used unit has a reference *)







Section UsedRefs.
Variable STANDARD_LENGTHS : list Z.
Variable getGaugeFromMaterial : string -> string.
Variable autoId : nat -> string.








Hypothesis autoId_inj : forall i j, autoId i = autoId j -> i = j.


End UsedRefs.

(** ** The concrete inventories *)

Lemma scenario_autoId_inj (i j : nat) :
  Scenario.autoId i = Scenario.autoId j -> i = j.
Proof.
  unfold Scenario.autoId. simpl. intros [= H].
  apply DecimalNat.Unsigned.to_uint_inj.
  apply (f_equal NilEmpty.uint_of_string) in H.
  rewrite !NilEmpty.usu in H. congruence.
Qed.

(** The empty store is well-formed, whatever the ids to come. *)
Lemma empty_wf (autoId : nat -> string) :
  wfWorld autoId (mkWorld (mkDb [] [] []) 0).
Proof.
  constructor; simpl; try tauto. constructor.
Qed.




(** C1: on a completed record of two units of A16GA at 96, with no other
    unit of the key On Hand, the edit that lowers the request to one unit
    does not succeed: it throws the "Concurrency Error" of the
    re-allocation and the store keeps both units Used, none On Hand. *)
Theorem edit_lowering_fails :
  Log.status Scenario.recordOfUse = Some "Completed"
  /\ map detail_id (Log.details Scenario.recordOfUse) = [Some "s1"; Some "s2"]
  /\ netChangeOf Scenario.STANDARD_LENGTHS Scenario.recordOfUse Scenario.lowerToOne
     = [("A16GA|96", 1)]
  /\ handleEditOutgoingLog Scenario.STANDARD_LENGTHS Scenario.getGaugeFromMaterial
       (Scenario.clientOf Scenario.bothUsed) Scenario.now Scenario.recordOfUse
       Scenario.lowerToOne Scenario.bothUsed
     = (Some (ConcurrencyError "A16GA" 96), Scenario.bothUsed)
  /\ onHandCount "A16GA" 96 (inventoryCol (store Scenario.bothUsed)) = 0
  /\ JS.len (filter (usedFor (Log.id Scenario.recordOfUse) "A16GA" 96)
                    (inventoryCol (store Scenario.bothUsed))) = 2.
Proof. repeat split; vm_compute; reflexivity. Qed.

(** C2: the submit handler of the Use Stock modal deletes the unit it
    consumes, and writes a record without status whose details carry no
    unit id.  Through [handleUseStock], two jobs of one call that ask for
    the same key are both given [s1]: it ends up pointing to the second
    record while the first record lists it too, and [s2] stays On Hand. *)
Theorem immediate_use_diverges :
  let modal := modalHandleSubmit Scenario.STANDARD_LENGTHS Scenario.autoId
                 (inventoryCol (store Scenario.twoOnHand)) Scenario.now
                 [Scenario.useOne] Scenario.twoOnHand in
  let hook := handleUseStock Scenario.STANDARD_LENGTHS Scenario.getGaugeFromMaterial
                Scenario.autoId (Scenario.clientOf Scenario.twoOnHand) Scenario.now
                [Scenario.useOne; Scenario.useOne] false 0 Scenario.twoOnHand in
  (fst modal = None
   /\ map Sheet.id (inventoryCol (store (snd modal))) = ["s2"]
   /\ map Log.status (usageLogsCol (store (snd modal))) = [None]
   /\ map (fun l => map detail_id (Log.details l)) (usageLogsCol (store (snd modal)))
      = [[None]])
  /\ (fst hook = None
      /\ map (fun s => (Sheet.id s, Sheet.status s, Sheet.usageLogId s))
             (inventoryCol (store (snd hook)))
         = [("s1", "Used", Some "auto-1"); ("s2", "On Hand", None)]
      /\ map (fun l => (Log.id l, Log.status l, map detail_id (Log.details l), Log.qty l))
             (usageLogsCol (store (snd hook)))
         = [("auto-0", Some "Completed", [Some "s1"], -1);
            ("auto-1", Some "Completed", [Some "s1"], -1)]).
Proof. repeat split; vm_compute; reflexivity. Qed.

(** The same request through [handleUseStock] keeps the unit, marks it
    Used and points it to the new Completed record. *)
Lemma hook_use_marks_used :
  let r := handleUseStock Scenario.STANDARD_LENGTHS Scenario.getGaugeFromMaterial
             Scenario.autoId (Scenario.clientOf Scenario.twoOnHand) Scenario.now
             [Scenario.useOne] false 0 Scenario.twoOnHand in
  fst r = None
  /\ map (fun s => (Sheet.id s, Sheet.status s, Sheet.usageLogId s))
         (inventoryCol (store (snd r)))
     = [("s1", "Used", Some "auto-0"); ("s2", "On Hand", None)]
  /\ map (fun l => (Log.id l, Log.status l, map detail_id (Log.details l)))
         (usageLogsCol (store (snd r)))
     = [("auto-0", Some "Completed", [Some "s1"])].
Proof. repeat split; vm_compute; reflexivity. Qed.

(** C6: the selection reads the client's [inventory] array, not the store.
    A client that still holds the array from before [s1] was used selects
    [s1] again: the call succeeds, [s1] now points to the second record,
    and both records list it, while [s2] stays On Hand.  The same happens
    inside one batch whose two jobs ask for the same key. *)
Theorem use_reads_stale_inventory :
  let seen (w : world) :=
    (map (fun s => (Sheet.id s, Sheet.status s, Sheet.usageLogId s))
         (inventoryCol (store w)),
     map (fun l => (Log.id l, map detail_id (Log.details l), Log.qty l))
         (usageLogsCol (store w))) in
  seen Scenario.oneUsed
  = ([("s1", "Used", Some "auto-0"); ("s2", "On Hand", None)],
     [("auto-0", [Some "s1"], -1)])
  /\ handleUseStock Scenario.STANDARD_LENGTHS Scenario.getGaugeFromMaterial
       Scenario.autoId (Scenario.clientOf Scenario.twoOnHand) Scenario.now
       [Scenario.useOne] false 0 Scenario.oneUsed
     = (None,
        snd (handleUseStock Scenario.STANDARD_LENGTHS Scenario.getGaugeFromMaterial
               Scenario.autoId (Scenario.clientOf Scenario.twoOnHand) Scenario.now
               [Scenario.useOne] false 0 Scenario.oneUsed))
  /\ seen (snd (handleUseStock Scenario.STANDARD_LENGTHS Scenario.getGaugeFromMaterial
               Scenario.autoId (Scenario.clientOf Scenario.twoOnHand) Scenario.now
               [Scenario.useOne] false 0 Scenario.oneUsed))
     = ([("s1", "Used", Some "auto-1"); ("s2", "On Hand", None)],
        [("auto-0", [Some "s1"], -1); ("auto-1", [Some "s1"], -1)])
  /\ seen (snd (handleUseStock Scenario.STANDARD_LENGTHS Scenario.getGaugeFromMaterial
               Scenario.autoId (Scenario.clientOf Scenario.twoOnHand) Scenario.now
               [Scenario.useOne; Scenario.useOne] false 0 Scenario.twoOnHand))
     = ([("s1", "Used", Some "auto-1"); ("s2", "On Hand", None)],
        [("auto-0", [Some "s1"], -1); ("auto-1", [Some "s1"], -1)]).
Proof. repeat split; vm_compute; reflexivity. Qed.

(** The body of [handleUseStock] is a function of the client's parameters
    alone: whatever the store holds when the transaction runs, it stages
    the same writes. *)
Lemma use_ignores_store (STANDARD_LENGTHS : list Z)
    (getGaugeFromMaterial : string -> string) (autoId : nat -> string)
    (p : params) (now sd : timestamp) (jobs : list Job.t) (isScheduled : bool)
    (w1 w2 : world) :
  idsDrawn w1 = idsDrawn w2 ->
  fst (handleUseStock STANDARD_LENGTHS getGaugeFromMaterial autoId p now jobs
         isScheduled sd w1) = None ->
  exists ws,
    useStockBody STANDARD_LENGTHS getGaugeFromMaterial autoId p now jobs isScheduled sd
                 (mkTx (idsDrawn w2) []) = inr (tt, ws)
    /\ commit (store w1) (staged ws) = Some (store
         (snd (handleUseStock STANDARD_LENGTHS getGaugeFromMaterial autoId p now jobs
                 isScheduled sd w1)))
    /\ handleUseStock STANDARD_LENGTHS getGaugeFromMaterial autoId p now jobs
         isScheduled sd w2
       = match commit (store w2) (staged ws) with
         | Some d => (None, mkWorld d (nextAuto ws))
         | None => (Some CommitFailed, w2)
         end.
Proof.
  intros En. unfold handleUseStock, runTransaction. rewrite En.
  destruct (useStockBody _ _ _ p now jobs isScheduled sd _) as [e|[[] ws]];
    [discriminate|].
  destruct (commit (store w1) (staged ws)) as [d|] eqn:Ec; [|discriminate].
  intros _. exists ws. auto.
Qed.

(** Witness of C4: the oldest unit first, then the two of equal timestamp
    in pool order. *)
Lemma selectSheets_fifo_witness :
  firstn (Z.to_nat 2) [Scenario.older; Scenario.tiedB; Scenario.tiedA]
  = selectSheets (onHandAt "A16GA" 96) Scenario.tied 2.
Proof.
  apply (selectSheets_fifo (onHandAt "A16GA" 96) Scenario.tied 2).
  assert (E : filter (onHandAt "A16GA" 96) Scenario.tied
              = [Scenario.tiedB; Scenario.tiedA; Scenario.older])
    by (vm_compute; reflexivity).
  unfold fifoOf. rewrite E. split; [|split].
  - apply Permutation_sym.
    apply (Permutation_cons_append [Scenario.tiedB; Scenario.tiedA] Scenario.older).
  - repeat constructor; simpl; lia.
  - intros t.
    destruct (Z.eq_dec t 1000) as [->|N1]; [vm_compute; reflexivity|].
    destruct (Z.eq_dec t 5000) as [->|N5]; [vm_compute; reflexivity|].
    cbn -[Z.eqb].
    replace (5000 =? t) with false by (symmetry; apply Z.eqb_neq; lia).
    replace (1000 =? t) with false by (symmetry; apply Z.eqb_neq; lia).
    reflexivity.
Defined.

(** Witness of C3: four units asked of the three On Hand. *)
Lemma use_stock_all_or_nothing_witness :
  exists job' item' len',
    In job' [Scenario.useFour] /\ In item' (Job.items job')
    /\ In len' Scenario.STANDARD_LENGTHS
    /\ onHandCount (Item.materialType item') len'
         (inventory (Scenario.clientOf Scenario.threeOnHand)) < Item.qty item' len'
    /\ handleUseStock Scenario.STANDARD_LENGTHS Scenario.getGaugeFromMaterial
         Scenario.autoId (Scenario.clientOf Scenario.threeOnHand) Scenario.now
         [Scenario.useFour] false 0 Scenario.threeOnHand
       = (Some (NotEnoughStock (Item.qty item' len') (Item.materialType item') len'
                  (onHandCount (Item.materialType item') len'
                     (inventory (Scenario.clientOf Scenario.threeOnHand)))),
          Scenario.threeOnHand).
Proof.
  apply (use_stock_all_or_nothing Scenario.STANDARD_LENGTHS
           Scenario.getGaugeFromMaterial Scenario.autoId
           (Scenario.clientOf Scenario.threeOnHand) Scenario.now 0
           [Scenario.useFour] Scenario.threeOnHand Scenario.useFour
           (Scenario.line "A16GA" 96 4) 96).
  - simpl. auto.
  - simpl. auto.
  - simpl. auto.
  - vm_compute. reflexivity.
Defined.




(** Receiving a group that holds a unit already Used puts the unit On
    Hand and leaves its [usageLogId]: the receipt is of Ordered units. *)
Lemma receive_of_used_unit :
  map (fun s => (Sheet.id s, Sheet.status s, Sheet.usageLogId s))
      (inventoryCol (store (snd (handleReceiveOrder Scenario.now Scenario.groupOfS1
                                   Scenario.bothUsed))))
  = [("s1", "On Hand", Some "auto-0"); ("s2", "Used", Some "auto-0")].
Proof. vm_compute. reflexivity. Qed.

(** C7: the adjustment takes the count from the client's summary and the
    units to delete from the client's inventory array, not from the store.
    For a client that still sees [s1] and [s2] On Hand after [s1] was used
    (one unit On Hand in the store), the adjustment to five succeeds, adds
    three units and leaves four On Hand; the adjustment to one succeeds,
    deletes [s1], a Used unit that the record of its use still lists, and
    leaves the On Hand unit where it was. *)
Theorem stock_edit_stale_summary :
  let p := Scenario.clientOf Scenario.twoOnHand in
  let w := Scenario.oneUsed in
  let adjust q :=
    handleStockEdit Scenario.getGaugeFromMaterial Scenario.autoId p Scenario.now
                    "A16GA" 96 q w in
  currentQuantity p "A16GA" 96 = 2
  /\ onHandCount "A16GA" 96 (inventory p) = 2
  /\ onHandCount "A16GA" 96 (inventoryCol (store w)) = 1
  /\ fst (adjust 5) = None
  /\ onHandCount "A16GA" 96 (inventoryCol (store (snd (adjust 5)))) = 4
  /\ fst (adjust 1) = None
  /\ map (fun s => (Sheet.id s, Sheet.status s)) (inventoryCol (store w))
     = [("s1", "Used"); ("s2", "On Hand")]
  /\ map (fun s => (Sheet.id s, Sheet.status s)) (inventoryCol (store (snd (adjust 1))))
     = [("s2", "On Hand")]
  /\ map (fun r => (Log.id r, map detail_id (Log.details r)))
         (usageLogsCol (store (snd (adjust 1))))
     = [("auto-0", [Some "s1"])].
Proof. repeat split; vm_compute; reflexivity. Qed.

(** Witness of X28: raising the two units On Hand to five. *)
Lemma stock_edit_sets_quantity_witness :
  onHandCount "A16GA" 96
    (inventoryCol
       (store (snd (handleStockEdit Scenario.getGaugeFromMaterial Scenario.autoId
                      (Scenario.clientOf Scenario.twoOnHand) Scenario.now
                      "A16GA" 96 5 Scenario.twoOnHand))))
  = 5.
Proof.
  apply (stock_edit_sets_quantity Scenario.getGaugeFromMaterial Scenario.autoId
           (Scenario.clientOf Scenario.twoOnHand) Scenario.now "A16GA" 96 5
           Scenario.twoOnHand).
  - reflexivity.
  - reflexivity.
  - simpl. repeat constructor; simpl; intuition discriminate.
  - exact scenario_autoId_inj.
  - intros j _. reflexivity.
  - vm_compute. reflexivity.
Defined.

(** Witness of C8: one material and its 1200 units. *)
Lemma delete_batches_chunks_witness :
  map JS.len (deleteBatches Scenario.cascade) = [500; 500; 201].
Proof.
  apply (delete_batches_chunks Scenario.cascade); vm_compute; reflexivity.
Defined.

(** Counterexample to C8 as stated: a category with 1200 units has at
    least one material, whose document is deleted in the same batches. *)
Lemma cascade_1200_units_is_not_500_500_200 :
  JS.len (inventoryToDelete Scenario.cascade) = 1200
  /\ map JS.len (deleteBatches Scenario.cascade) <> [500; 500; 200].
Proof. split; [vm_compute; reflexivity | vm_compute; discriminate]. Qed.

(** Counterexample to C9 as stated: a job that asks for nothing gets no
    record. *)
Lemma scheduled_idle_job_writes_nothing :
  useStockBody Scenario.STANDARD_LENGTHS Scenario.getGaugeFromMaterial Scenario.autoId
    (Scenario.clientOf Scenario.twoOnHand) Scenario.now [Scenario.idle] true 0
    (mkTx 0 [])
  = inr (tt, mkTx 0 [])
  /\ List.length
       (filter isSetLog
          (stagedOf (useStockBody Scenario.STANDARD_LENGTHS
                       Scenario.getGaugeFromMaterial Scenario.autoId
                       (Scenario.clientOf Scenario.twoOnHand) Scenario.now
                       [Scenario.idle] true 0 (mkTx 0 []))))
     <> List.length [Scenario.idle].
Proof. split; [vm_compute; reflexivity | vm_compute; discriminate]. Qed.

(** ** Tallies and their keys *)

Lemma Obj_get_set_same (o : Obj.t) (k : string) (v : Z) :
  Obj.get (Obj.set o k v) k = Some v.
Proof.
  induction o as [|[k' v'] o IH]; simpl.
  - now rewrite String.eqb_refl.
  - destruct (String.eqb k' k) eqn:E; simpl; rewrite E; auto.
Qed.

Lemma Obj_get_set_other (o : Obj.t) (k k' : string) (v : Z) :
  k <> k' -> Obj.get (Obj.set o k v) k' = Obj.get o k'.
Proof.
  intros Hne. induction o as [|[k0 v0] o IH]; simpl.
  - destruct (String.eqb k k') eqn:E; auto.
    apply String.eqb_eq in E. contradiction.
  - destruct (String.eqb k0 k) eqn:E; simpl.
    + apply String.eqb_eq in E. subst k0.
      destruct (String.eqb k k') eqn:E'; auto.
      apply String.eqb_eq in E'. contradiction.
    + destruct (String.eqb k0 k'); auto.
Qed.

Lemma Obj_getOr0_set (o : Obj.t) (k k' : string) (v : Z) :
  Obj.getOr0 (Obj.set o k v) k' = if String.eqb k k' then v else Obj.getOr0 o k'.
Proof.
  unfold Obj.getOr0. destruct (String.eqb k k') eqn:E.
  - apply String.eqb_eq in E. subst. now rewrite Obj_get_set_same.
  - apply String.eqb_neq in E. now rewrite Obj_get_set_other.
Qed.

Lemma Obj_get_In (o : Obj.t) (k : string) (v : Z) :
  Obj.get o k = Some v -> In (k, v) o.
Proof.
  induction o as [|[k' v'] o IH]; simpl; [discriminate|].
  destruct (String.eqb k' k) eqn:E.
  - apply String.eqb_eq in E. intros [= ->]. subst. now left.
  - intros H. right. auto.
Qed.

Lemma Obj_In_get (o : Obj.t) (k : string) (v : Z) :
  NoDup (map fst o) -> In (k, v) o -> Obj.get o k = Some v.
Proof.
  induction o as [|[k' v'] o IH]; simpl; [contradiction|].
  intros Hnd [H|H].
  - injection H as -> ->. now rewrite String.eqb_refl.
  - inversion Hnd as [|? ? Hnotin Hnd']; subst.
    destruct (String.eqb k' k) eqn:E.
    + apply String.eqb_eq in E. subst k'.
      exfalso. apply Hnotin. change k with (fst (k, v)). now apply in_map.
    + auto.
Qed.

Lemma Obj_keys_set (o : Obj.t) (k : string) (v : Z) :
  map fst (Obj.set o k v)
  = if existsb (String.eqb k) (map fst o) then map fst o else (map fst o ++ [k])%list.
Proof.
  induction o as [|[k' v'] o IH]; simpl; auto.
  rewrite (String.eqb_sym k k').
  destruct (String.eqb k' k) eqn:E; simpl; auto.
  rewrite IH. destruct (existsb (String.eqb k) (map fst o)); auto.
Qed.

Lemma Obj_set_NoDup (o : Obj.t) (k : string) (v : Z) :
  NoDup (map fst o) -> NoDup (map fst (Obj.set o k v)).
Proof.
  intros Hnd. rewrite Obj_keys_set.
  destruct (existsb (String.eqb k) (map fst o)) eqn:E; auto.
  apply NoDup_app_remove_l with (l := []). simpl.
  apply Permutation_NoDup with (l := k :: map fst o).
  - apply Permutation_cons_append.
  - constructor; auto. intros Hin.
    assert (existsb (String.eqb k) (map fst o) = true).
    { apply existsb_exists. exists k. split; auto. apply String.eqb_refl. }
    congruence.
Qed.

Lemma Obj_sum_set (o : Obj.t) (k : string) (v : Z) :
  fold_right Z.add 0 (map snd (Obj.set o k v))
  = fold_right Z.add 0 (map snd o) - Obj.getOr0 o k + v.
Proof.
  unfold Obj.getOr0.
  induction o as [|[k' v'] o IH]; simpl; [lia|].
  destruct (String.eqb k' k) eqn:E; simpl; [lia|].
  rewrite IH. lia.
Qed.

Lemma countKey_cons (k : string) (d : detail) (ds : list detail) :
  countKey k (d :: ds) = (if String.eqb (detailKey d) k then 1 else 0) + countKey k ds.
Proof.
  unfold countKey, JS.len. simpl.
  destruct (String.eqb (detailKey d) k); cbn [List.length]; lia.
Qed.

Lemma countKey_nonneg (k : string) (ds : list detail) : 0 <= countKey k ds.
Proof. unfold countKey, JS.len. lia. Qed.

Lemma tally_eq (acc : Obj.t) (d : detail) :
  tally acc d = Obj.set acc (detailKey d) (Obj.getOr0 acc (detailKey d) + 1).
Proof. reflexivity. Qed.

(** The reducer of the tally, from any accumulator. *)
Lemma tally_fold (ds : list detail) :
  forall acc,
    NoDup (map fst acc) ->
    (forall k q, In (k, q) acc -> 0 < q) ->
    let r := fold_left tally ds acc in
    NoDup (map fst r)
    /\ (forall k, Obj.getOr0 r k = Obj.getOr0 acc k + countKey k ds)
    /\ (forall k q, In (k, q) r -> 0 < q)
    /\ fold_right Z.add 0 (map snd r) = fold_right Z.add 0 (map snd acc) + JS.len ds.
Proof.
  induction ds as [|d ds IH]; intros acc Hnd Hpos; simpl.
  - repeat split; auto.
    + intros k. unfold countKey. simpl. unfold JS.len. simpl. lia.
    + unfold JS.len. simpl. lia.
  - assert (Hnd' : NoDup (map fst (tally acc d))) by (now apply Obj_set_NoDup).
    assert (Hget0 : forall k, 0 <= Obj.getOr0 acc k).
    { intros k. unfold Obj.getOr0. destruct (Obj.get acc k) eqn:E; [|lia].
      apply Obj_get_In in E. apply Hpos in E. lia. }
    assert (Hpos' : forall k q, In (k, q) (tally acc d) -> 0 < q).
    { intros k q Hin. apply Obj_In_get in Hin; auto.
      rewrite tally_eq in Hin.
      destruct (String.eqb_spec (detailKey d) k) as [Heq|Hne].
      - rewrite Heq in Hin.
        rewrite Obj_get_set_same in Hin. injection Hin as <-.
        specialize (Hget0 k). lia.
      - rewrite Obj_get_set_other in Hin by auto.
        apply Obj_get_In in Hin. eauto. }
    destruct (IH (tally acc d) Hnd' Hpos') as (H1 & H2 & H3 & H4).
    split; [exact H1|]. split; [|split; [exact H3|]].
    + intros k. rewrite H2, countKey_cons, tally_eq.
      rewrite Obj_getOr0_set.
      destruct (String.eqb (detailKey d) k) eqn:E.
      * apply String.eqb_eq in E. rewrite E. lia.
      * lia.
    + rewrite H4, tally_eq, Obj_sum_set.
      unfold JS.len. cbn [List.length]. lia.
Qed.

Lemma tally_spec (ds : list detail) :
  let itemsNeeded := fold_left tally ds [] in
  NoDup (map fst itemsNeeded)
  /\ (forall k, Obj.getOr0 itemsNeeded k = countKey k ds)
  /\ (forall k q, In (k, q) itemsNeeded <-> q = countKey k ds /\ 0 < q)
  /\ fold_right Z.add 0 (map snd itemsNeeded) = JS.len ds.
Proof.
  destruct (tally_fold ds [] (NoDup_nil _)) as (H1 & H2 & H3 & H4).
  { intros k q []. }
  cbv zeta in *. split; [exact H1|]. split; [exact H2|]. split; [|exact H4].
  intros k q. split.
  - intros Hin. split; [|eauto].
    pose proof (Obj_In_get _ _ _ H1 Hin) as Hg.
    specialize (H2 k). unfold Obj.getOr0 in H2. rewrite Hg in H2. exact H2.
  - intros [-> Hpos]. apply Obj_get_In.
    specialize (H2 k). unfold Obj.getOr0 in H2. simpl in H2.
    destruct (Obj.get (fold_left tally ds []) k) eqn:E; [congruence|lia].
Qed.

(** X1: the tally of a record's details holds every key once, with the
    number of details of that key, a positive number; the numbers add up to
    the number of details. *)
Theorem tally_counts (ds : list detail) :
  let itemsNeeded := fold_left tally ds [] in
  NoDup (map fst itemsNeeded)
  /\ (forall k, Obj.getOr0 itemsNeeded k = countKey k ds)
  /\ (forall k q, In (k, q) itemsNeeded <-> q = countKey k ds /\ 0 < q)
  /\ fold_right Z.add 0 (map snd itemsNeeded) = JS.len ds.
Proof.
  destruct (tally_fold ds [] (NoDup_nil _)) as (Hnd & Hget & Hpos & Hsum).
  { intros k q []. }
  cbv zeta in *. split; [exact Hnd|]. split; [exact Hget|]. split; [|exact Hsum].
  intros k q. pose proof (Hget k) as Hk. unfold Obj.getOr0 in Hk. simpl in Hk.
  split.
  - intros Hin. split; [|exact (Hpos k q Hin)].
    now rewrite (Obj_In_get _ _ _ Hnd Hin) in Hk.
  - intros [-> Hq]. apply Obj_get_In.
    destruct (Obj.get (fold_left tally ds []) k); [congruence|lia].
Qed.

(** *** Reading a key back *)

Lemma splitBar_noBar (s : string) : noBar s = true -> JS.splitBar s = [s].
Proof.
  induction s as [|c s IH]; simpl; auto.
  intros H. apply andb_prop in H. destruct H as [Hc Hs].
  apply negb_true_iff in Hc. rewrite Hc, (IH Hs). reflexivity.
Qed.

Lemma splitBar_bar (m s : string) :
  noBar m = true -> JS.splitBar (m ++ String "|" s) = m :: JS.splitBar s.
Proof.
  induction m as [|c m IH]; simpl; auto.
  intros H. apply andb_prop in H. destruct H as [Hc Hs].
  apply negb_true_iff in Hc. rewrite Hc, (IH Hs). reflexivity.
Qed.

Lemma splitBar_hd_prefix (m s : string) :
  noBar m = false -> hd EmptyString (JS.splitBar (m ++ s)) <> m.
Proof.
  revert s. induction m as [|c m IH]; simpl; intros s H; [discriminate|].
  destruct (Ascii.eqb c "|") eqn:Ec; simpl in *.
  - discriminate.
  - specialize (IH s H).
    destruct (JS.splitBar (m ++ s)) as [|p ps] eqn:E; simpl in *.
    + intros [= Hm]. subst m. simpl in H. discriminate.
    + intros [= Hm]. contradiction.
Qed.

Lemma noBar_uint (d : Decimal.uint) : noBar (NilEmpty.string_of_uint d) = true.
Proof. induction d; simpl; auto. Qed.

Lemma showZ_safe (n : Z) :
  JS.isSafeInteger n = true -> JS.showZ n = NilZero.string_of_int (Z.to_int n).
Proof. intros H. unfold JS.showZ. now rewrite H. Qed.

Lemma toNumber_safe (n : Z) : JS.isSafeInteger n = true -> JS.toNumber n = n.
Proof. intros H. unfold JS.toNumber. unfold JS.isSafeInteger in H. now rewrite H. Qed.

Lemma noBar_showZ (n : Z) : JS.isSafeInteger n = true -> noBar (JS.showZ n) = true.
Proof.
  intros Hs. rewrite showZ_safe by exact Hs. destruct n as [|p|p]; simpl; auto.
  - unfold NilZero.string_of_uint.
    destruct (Pos.to_uint p) eqn:E; try (rewrite <- E; apply noBar_uint).
    reflexivity.
  - unfold NilZero.string_of_uint.
    destruct (Pos.to_uint p) eqn:E; try (rewrite <- E; apply noBar_uint).
    reflexivity.
Qed.

(** A string that begins with a byte of ASCII that is no white space has
    no white space to skip. *)
Lemma trimStart_keep (a : ascii) (s : string) :
  (N_of_ascii a < 128)%N -> JS.isSpace a = false ->
  JS.trimStart (String a s) = String a s.
Proof.
  intros Ha Hsp. cbn [JS.trimStart]. rewrite Hsp.
  assert (H2 : forall b, JS.isSpace2 a b = false).
  { intros b. unfold JS.isSpace2.
    destruct (N.eqb_spec (N_of_ascii a) 194); [lia|reflexivity]. }
  assert (H3 : forall b c, JS.isSpace3 a b c = false).
  { intros b c. unfold JS.isSpace3. cbv zeta.
    destruct (N.eqb_spec (N_of_ascii a) 225); [lia|].
    destruct (N.eqb_spec (N_of_ascii a) 226); [lia|].
    destruct (N.eqb_spec (N_of_ascii a) 227); [lia|].
    destruct (N.eqb_spec (N_of_ascii a) 239); [lia|].
    reflexivity. }
  destruct s as [|b [|c s3]]; auto.
  - now rewrite H2.
  - now rewrite H2, H3.
Qed.

Ltac eval_digit :=
  match goal with
  | |- context [JS.digit ?c] =>
      let v := eval vm_compute in (JS.digit c) in
      change (JS.digit c) with v; cbv iota beta
  end.

Lemma digits_acc (d : Decimal.uint) :
  forall a : positive,
    JS.digits (Some (Z.pos a)) (NilEmpty.string_of_uint d)
    = Some (Z.pos (Pos.of_uint_acc d a)).
Proof.
  induction d; intros a;
    cbn [NilEmpty.string_of_uint JS.digits Pos.of_uint_acc]; auto;
    eval_digit; rewrite <- IHd; do 2 f_equal; lia.
Qed.

Lemma digits_zero (d : Decimal.uint) :
  JS.digits (Some 0) (NilEmpty.string_of_uint d) = Some (Z.of_N (Pos.of_uint d)).
Proof.
  induction d; cbn [NilEmpty.string_of_uint JS.digits Pos.of_uint Z.of_N]; auto;
    eval_digit; first [ exact IHd | rewrite <- digits_acc; do 2 f_equal ].
Qed.

Lemma digits_none (d : Decimal.uint) :
  d <> Decimal.Nil ->
  JS.digits None (NilEmpty.string_of_uint d) = Some (Z.of_N (Pos.of_uint d)).
Proof.
  intros Hd. destruct d; [contradiction| ..];
    cbn [NilEmpty.string_of_uint JS.digits Pos.of_uint Z.of_N];
    eval_digit; first [ apply digits_zero | rewrite <- digits_acc; do 2 f_equal ].
Qed.

Lemma parseInt_uint (d : Decimal.uint) :
  d <> Decimal.Nil ->
  JS.parseInt (Some (NilEmpty.string_of_uint d))
  = Some (JS.toNumber (Z.of_N (Pos.of_uint d))).
Proof.
  intros Hd. unfold JS.parseInt.
  assert (E : match JS.trimStart (NilEmpty.string_of_uint d) with
              | String "-" r => option_map Z.opp (JS.digits None r)
              | String "+" r => JS.digits None r
              | r => JS.digits None r
              end = JS.digits None (NilEmpty.string_of_uint d)).
  { destruct d; [contradiction| ..]; cbn [NilEmpty.string_of_uint];
      (rewrite trimStart_keep; [reflexivity | vm_compute; reflexivity | reflexivity]). }
  rewrite E, (digits_none d Hd). reflexivity.
Qed.

Lemma parseInt_neg_uint (d : Decimal.uint) :
  d <> Decimal.Nil ->
  JS.parseInt (Some (String "-" (NilEmpty.string_of_uint d)))
  = Some (JS.toNumber (- Z.of_N (Pos.of_uint d))).
Proof.
  intros Hd. unfold JS.parseInt.
  rewrite trimStart_keep; [|vm_compute; reflexivity|reflexivity].
  cbv iota beta. rewrite (digits_none d Hd). reflexivity.
Qed.

Lemma parseInt_showZ (n : Z) :
  JS.isSafeInteger n = true -> JS.parseInt (Some (JS.showZ n)) = Some n.
Proof.
  intros Hs. rewrite showZ_safe by exact Hs.
  rewrite <- (toNumber_safe n Hs) at 2.
  destruct n as [|p|p]; [reflexivity| |].
  - simpl Z.to_int. simpl NilZero.string_of_int.
    assert (Hnn := DecimalPos.Unsigned.to_uint_nonnil p).
    assert (E : NilZero.string_of_uint (Pos.to_uint p)
                = NilEmpty.string_of_uint (Pos.to_uint p)).
    { unfold NilZero.string_of_uint. destruct (Pos.to_uint p); auto. contradiction. }
    rewrite E, parseInt_uint by auto.
    now rewrite DecimalPos.Unsigned.of_to.
  - simpl Z.to_int. simpl NilZero.string_of_int.
    assert (Hnn := DecimalPos.Unsigned.to_uint_nonnil p).
    assert (E : NilZero.string_of_uint (Pos.to_uint p)
                = NilEmpty.string_of_uint (Pos.to_uint p)).
    { unfold NilZero.string_of_uint. destruct (Pos.to_uint p); auto. contradiction. }
    rewrite E, parseInt_neg_uint by auto.
    now rewrite DecimalPos.Unsigned.of_to.
Qed.

Lemma keyOf_hd (m : string) (len : Z) :
  noBar m = true -> hd EmptyString (JS.splitBar (keyOf m len)) = m.
Proof.
  intros H. unfold keyOf.
  change ("|" ++ JS.showZ len) with (String "|" (JS.showZ len)).
  now rewrite splitBar_bar by auto.
Qed.

Lemma keyOf_split (m : string) (len : Z) :
  noBar m = true -> JS.isSafeInteger len = true ->
  JS.splitBar (keyOf m len) = [m; JS.showZ len].
Proof.
  intros H Hs. unfold keyOf.
  change ("|" ++ JS.showZ len) with (String "|" (JS.showZ len)).
  rewrite splitBar_bar by auto.
  now rewrite splitBar_noBar by (apply noBar_showZ; exact Hs).
Qed.

(** From 1e21 on a length is written with an exponent, and what is read
    back from the key is its first digit. *)
Lemma key_of_large_length :
  keyOf "A16GA" (10 ^ 21) = "A16GA|1e+21"
  /\ JS.parseInt (nth_error (JS.splitBar (keyOf "A16GA" (10 ^ 21))) 1) = Some 1.
Proof. split; vm_compute; reflexivity. Qed.

(** X2: a tally key, split at the bar, gives back the material it was
    built from, provided the material's name holds no bar; the part after
    the bar, parsed, gives back the length when the length is a safe
    integer (at most 2^53 - 1 in magnitude; a length of 1e21 is read back
    as 1: [key_of_large_length]).  With a bar in the name, the material
    read back is another one. *)
Theorem key_round_trip (m : string) (len : Z) :
  (noBar m = true ->
   hd EmptyString (JS.splitBar (keyOf m len)) = m
   /\ (JS.isSafeInteger len = true ->
       JS.parseInt (nth_error (JS.splitBar (keyOf m len)) 1) = Some len))
  /\ (noBar m = false -> hd EmptyString (JS.splitBar (keyOf m len)) <> m).
Proof.
  split.
  - intros H. split; [now apply keyOf_hd|].
    intros Hs. rewrite keyOf_split by auto. simpl. now apply parseInt_showZ.
  - intros H. unfold keyOf. now apply splitBar_hd_prefix.
Qed.

(** ** Writes that keep the units *)

Lemma patchSheet_physical (i : string) (f : Sheet.t -> Sheet.t) (l : list Sheet.t) :
  (forall s, physical (f s) = physical s) ->
  map physical (patchSheet i f l) = map physical l.
Proof.
  intros Hf. unfold patchSheet. rewrite map_map. apply map_ext.
  intros s. destruct (String.eqb (Sheet.id s) i); auto.
Qed.

Lemma keepsUnits_apply (x : write) (d d' : db) :
  keepsUnits x -> applyWrite d x = Some d' ->
  map physical (inventoryCol d') = map physical (inventoryCol d).
Proof.
  destruct x; simpl; intros Hk H; try contradiction;
    repeat match type of H with
           | (if ?c then _ else _) = _ => destruct c; [|discriminate]
           end;
    injection H as <-; simpl; auto; now apply patchSheet_physical.
Qed.

Lemma keepsUnits_commit (ws : list write) :
  Forall keepsUnits ws ->
  forall d d', commit d ws = Some d' ->
  map physical (inventoryCol d') = map physical (inventoryCol d).
Proof.
  induction 1 as [|x ws Hx Hws IH]; simpl; intros d d' H.
  - now injection H as <-.
  - destruct (applyWrite d x) as [d1|] eqn:E; [|discriminate].
    rewrite (IH _ _ H). eapply keepsUnits_apply; eauto.
Qed.

Lemma physical_ids (l l' : list Sheet.t) :
  map physical l = map physical l' -> map Sheet.id l = map Sheet.id l'.
Proof.
  intros H.
  assert (E : forall l0, map Sheet.id l0
                         = map (fun t => fst (fst (fst (fst (fst (fst (fst (fst (fst (fst (fst t)))))))))))
                               (map physical l0)).
  { intros l0. rewrite map_map. reflexivity. }
  now rewrite (E l), (E l'), H.
Qed.

(** Marking units Used: the commit succeeds when the units exist, and
    touches neither records nor materials. *)
Lemma commit_marks (now : timestamp) (l j c : string) (units : list Sheet.t) :
  forall d,
    (forall s, In s units -> hasSheet (Sheet.id s) (inventoryCol d) = true) ->
    exists inv',
      commit d (map (usedWrite now l j c) units)
      = Some (mkDb inv' (usageLogsCol d) (materialsCol d))
      /\ map physical inv' = map physical (inventoryCol d).
Proof.
  induction units as [|u units IH]; intros d Hex; simpl.
  - exists (inventoryCol d). destruct d; auto.
  - rewrite (Hex u) by now left.
    set (d1 := mkDb _ _ _).
    destruct (IH d1) as (inv' & Hc & Hp).
    { intros s Hs. subst d1. simpl.
      apply hasSheet_true. rewrite patchSheet_ids by reflexivity.
      apply hasSheet_true. apply Hex. now right. }
    exists inv'. split; [exact Hc|].
    rewrite Hp. subst d1. simpl. now apply patchSheet_physical.
Qed.

Lemma withUsage_twice (st : string) (l j c : option string) (t : option timestamp)
    (u : Sheet.t) :
  Sheet.withUsage st l j c t (Sheet.withUsage st l j c t u) = Sheet.withUsage st l j c t u.
Proof. reflexivity. Qed.

(** The inventory after the units of [units] were marked Used. *)
Lemma commit_marks_exact (now : timestamp) (l j c : string) (units : list Sheet.t) :
  forall d,
    (forall s, In s units -> hasSheet (Sheet.id s) (inventoryCol d) = true) ->
    commit d (map (usedWrite now l j c) units)
    = Some (mkDb (map (fun u => if hasSheet (Sheet.id u) units
                                then Sheet.withUsage "Used" (Some l) (Some j) (Some c)
                                                     (Some now) u
                                else u)
                      (inventoryCol d))
                 (usageLogsCol d) (materialsCol d)).
Proof.
  induction units as [|u0 units IH]; intros d Hex; simpl.
  - rewrite map_id. now destruct d.
  - rewrite (Hex u0) by now left.
    set (d1 := mkDb _ _ _).
    rewrite (IH d1).
    + subst d1. simpl. unfold patchSheet. rewrite map_map. do 2 f_equal.
      apply map_ext. intros u. rewrite (String.eqb_sym (Sheet.id u0)).
      destruct (String.eqb (Sheet.id u) (Sheet.id u0)); simpl.
      * now destruct (hasSheet (Sheet.id u) units).
      * reflexivity.
    + intros s Hs. subst d1. simpl.
      apply hasSheet_true. rewrite patchSheet_ids by reflexivity.
      apply hasSheet_true. apply Hex. now right.
Qed.

(** ** Fulfilment of a scheduled record *)

Lemma fulfillEntry_run (p : params) (used : list Sheet.t) (entry : string * Z)
    (st : txState) :
  fulfillEntry p used entry st
  = match fulfilShort p entry with
    | Some e => inl e
    | None =>
        inr ((used ++ selectSheets (fulfilPred (fst entry)) (inventory p) (snd entry))%list,
             st)
    end.
Proof.
  destruct entry as [key qty]. unfold fulfillEntry, fulfilShort. cbv zeta.
  cbn [fst snd].
  change (fun i : Sheet.t =>
            String.eqb (Sheet.materialType i) (hd EmptyString (JS.splitBar key))
            && lengthIs i (JS.parseInt (nth_error (JS.splitBar key) 1))
            && String.eqb (Sheet.status i) "On Hand")
    with (fulfilPred key).
  rewrite matching_len.
  destruct (JS.len (filter (fulfilPred key) (inventory p)) <? qty); reflexivity.
Qed.

Lemma fulfil_fold_run (p : params) (entries : list (string * Z)) :
  forall used st,
    foldM (fulfillEntry p) entries used st
    = match firstBad (fulfilShort p) entries with
      | Some e => inl e
      | None => inr ((used ++ fulfilUnits p entries)%list, st)
      end.
Proof.
  induction entries as [|entry entries IH]; intros used st; simpl.
  - unfold ret. now rewrite app_nil_r.
  - unfold bind. rewrite fulfillEntry_run.
    destruct (fulfilShort p entry); auto.
    rewrite IH. destruct (firstBad (fulfilShort p) entries); auto.
    unfold fulfilUnits. simpl. now rewrite app_assoc.
Qed.

Lemma fulfillBody_run (p : params) (now : timestamp) (log : Log.t) (st : txState) :
  fulfillBody p now log st
  = match firstBad (fulfilShort p) (fold_left tally (Log.details log) []) with
    | Some e => inl e
    | None =>
        let units := fulfilUnits p (fold_left tally (Log.details log) []) in
        inr (tt, mkTx (nextAuto st)
                      (staged st
                       ++ map (usedWrite now (Log.id log) (Log.job log) (Log.customer log))
                              units
                       ++ [FulfillLog (Log.id log) "Completed" (map Snapshot units) now])%list)
    end.
Proof.
  unfold fulfillBody. cbv zeta. unfold bind at 1. rewrite fulfil_fold_run.
  destruct (firstBad (fulfilShort p) (fold_left tally (Log.details log) [])); auto.
  simpl app. unfold bind.
  change (markUsed now (Log.id log) (Log.job log) (Log.customer log))
    with (fun s => stage (usedWrite now (Log.id log) (Log.job log) (Log.customer log) s)).
  rewrite forM_stage_run. unfold stage. simpl. now rewrite <- app_assoc.
Qed.

Lemma selectSheets_length (pred : Sheet.t -> bool) (pool : list Sheet.t) (q : Z) :
  0 <= q -> q <= JS.len (filter pred pool) ->
  JS.len (selectSheets pred pool q) = q.
Proof.
  intros H0 Hq. unfold selectSheets, JS.slice0, JS.len.
  rewrite length_firstn.
  pose proof (matching_len pred pool) as Hm. unfold JS.len in Hm, Hq. lia.
Qed.

Lemma fulfilUnits_length (p : params) (entries : list (string * Z)) :
  (forall k q, In (k, q) entries -> 0 < q) ->
  firstBad (fulfilShort p) entries = None ->
  JS.len (fulfilUnits p entries) = fold_right Z.add 0 (map snd entries).
Proof.
  induction entries as [|[k q] entries IH]; intros Hpos Hok; simpl.
  - reflexivity.
  - simpl in Hok. destruct (fulfilShort p (k, q)) eqn:E; [discriminate|].
    unfold fulfilShort in E. cbn [fst snd] in E.
    destruct (JS.len (filter (fulfilPred k) (inventory p)) <? q) eqn:Hlt; [discriminate|].
    apply Z.ltb_ge in Hlt.
    unfold JS.len in *. rewrite length_app, Nat2Z.inj_add.
    fold (JS.len (selectSheets (fulfilPred k) (inventory p) q)).
    rewrite selectSheets_length.
    + f_equal. apply IH; auto. intros k' q' H. apply (Hpos k' q'). now right.
    + specialize (Hpos k q (or_introl eq_refl)). lia.
    + exact Hlt.
Qed.

Lemma In_firstn {A : Type} (n : nat) (l : list A) (x : A) :
  In x (firstn n l) -> In x l.
Proof.
  intros H. rewrite <- (firstn_skipn n l). apply in_or_app. now left.
Qed.

Lemma fulfilUnits_onHand (p : params) (entries : list (string * Z)) :
  Forall (fun s => In s (inventory p) /\ Sheet.status s = "On Hand")
         (fulfilUnits p entries).
Proof.
  apply Forall_forall. intros s Hs. unfold fulfilUnits in Hs.
  apply in_flat_map in Hs. destruct Hs as ([k q] & _ & Hs).
  unfold selectSheets, JS.slice0 in Hs. apply In_firstn in Hs.
  apply (Permutation_in _ (Permutation_sym (sort_perm Sheet.createdAt _))) in Hs.
  apply filter_In in Hs. destruct Hs as [Hin Hp]. split; auto.
  unfold fulfilPred in Hp. apply andb_prop in Hp. destruct Hp as [_ Hp].
  now apply String.eqb_eq.
Qed.

(** For a material without a bar and a safe length, the units the
    fulfilment reads back from the key are the On Hand units of that
    material and length. *)
Lemma fulfilPred_key (m : string) (len : Z) (i : Sheet.t) :
  noBar m = true -> JS.isSafeInteger len = true ->
  fulfilPred (keyOf m len) i = onHandAt m len i.
Proof.
  intros H Hs. unfold fulfilPred, onHandAt.
  rewrite keyOf_split by auto. simpl hd. simpl nth_error.
  rewrite parseInt_showZ by exact Hs. reflexivity.
Qed.

Lemma fulfil_short_key (p : params) (now : timestamp) (logToFulfill : Log.t)
    (w : world) (k : string) :
  JS.len (filter (fulfilPred k) (inventory p)) < countKey k (Log.details logToFulfill) ->
  exists qty materialType length available,
    handleFulfillScheduledLog p now logToFulfill w
    = (Some (CannotFulfill qty materialType length available), w)
    /\ available < qty.
Proof.
  intros Hshort.
  destruct (tally_spec (Log.details logToFulfill)) as (Hnd & Hget & Hin & _).
  cbv zeta in *.
  set (itemsNeeded := fold_left tally (Log.details logToFulfill) []) in *.
  assert (Hentry : In (k, countKey k (Log.details logToFulfill)) itemsNeeded).
  { apply Hin. split; auto. unfold JS.len in Hshort. lia. }
  assert (Hbad : fulfilShort p (k, countKey k (Log.details logToFulfill)) <> None).
  { unfold fulfilShort. cbn [fst snd].
    apply Z.ltb_lt in Hshort. now rewrite Hshort. }
  destruct (firstBad (fulfilShort p) itemsNeeded) as [e|] eqn:Efb.
  - destruct (firstBad_Some _ _ _ Efb) as ([k' q] & _ & He).
    unfold fulfilShort in He. cbn [fst snd] in He.
    destruct (JS.len (filter (fulfilPred k') (inventory p)) <? q) eqn:Hlt; [|discriminate].
    injection He as <-. do 4 eexists. split.
    + unfold handleFulfillScheduledLog, runTransaction.
      rewrite fulfillBody_run. fold itemsNeeded. rewrite Efb. reflexivity.
    + now apply Z.ltb_lt.
  - exfalso. apply Hbad. eapply firstBad_None in Efb; eauto.
Qed.

(** X3: a fulfilment throws its shortfall error, and changes nothing, when
    for some key of the record's tally the client's inventory holds fewer
    units On Hand of the material and length read back from the key (the
    part before its first bar, and the number parsed from the part after
    it) than the record has details of the key.  For a material whose name
    holds no bar and a length that is a safe integer these are the units
    On Hand of that material and length. *)
Theorem fulfil_short_fails (p : params) (now : timestamp) (logToFulfill : Log.t)
    (w : world) :
  (forall k,
      JS.len (filter (fulfilPred k) (inventory p))
      < countKey k (Log.details logToFulfill) ->
      exists qty materialType length available,
        handleFulfillScheduledLog p now logToFulfill w
        = (Some (CannotFulfill qty materialType length available), w)
        /\ available < qty)
  /\ (forall m len,
        noBar m = true -> JS.isSafeInteger len = true ->
        onHandCount m len (inventory p)
        < countKey (keyOf m len) (Log.details logToFulfill) ->
        exists qty materialType length available,
          handleFulfillScheduledLog p now logToFulfill w
          = (Some (CannotFulfill qty materialType length available), w)
          /\ available < qty).
Proof.
  split.
  - intros k. apply fulfil_short_key.
  - intros m len Hm Hs Hshort. apply (fulfil_short_key p now logToFulfill w (keyOf m len)).
    rewrite (filter_ext _ _ (fun i => fulfilPred_key m len i Hm Hs)).
    exact Hshort.
Qed.

Lemma countKey_pos_In (k : string) (ds : list detail) :
  0 < countKey k ds -> exists d, In d ds /\ detailKey d = k.
Proof.
  unfold countKey, JS.len. intros H.
  destruct (filter (fun d => String.eqb (detailKey d) k) ds) as [|d l] eqn:E.
  - simpl in H. lia.
  - assert (Hin : In d (filter (fun d => String.eqb (detailKey d) k) ds))
      by (rewrite E; now left).
    apply filter_In in Hin. destruct Hin as [Hin Hk].
    exists d. split; auto. now apply String.eqb_eq.
Qed.

Lemma fulfil_no_shortage (p : params) (ds : list detail) :
  (forall d, In d ds ->
     countKey (detailKey d) ds
     <= JS.len (filter (fulfilPred (detailKey d)) (inventory p))) ->
  firstBad (fulfilShort p) (fold_left tally ds []) = None.
Proof.
  intros H. apply firstBad_None. intros [k q] Hin.
  destruct (tally_spec ds) as (_ & _ & Hiff & _). cbv zeta in Hiff.
  apply Hiff in Hin. destruct Hin as [-> Hpos].
  destruct (countKey_pos_In _ _ Hpos) as (d & Hd & <-).
  specialize (H d Hd).
  unfold fulfilShort. cbn [fst snd].
  apply Z.ltb_ge in H. now rewrite H.
Qed.

(** X4: a fulfilment for which the client's inventory holds, for the key
    of every detail of the record, as many units On Hand of the material
    and length read back from the key (the part before its first bar, and
    the number parsed from the part after it) as the record has details of
    the key, and whose units and record exist in the store, succeeds: it
    marks Used, for the record, the first such units by age of every key,
    as many in all as the record has details; the record becomes
    Completed, its details their snapshots, its [qty] untouched. *)
Theorem fulfil_succeeds (p : params) (now : timestamp) (logToFulfill : Log.t)
    (w : world) :
  (forall d, In d (Log.details logToFulfill) ->
     countKey (detailKey d) (Log.details logToFulfill)
     <= JS.len (filter (fulfilPred (detailKey d)) (inventory p))) ->
  (forall s, In s (inventory p) ->
             hasSheet (Sheet.id s) (inventoryCol (store w)) = true) ->
  hasLog (Log.id logToFulfill) (usageLogsCol (store w)) = true ->
  let units := fulfilUnits p (fold_left tally (Log.details logToFulfill) []) in
  handleFulfillScheduledLog p now logToFulfill w
  = (None,
     mkWorld
       (mkDb (map (fun u => if hasSheet (Sheet.id u) units
                            then Sheet.withUsage "Used" (Some (Log.id logToFulfill))
                                   (Some (Log.job logToFulfill))
                                   (Some (Log.customer logToFulfill)) (Some now) u
                            else u)
                  (inventoryCol (store w)))
             (patchLog (Log.id logToFulfill)
                (fun r => Log.mk (Log.id r) (Log.job r) (Log.customer r)
                                 (Log.createdAt r) (Log.usedAt r) (Some "Completed")
                                 (map Snapshot units) (Log.qty r) (Some now))
                (usageLogsCol (store w)))
             (materialsCol (store w)))
       (idsDrawn w))
  /\ JS.len units = JS.len (Log.details logToFulfill)
  /\ Forall (fun s => In s (inventory p) /\ Sheet.status s = "On Hand") units.
Proof.
  intros Hds Hex Hlog units.
  pose proof (fulfil_no_shortage p _ Hds) as Hok.
  split; [|split].
  - unfold handleFulfillScheduledLog, runTransaction.
    rewrite fulfillBody_run, Hok. cbv zeta. fold units.
    cbv iota beta. cbn [staged nextAuto app].
    rewrite commit_app, commit_marks_exact.
    + simpl. rewrite Hlog. reflexivity.
    + intros s Hs. apply Hex.
      pose proof (fulfilUnits_onHand p (fold_left tally (Log.details logToFulfill) []))
        as Hall.
      rewrite Forall_forall in Hall. now apply Hall.
  - subst units. rewrite fulfilUnits_length; auto.
    + apply (tally_spec (Log.details logToFulfill)).
    + intros k q Hin. apply (tally_spec (Log.details logToFulfill)) in Hin. tauto.
  - apply fulfilUnits_onHand.
Qed.

(** ** The quantity of a record and the number of its details *)

Lemma txspec_weaken {A : Type} (m : Tx A) (E E' : error -> Prop)
    (P P' : write -> Prop) :
  (forall e, E e -> E' e) -> (forall w, P w -> P' w) ->
  txspec m E P -> txspec m E' P'.
Proof.
  intros HE HP H st. specialize (H st). destruct (m st) as [e|[a st']]; auto.
  destruct H as (ws & Hs & HF). exists ws. split; auto.
  eapply Forall_impl; eauto.
Qed.

Lemma selected_In (pred : Sheet.t -> bool) (pool : list Sheet.t) (q : Z) (s : Sheet.t) :
  In s (JS.slice0 q (matching pred pool)) -> In s pool /\ pred s = true.
Proof.
  unfold JS.slice0. intros H. apply In_firstn in H.
  apply (Permutation_in _ (Permutation_sym (sort_perm Sheet.createdAt _))) in H.
  now apply filter_In in H.
Qed.

Section Writes.
Variable STANDARD_LENGTHS : list Z.
Variable getGaugeFromMaterial : string -> string.
Variable autoId : nat -> string.

Lemma use_writes (p : params) (now sd : timestamp) (jobs : list Job.t)
    (isScheduled : bool) :
  txspec (useStockBody STANDARD_LENGTHS getGaugeFromMaterial autoId p now jobs
            isScheduled sd)
         (fun _ => True) (useWrite p).
Proof.
  unfold useStockBody. apply txspec_forM. intros job _. unfold useJob.
  destruct isScheduled.
  - pose proof (scheduledItems_spec STANDARD_LENGTHS getGaugeFromMaterial p
                  (Job.items job)) as (Hq & _ & _).
    destruct (scheduledItems _ _ _ _) as [itemsForLog totalItems]. simpl in Hq.
    destruct (_ >? 0); [|apply txspec_ret].
    apply txspec_bind; [apply txspec_newDoc|]. intros ref.
    apply txspec_stage. simpl. now rewrite Hq.
  - apply txspec_bind; [apply txspec_newDoc|]. intros ref.
    apply txspec_bind.
    + apply txspec_foldM. intros used item _. apply txspec_foldM. intros used' len _.
      unfold useLen. destruct (_ <=? 0); [apply txspec_ret|].
      destruct (_ <? _); [now apply txspec_throw|].
      apply txspec_bind; [|intros; apply txspec_ret].
      apply txspec_forM. intros sheet Hs. apply txspec_stage.
      simpl. apply in_map. now apply selected_In in Hs.
    + intros used. destruct (_ >? 0); [|apply txspec_ret].
      apply txspec_stage. simpl. unfold JS.len. now rewrite length_map.
Qed.

Lemma edit_writes (p : params) (now : timestamp) (originalLog : Log.t)
    (newLogData : LogData.t) :
  txspec (editCompletedBody STANDARD_LENGTHS p now originalLog newLogData)
         (fun _ => True) (clientWrite p).
Proof.
  unfold editCompletedBody. cbv zeta.
  apply txspec_bind.
  { apply txspec_forM. intros [k c] _. unfold editCheck.
    destruct (_ <? 0); [|apply txspec_ret].
    destruct (_ <? _); [now apply txspec_throw | apply txspec_ret]. }
  intros _. apply txspec_bind.
  { apply txspec_forM. intros item Hi. apply txspec_stage. simpl.
    apply in_map. now apply filter_In in Hi. }
  intros _. apply txspec_bind.
  { apply txspec_foldM. intros used item _. apply txspec_foldM. intros used' len _.
    unfold editLen. destruct (_ <=? 0); [apply txspec_ret|].
    destruct (_ <? _); [now apply txspec_throw|].
    apply txspec_bind; [|intros; apply txspec_ret].
    apply txspec_forM. intros sheet Hs. apply txspec_stage.
    simpl. apply in_map. now apply selected_In in Hs. }
  intros used. apply txspec_stage. simpl. unfold JS.len. now rewrite length_map.
Qed.

Lemma modal_writes (inventory : list Sheet.t) (now : timestamp) (jobs : list Job.t) :
  txspec (modalSubmitBody STANDARD_LENGTHS autoId inventory now jobs)
         (fun _ => True) unitWrite.
Proof.
  unfold modalSubmitBody. apply txspec_forM. intros job _. unfold modalJob.
  apply txspec_bind.
  - apply txspec_foldM. intros used item _. apply txspec_foldM. intros used' len _.
    unfold modalLen. destruct (_ <=? 0); [apply txspec_ret|].
    destruct (_ <? _); [now apply txspec_throw|].
    apply txspec_bind; [|intros; apply txspec_ret].
    apply txspec_forM. intros sheet _. now apply txspec_stage.
  - intros used. destruct (_ >? 0); [|apply txspec_ret].
    apply txspec_bind; [apply txspec_newDoc|]. intros ref.
    now apply txspec_stage.
Qed.

Lemma order_writes (now : timestamp) (jobs : list Job.t)
    (originalOrderGroup : option Group.t) :
  txspec (addOrEditOrderBody STANDARD_LENGTHS getGaugeFromMaterial autoId now jobs
            originalOrderGroup)
         (fun _ => True) unitWrite.
Proof.
  unfold addOrEditOrderBody. apply txspec_bind.
  - destruct originalOrderGroup as [g|]; [|apply txspec_ret].
    apply txspec_forM. intros item _. now apply txspec_stage.
  - intros _. apply txspec_forM. intros job _.
    apply txspec_forM. intros item _.
    apply txspec_forM. intros len _.
    apply txspec_repeatM. apply txspec_bind; [apply txspec_newDoc|].
    intros newDocRef.
    destruct (match originalOrderGroup with Some g => _ | None => _ end);
      [now apply txspec_stage | now apply txspec_throw].
Qed.

Lemma stock_writes (p : params) (now : timestamp) (m : string) (len diff : Z) :
  txspec (stockEditBody getGaugeFromMaterial autoId p now m len diff)
         (fun _ => True) unitWrite.
Proof.
  unfold stockEditBody. destruct (_ >? 0).
  - apply txspec_repeatM. apply txspec_bind; [apply txspec_newDoc|].
    intros ref. now apply txspec_stage.
  - destruct (_ <? _); [now apply txspec_throw|].
    apply txspec_forM. intros sheet _. now apply txspec_stage.
Qed.

End Writes.

Lemma useWrite_ledgerSafe (p : params) (x : write) : useWrite p x -> ledgerSafe x.
Proof. destruct x; simpl; tauto. Qed.

Lemma clientWrite_ledgerSafe (p : params) (x : write) : clientWrite p x -> ledgerSafe x.
Proof. destruct x; simpl; tauto. Qed.

Lemma unitWrite_ledgerSafe (x : write) : unitWrite x -> ledgerSafe x.
Proof. destruct x; simpl; tauto. Qed.

Lemma clientWrite_keepsUnits (p : params) (x : write) : clientWrite p x -> keepsUnits x.
Proof. destruct x; simpl; tauto. Qed.

Lemma qtyOk_patch (i : string) (f : Log.t -> Log.t) (logs : list Log.t) :
  qtyOk logs ->
  (forall r, In r logs -> Log.id r = i -> Log.qty (f r) = - JS.len (Log.details (f r))) ->
  qtyOk (patchLog i f logs).
Proof.
  intros Hq Hf r Hr. unfold patchLog in Hr. apply in_map_iff in Hr.
  destruct Hr as (r0 & <- & Hr0).
  destruct (String.eqb (Log.id r0) i) eqn:E; auto.
  apply String.eqb_eq in E. auto.
Qed.

Lemma ledgerOk_set (d : db) (i : string) (r : Log.t) :
  Log.qty r = - JS.len (Log.details r) -> ledgerOk d ->
  ledgerOk (mkDb (inventoryCol d)
                 (if hasLog i (usageLogsCol d)
                  then patchLog i (fun _ => logWithId i r) (usageLogsCol d)
                  else (usageLogsCol d ++ [logWithId i r])%list)
                 (materialsCol d)).
Proof.
  intros Hr [Hnd Hq]. unfold ledgerOk. simpl.
  destruct (hasLog i (usageLogsCol d)) eqn:E.
  - split.
    + assert (Hids : map Log.id (patchLog i (fun _ => logWithId i r) (usageLogsCol d))
                     = map Log.id (usageLogsCol d)).
      { unfold patchLog. rewrite map_map. apply map_ext_in. intros r0 _.
        destruct (String.eqb (Log.id r0) i) eqn:E0; auto.
        apply String.eqb_eq in E0. now rewrite E0. }
      now rewrite Hids.
    + apply qtyOk_patch; auto.
  - split.
    + rewrite map_app. simpl.
      apply NoDup_app_remove_l with (l := []). simpl.
      apply Permutation_NoDup with (l := i :: map Log.id (usageLogsCol d)).
      * apply Permutation_cons_append.
      * constructor; auto. intros Hin. apply hasLog_true in Hin. congruence.
    + intros r0 Hr0. apply in_app_or in Hr0. destruct Hr0 as [Hr0|[<-|[]]]; auto.
Qed.

Lemma ledgerSafe_apply (x : write) (d d' : db) :
  ledgerSafe x -> ledgerOk d -> applyWrite d x = Some d' -> ledgerOk d'.
Proof.
  destruct x; simpl; intros Hs Hok H; try contradiction;
    repeat match type of H with
           | (if ?c then _ else _) = _ => destruct c eqn:?; [|discriminate]
           end;
    try (injection H as <-; exact Hok).
  - injection H as <-. now apply ledgerOk_set.
  - injection H as <-. destruct Hok as [Hnd Hq]. split; simpl.
    + now rewrite patchLog_ids.
    + apply qtyOk_patch; auto.
  - injection H as <-. destruct Hok as [Hnd Hq]. split; simpl.
    + unfold dropLog. clear Hq. induction (usageLogsCol d) as [|r l IH]; simpl; auto.
      inversion Hnd; subst. destruct (negb _); simpl; auto.
      constructor; auto. intros Hin. apply in_map_iff in Hin.
      destruct Hin as (r0 & E & Hin). apply filter_In in Hin.
      match goal with H : ~ In _ _ |- _ => apply H end.
      rewrite <- E. apply in_map. tauto.
    + intros r Hr. apply filter_In in Hr. apply Hq. tauto.
Qed.

Lemma ledgerSafe_commit (ws : list write) :
  Forall ledgerSafe ws ->
  forall d d', ledgerOk d -> commit d ws = Some d' -> ledgerOk d'.
Proof.
  intros HF. apply commit_keeps. intros x Hx d d' Hok Ha.
  rewrite Forall_forall in HF. eapply ledgerSafe_apply; eauto.
Qed.

Lemma runTransaction_ledger (body : Tx unit) (w : world) :
  txspec body (fun _ => True) ledgerSafe ->
  ledgerOk (store w) -> ledgerOk (store (snd (runTransaction body w))).
Proof.
  intros Hb Hok. unfold runTransaction.
  specialize (Hb (mkTx (idsDrawn w) [])).
  destruct (body _) as [e|[[] st]]; simpl; auto.
  destruct Hb as (ws & Hs & HF). simpl in Hs. subst.
  destruct (commit (store w) (staged st)) as [d|] eqn:Ec; simpl; auto.
  eapply ledgerSafe_commit; eauto.
Qed.

Lemma commitBatch_ledger (ws : list write) (w : world) :
  Forall ledgerSafe ws ->
  ledgerOk (store w) -> ledgerOk (store (snd (commitBatch ws w))).
Proof.
  intros HF Hok. unfold commitBatch.
  destruct (commit (store w) ws) as [d|] eqn:Ec; simpl; auto.
  eapply ledgerSafe_commit; eauto.
Qed.

Lemma commitChunks_ledger (chunks : list (list write)) :
  Forall (Forall ledgerSafe) chunks ->
  forall w, ledgerOk (store w) -> ledgerOk (store (snd (commitChunks chunks w))).
Proof.
  induction 1 as [|c cs Hc Hcs IH]; intros w Hok; simpl; auto.
  pose proof (commitBatch_ledger c w Hc Hok) as H1.
  destruct (commitBatch c w) as [[e|] w']; simpl in *; auto.
Qed.

Lemma fulfil_ledger (p : params) (now : timestamp) (logToFulfill : Log.t) (w : world) :
  In logToFulfill (usageLogsCol (store w)) ->
  ledgerOk (store w) ->
  ledgerOk (store (snd (handleFulfillScheduledLog p now logToFulfill w))).
Proof.
  intros Hin Hok. unfold handleFulfillScheduledLog, runTransaction.
  rewrite fulfillBody_run.
  destruct (firstBad _ _) eqn:Efb; simpl; auto.
  set (units := fulfilUnits p _).
  rewrite commit_app.
  destruct (commit (store w) (map _ units)) as [d1|] eqn:E1; simpl; auto.
  assert (Hlogs : usageLogsCol d1 = usageLogsCol (store w)).
  { revert E1. apply commit_keeps with (K := fun d => usageLogsCol d = usageLogsCol (store w));
      auto.
    intros x Hx d d' Hd Ha. apply in_map_iff in Hx. destruct Hx as (s & <- & _).
    simpl in Ha. destruct (hasSheet _ _); [|discriminate]. now injection Ha as <-. }
  destruct (hasLog (Log.id logToFulfill) (usageLogsCol d1)) eqn:Eh; simpl; auto.
  destruct Hok as [Hnd Hq]. split; simpl; rewrite Hlogs.
  - now rewrite patchLog_ids.
  - apply qtyOk_patch; auto. intros r Hr Hid. simpl.
    assert (r = logToFulfill) by (eapply log_by_id; eauto). subst r.
    rewrite (Hq _ Hin). f_equal. unfold JS.len at 2. rewrite length_map.
    fold (JS.len units). subst units. symmetry.
    rewrite fulfilUnits_length; auto.
    + apply (tally_spec (Log.details logToFulfill)).
    + intros k q Hkq. apply (tally_spec (Log.details logToFulfill)) in Hkq. tauto.
Qed.

Lemma op_ledger (STANDARD_LENGTHS : list Z) (getGaugeFromMaterial : string -> string)
    (autoId : nat -> string) (w w' : world) :
  ledgerOk (store w) ->
  op STANDARD_LENGTHS getGaugeFromMaterial autoId w w' ->
  ledgerOk (store w').
Proof.
  intros Hok Hop. destruct Hop.
  - apply runTransaction_ledger; auto.
    eapply txspec_weaken; [| |apply use_writes]; auto.
    apply useWrite_ledgerSafe.
  - unfold modalHandleSubmit. destruct (existsb _ jobs); auto.
    apply runTransaction_ledger; auto.
    eapply txspec_weaken; [| |apply modal_writes]; auto.
    apply unitWrite_ledgerSafe.
  - now apply fulfil_ledger.
  - unfold handleEditOutgoingLog. destruct (statusIs _ _).
    + pose proof (scheduledItems_spec STANDARD_LENGTHS getGaugeFromMaterial p
                    (LogData.items newLogData)) as (Hq & _ & _).
      destruct (scheduledItems _ _ _ _) as [newDetails totalItems]. simpl in Hq.
      apply commitBatch_ledger; auto. constructor; auto. simpl. now rewrite Hq.
    + apply runTransaction_ledger; auto.
      eapply txspec_weaken; [| |apply edit_writes]; auto.
      apply clientWrite_ledgerSafe.
  - apply runTransaction_ledger; auto.
    eapply txspec_weaken; [| |apply order_writes]; auto.
    apply unitWrite_ledgerSafe.
  - apply commitBatch_ledger; auto. apply Forall_forall. intros x Hx.
    apply in_flat_map in Hx. destruct Hx as (s & _ & Hx).
    destruct (Sheet.id s); [contradiction|]. now destruct Hx as [<-|[]].
  - unfold handleDeleteInventoryGroup. destruct group as [g|]; auto.
    destruct (Group.details g) as [|s l] eqn:E; auto.
    apply commitBatch_ledger; auto. apply Forall_forall. intros x Hx.
    apply in_map_iff in Hx. now destruct Hx as (s0 & <- & _).
  - apply commitBatch_ledger; auto. constructor; simpl; auto.
  - unfold handleStockEdit. destruct (_ =? 0); auto.
    apply runTransaction_ledger; auto.
    eapply txspec_weaken; [| |apply stock_writes]; auto.
    apply unitWrite_ledgerSafe.
  - unfold handleConfirmDeleteCategories. apply commitChunks_ledger; auto.
    assert (Hall : Forall ledgerSafe (List.concat (deleteBatches p))).
    { rewrite (proj1 (deleteBatches_spec p)). unfold allDocRefsToDelete.
      apply Forall_app. split; apply Forall_forall; intros x Hx;
        apply in_map_iff in Hx; now destruct Hx as (? & <- & _). }
    apply Forall_forall. intros c Hc. apply Forall_forall. intros x Hx.
    rewrite Forall_forall in Hall. apply Hall. apply in_concat. eauto.
  - apply commitBatch_ledger; auto. apply Forall_forall. intros x Hx.
    apply in_map_iff in Hx. now destruct Hx as (? & <- & _).
Qed.

(** X5: from a store whose records have unique ids and a [qty] that is
    the negated number of their details, every sequence of handler calls,
    record deletion included, leads to such a store; the fulfilment is of a
    record as the store holds it. *)
Theorem qty_matches_details (STANDARD_LENGTHS : list Z)
    (getGaugeFromMaterial : string -> string) (autoId : nat -> string)
    (w w' : world) :
  ledgerOk (store w) ->
  ops STANDARD_LENGTHS getGaugeFromMaterial autoId w w' ->
  ledgerOk (store w').
Proof.
  intros Hok Hops. induction Hops as [w0|w0 w1 w2 Hs IH Hop]; [exact Hok|].
  exact (op_ledger _ _ _ w1 w2 (IH Hok) Hop).
Qed.

(** ** Units are neither made nor lost by a use *)

Lemma runTransaction_keepsUnits (body : Tx unit) (w : world) :
  txspec body (fun _ => True) keepsUnits ->
  map physical (inventoryCol (store (snd (runTransaction body w))))
  = map physical (inventoryCol (store w)).
Proof.
  intros Hb. unfold runTransaction.
  specialize (Hb (mkTx (idsDrawn w) [])).
  destruct (body _) as [e|[[] st]]; simpl; auto.
  destruct Hb as (ws & Hs & HF). simpl in Hs. subst.
  destruct (commit (store w) (staged st)) as [d|] eqn:Ec; simpl; auto.
  eapply keepsUnits_commit; eauto.
Qed.

Lemma commitBatch_keepsUnits (ws : list write) (w : world) :
  Forall keepsUnits ws ->
  map physical (inventoryCol (store (snd (commitBatch ws w))))
  = map physical (inventoryCol (store w)).
Proof.
  intros HF. unfold commitBatch.
  destruct (commit (store w) ws) as [d|] eqn:Ec; simpl; auto.
  eapply keepsUnits_commit; eauto.
Qed.

Lemma useWrite_keepsUnits (p : params) (x : write) : useWrite p x -> keepsUnits x.
Proof. destruct x; simpl; tauto. Qed.

(** X6: a use through [handleUseStock] (immediate or scheduled), a
    fulfilment, an edit of a record, a receipt and the deletion of a record
    neither add nor remove a unit, and leave every unit its id, material,
    dimensions, cost, supplier, job, creation and arrival dates: they change
    at most its status, its receipt date and its use. *)
Theorem consumption_keeps_units (STANDARD_LENGTHS : list Z)
    (getGaugeFromMaterial : string -> string) (autoId : nat -> string) (w : world) :
  let units w' := map physical (inventoryCol (store w')) in
  (forall p now jobs isScheduled scheduledDate,
     units (snd (handleUseStock STANDARD_LENGTHS getGaugeFromMaterial autoId p now
                   jobs isScheduled scheduledDate w)) = units w)
  /\ (forall p now logToFulfill,
        units (snd (handleFulfillScheduledLog p now logToFulfill w)) = units w)
  /\ (forall p now originalLog newLogData,
        units (snd (handleEditOutgoingLog STANDARD_LENGTHS getGaugeFromMaterial p now
                      originalLog newLogData w)) = units w)
  /\ (forall now orderGroup, units (snd (handleReceiveOrder now orderGroup w)) = units w)
  /\ (forall logId, units (snd (handleDeleteLog logId w)) = units w).
Proof.
  cbv zeta. split; [|split; [|split; [|split]]].
  - intros. apply runTransaction_keepsUnits.
    eapply txspec_weaken; [| |apply use_writes]; auto.
    apply useWrite_keepsUnits.
  - intros. unfold handleFulfillScheduledLog, runTransaction.
    rewrite fulfillBody_run.
    destruct (firstBad _ _); simpl; auto.
    match goal with |- context [commit ?a ?b] => destruct (commit a b) eqn:Ec end;
      simpl; auto.
    revert Ec. apply keepsUnits_commit. apply Forall_app. split.
    + apply Forall_forall. intros x Hx. apply in_map_iff in Hx.
      now destruct Hx as (? & <- & _).
    + now constructor.
  - intros. unfold handleEditOutgoingLog. destruct (statusIs _ _).
    + destruct (scheduledItems _ _ _ _) as [newDetails totalItems].
      apply commitBatch_keepsUnits. now constructor.
    + apply runTransaction_keepsUnits.
      eapply txspec_weaken; [| |apply edit_writes]; auto.
      apply clientWrite_keepsUnits.
  - intros. apply commitBatch_keepsUnits. apply Forall_forall. intros x Hx.
    apply in_flat_map in Hx. destruct Hx as (s & _ & Hx).
    destruct (Sheet.id s); [contradiction|]. now destruct Hx as [<-|[]].
  - intros. apply commitBatch_keepsUnits. now constructor.
Qed.

(** ** What an immediate use does to the stock *)

Lemma flat_map_flat_map {A B C : Type} (f : B -> list C) (g : A -> list B)
    (l : list A) :
  flat_map f (flat_map g l) = flat_map (fun a => flat_map f (g a)) l.
Proof.
  induction l as [|a l IH]; simpl; auto. now rewrite flat_map_app, IH.
Qed.

Lemma foldM_select_run {A : Type} (f : list Sheet.t -> A -> Tx (list Sheet.t))
    (sel : A -> list Sheet.t) (W : Sheet.t -> write) (l : list A) :
  (forall a used st, In a l ->
     f used a st
     = inr ((used ++ sel a)%list,
            mkTx (nextAuto st) (staged st ++ map W (sel a))%list)) ->
  forall used st,
    foldM f l used st
    = inr ((used ++ flat_map sel l)%list,
           mkTx (nextAuto st) (staged st ++ map W (flat_map sel l))%list).
Proof.
  induction l as [|a l IH]; intros Hf used st; simpl.
  - unfold ret. rewrite !app_nil_r. now destruct st.
  - unfold bind. rewrite Hf by now left.
    rewrite IH by (intros; apply Hf; now right). simpl.
    now rewrite map_app, !app_assoc.
Qed.

Lemma shortLen_None (p : params) (item : Item.t) (len : Z) :
  shortLen p item len = None
  <-> Item.qty item len <= onHandCount (Item.materialType item) len (inventory p).
Proof.
  unfold shortLen.
  assert (0 <= onHandCount (Item.materialType item) len (inventory p))
    by (unfold onHandCount, JS.len; lia).
  destruct (Z.ltb_spec 0 (Item.qty item len));
    destruct (Z.ltb_spec (onHandCount (Item.materialType item) len (inventory p))
                         (Item.qty item len)); simpl; split; intros; try lia;
    auto; discriminate.
Qed.

Lemma stocked_iff (STANDARD_LENGTHS : list Z) (p : params) (jobs : list Job.t) :
  firstBad (shortJob STANDARD_LENGTHS p) jobs = None <-> stocked STANDARD_LENGTHS p jobs.
Proof.
  unfold stocked. split.
  - intros H job item len Hj Hi Hl.
    pose proof (proj1 (firstBad_None _ _) H job Hj) as H1.
    pose proof (proj1 (firstBad_None _ _) H1 item Hi) as H2.
    pose proof (proj1 (firstBad_None _ _) H2 len Hl) as H3.
    now apply shortLen_None.
  - intros H. apply firstBad_None. intros job Hj.
    unfold shortJob. apply firstBad_None. intros item Hi.
    unfold shortItem. apply firstBad_None. intros len Hl.
    apply shortLen_None. exact (H job item len Hj Hi Hl).
Qed.

Lemma useWrite_commits (p : params) (ws : list write) :
  Forall (useWrite p) ws ->
  forall d,
    (forall s, In s (inventory p) -> hasSheet (Sheet.id s) (inventoryCol d) = true) ->
    exists d', commit d ws = Some d'.
Proof.
  induction 1 as [|x ws Hx Hws IH]; intros d Hex; simpl; eauto.
  assert (Ha : exists d1, applyWrite d x = Some d1).
  { destruct x; simpl in *; try contradiction; eauto.
    apply in_map_iff in Hx. destruct Hx as (s & <- & Hs).
    rewrite (Hex s Hs). eauto. }
  destruct Ha as (d1 & Ha). rewrite Ha. apply IH.
  intros s Hs. apply hasSheet_true.
  rewrite (physical_ids _ _ (keepsUnits_apply x d d1 (useWrite_keepsUnits p x Hx) Ha)).
  apply hasSheet_true. auto.
Qed.

(** X7: an immediate use through [handleUseStock], by a client whose
    units all exist in the store, succeeds exactly when no request exceeds
    the On Hand units of its key in the client's inventory. *)
Theorem use_succeeds_iff_stocked (STANDARD_LENGTHS : list Z)
    (getGaugeFromMaterial : string -> string) (autoId : nat -> string)
    (p : params) (now sd : timestamp) (jobs : list Job.t) (w : world) :
  (forall s, In s (inventory p) ->
             hasSheet (Sheet.id s) (inventoryCol (store w)) = true) ->
  fst (handleUseStock STANDARD_LENGTHS getGaugeFromMaterial autoId p now jobs false sd w)
  = None
  <-> stocked STANDARD_LENGTHS p jobs.
Proof.
  intros Hex. rewrite <- stocked_iff.
  unfold handleUseStock, runTransaction.
  pose proof (useStockBody_fails STANDARD_LENGTHS getGaugeFromMaterial autoId p now sd
                jobs (mkTx (idsDrawn w) [])) as Hf.
  pose proof (use_writes STANDARD_LENGTHS getGaugeFromMaterial autoId p now sd jobs
                false (mkTx (idsDrawn w) [])) as Hw.
  destruct (firstBad (shortJob STANDARD_LENGTHS p) jobs) as [e|].
  - rewrite Hf. simpl. split; discriminate.
  - destruct Hf as ([] & st & Hf). rewrite Hf in *.
    destruct Hw as (ws & Hs & HF). simpl in Hs. subst.
    destruct (useWrite_commits p _ HF (store w) Hex) as (d' & ->).
    simpl. tauto.
Qed.

(** The requests of one line and the units taken for them. *)
Lemma useLen_run (p : params) (now : timestamp) (job : Job.t) (ref : string)
    (item : Item.t) (used : list Sheet.t) (len : Z) (st : txState) :
  shortLen p item len = None ->
  let sel := unitsOfLines p (if Item.qty item len >? 0
                             then [(Item.materialType item, len, Item.qty item len)]
                             else []) in
  useLen p now job ref item used len st
  = inr ((used ++ sel)%list,
         mkTx (nextAuto st)
              (staged st
               ++ map (usedWrite now ref (JS.orElse (JS.trim (Job.jobName job)) "N/A")
                                 (Job.customer job)) sel)%list).
Proof.
  intros Hs. apply shortLen_None in Hs. cbv zeta. unfold useLen.
  destruct (Z.leb_spec (Item.qty item len) 0) as [Hq|Hq].
  - replace (Item.qty item len >? 0) with false by (symmetry; rewrite Z.gtb_ltb; apply Z.ltb_ge; lia).
    simpl. unfold ret. rewrite !app_nil_r. now destruct st.
  - replace (Item.qty item len >? 0) with true by (symmetry; rewrite Z.gtb_ltb; apply Z.ltb_lt; lia).
    rewrite matching_len. fold (onHandCount (Item.materialType item) len (inventory p)).
    replace (onHandCount (Item.materialType item) len (inventory p) <? Item.qty item len)
      with false by (symmetry; apply Z.ltb_ge; lia).
    unfold bind.
    change (markUsed now ref (JS.orElse (JS.trim (Job.jobName job)) "N/A") (Job.customer job))
      with (fun s => stage (usedWrite now ref (JS.orElse (JS.trim (Job.jobName job)) "N/A")
                              (Job.customer job) s)).
    rewrite forM_stage_run. unfold ret, unitsOfLines. simpl.
    rewrite !app_nil_r. reflexivity.
Qed.

Lemma useItems_run (STANDARD_LENGTHS : list Z) (p : params) (now : timestamp)
    (job : Job.t) (ref : string) (items : list Item.t) :
  (forall item len, In item items -> In len STANDARD_LENGTHS ->
                    shortLen p item len = None) ->
  forall used st,
    foldM (fun used item => foldM (useLen p now job ref item) STANDARD_LENGTHS used)
          items used st
    = inr ((used ++ unitsOfLines p (linesOfItems STANDARD_LENGTHS items))%list,
           mkTx (nextAuto st)
                (staged st
                 ++ map (usedWrite now ref (JS.orElse (JS.trim (Job.jobName job)) "N/A")
                                   (Job.customer job))
                        (unitsOfLines p (linesOfItems STANDARD_LENGTHS items)))%list).
Proof.
  intros Hs used st.
  unfold linesOfItems, unitsOfLines. rewrite flat_map_flat_map.
  apply foldM_select_run. intros item used' st' Hi.
  rewrite flat_map_flat_map.
  apply (foldM_select_run (useLen p now job ref item)
           (fun len => flat_map _ (if Item.qty item len >? 0 then _ else _))).
  intros len used'' st'' Hl. now apply useLen_run; auto.
Qed.

Lemma updatedIds_app (ws1 ws2 : list write) :
  updatedIds (ws1 ++ ws2) = (updatedIds ws1 ++ updatedIds ws2)%list.
Proof. unfold updatedIds. apply flat_map_app. Qed.

Lemma updatedIds_used (now : timestamp) (l j c : string) (units : list Sheet.t) :
  updatedIds (map (usedWrite now l j c) units) = map Sheet.id units.
Proof. induction units; simpl; auto. now f_equal. Qed.

Lemma usedOrLog_used (now : timestamp) (l j c : string) (units : list Sheet.t) :
  Forall usedOrLog (map (usedWrite now l j c) units).
Proof. apply Forall_forall. intros x Hx. apply in_map_iff in Hx. now destruct Hx as (? & <- & _). Qed.

Lemma unitsOfLines_app (p : params) (l1 l2 : list (string * Z * Z)) :
  unitsOfLines p (l1 ++ l2) = (unitsOfLines p l1 ++ unitsOfLines p l2)%list.
Proof. apply flat_map_app. Qed.

Lemma linesOf_cons (STANDARD_LENGTHS : list Z) (job : Job.t) (jobs : list Job.t) :
  linesOf STANDARD_LENGTHS (job :: jobs)
  = (linesOfItems STANDARD_LENGTHS (Job.items job) ++ linesOf STANDARD_LENGTHS jobs)%list.
Proof. reflexivity. Qed.

Lemma useJobs_run (STANDARD_LENGTHS : list Z) (getGaugeFromMaterial : string -> string)
    (autoId : nat -> string) (p : params) (now sd : timestamp) (jobs : list Job.t) :
  stocked STANDARD_LENGTHS p jobs ->
  forall n ws0,
  exists ws,
    useStockBody STANDARD_LENGTHS getGaugeFromMaterial autoId p now jobs false sd
                 (mkTx n ws0)
    = inr (tt, mkTx (n + List.length jobs) (ws0 ++ ws)%list)
    /\ updatedIds ws = map Sheet.id (unitsOfLines p (linesOf STANDARD_LENGTHS jobs))
    /\ Forall usedOrLog ws.
Proof.
  unfold useStockBody, forM_.
  induction jobs as [|job jobs IH]; intros Hst n ws0.
  - exists []. simpl. unfold ret. rewrite app_nil_r, Nat.add_0_r. auto.
  - assert (Hst' : stocked STANDARD_LENGTHS p jobs).
    { intros j i l Hj. apply Hst. now right. }
    cbn [foldM]. unfold bind at 1. unfold useJob at 1. unfold bind at 1.
    unfold newDoc at 1. cbn [nextAuto staged]. unfold bind at 1.
    rewrite useItems_run.
    2:{ intros item len Hi Hl. apply shortLen_None. apply (Hst job); auto. now left. }
    cbn [nextAuto staged app].
    set (U := unitsOfLines p (linesOfItems STANDARD_LENGTHS (Job.items job))).
    set (W := map (usedWrite now (autoId n)
                     (JS.orElse (JS.trim (Job.jobName job)) "N/A") (Job.customer job)) U).
    destruct (JS.len U >? 0).
    + unfold stage at 1. cbn [nextAuto staged].
      destruct (IH Hst' (S n) ((ws0 ++ W) ++ [SetLog (autoId n) (Log.mk (autoId n) (JS.orElse (JS.trim (Job.jobName job)) "N/A") (Job.customer job) now now (Some "Completed") (map Snapshot U) (- JS.len U) None)])%list)
        as (ws & Hrun & Hids & HF).
      exists (W ++ [SetLog (autoId n) (Log.mk (autoId n) (JS.orElse (JS.trim (Job.jobName job)) "N/A") (Job.customer job) now now (Some "Completed") (map Snapshot U) (- JS.len U) None)] ++ ws)%list.
      split; [|split].
      * rewrite Hrun. do 3 f_equal; [simpl; lia | now rewrite <- !app_assoc].
      * rewrite !updatedIds_app, Hids. subst W. rewrite updatedIds_used.
        rewrite linesOf_cons, unitsOfLines_app, map_app. reflexivity.
      * apply Forall_app. split; [apply usedOrLog_used|].
        constructor; simpl; auto.
    + unfold ret at 1.
      destruct (IH Hst' (S n) (ws0 ++ W)%list) as (ws & Hrun & Hids & HF).
      exists (W ++ ws)%list. split; [|split].
      * rewrite Hrun. do 3 f_equal; [simpl; lia | now rewrite <- !app_assoc].
      * rewrite !updatedIds_app, Hids. subst W. rewrite updatedIds_used.
        rewrite linesOf_cons, unitsOfLines_app, map_app. reflexivity.
      * apply Forall_app. split; [apply usedOrLog_used|auto].
Qed.

Lemma includesStr_true (l : list string) (x : string) :
  includesStr l x = true <-> In x l.
Proof.
  unfold includesStr. rewrite existsb_exists. split.
  - intros (y & Hy & E). apply String.eqb_eq in E. now subst.
  - intros H. exists x. split; auto. apply String.eqb_refl.
Qed.

Lemma includesStr_false (l : list string) (x : string) :
  includesStr l x = false <-> ~ In x l.
Proof.
  rewrite <- includesStr_true. destruct (includesStr l x); split; congruence.
Qed.

Lemma sheet_by_id (inv : list Sheet.t) (s u : Sheet.t) :
  NoDup (map Sheet.id inv) -> In s inv -> In u inv -> Sheet.id s = Sheet.id u -> s = u.
Proof.
  induction inv as [|a inv IH]; simpl; [contradiction|].
  intros Hnd Hs Hu E. inversion Hnd as [|? ? Hnotin Hnd']; subst.
  destruct Hs as [->|Hs], Hu as [->|Hu]; auto.
  - exfalso. apply Hnotin. rewrite E. now apply in_map.
  - exfalso. apply Hnotin. rewrite <- E. now apply in_map.
Qed.

(** The inventory after updates that mark units Used, and records. *)
Lemma commit_used (ws : list write) :
  Forall usedOrLog ws ->
  forall d,
    (forall i, In i (updatedIds ws) -> hasSheet i (inventoryCol d) = true) ->
    exists g logs',
      commit d ws = Some (mkDb (map g (inventoryCol d)) logs' (materialsCol d))
      /\ forall u,
           Sheet.id (g u) = Sheet.id u
           /\ (In (Sheet.id u) (updatedIds ws) -> Sheet.status (g u) = "Used")
           /\ (~ In (Sheet.id u) (updatedIds ws) -> g u = u).
Proof.
  induction 1 as [|x ws Hx Hws IH]; intros d Hex.
  - exists (fun u => u), (usageLogsCol d). simpl. rewrite map_id.
    split; [now destruct d|]. intros u. repeat split; auto. contradiction.
  - destruct x; simpl in Hx; try contradiction.
    + (* UpdateSheet *)
      subst status. simpl commit. rewrite (Hex id) by (simpl; now left).
      set (f := Sheet.withUsage "Used" usageLogId jobNameUsed customerUsed usedAt).
      set (d1 := mkDb _ _ _).
      destruct (IH d1) as (g' & logs' & Hc & Hg).
      { intros i Hi. subst d1. simpl. apply hasSheet_true.
        rewrite patchSheet_ids by reflexivity. apply hasSheet_true.
        apply Hex. simpl. now right. }
      exists (fun u => g' (if String.eqb (Sheet.id u) id then f u else u)), logs'.
      split.
      * rewrite Hc. subst d1. simpl. unfold patchSheet. now rewrite map_map.
      * intros u. simpl updatedIds.
        destruct (String.eqb_spec (Sheet.id u) id) as [E|E].
        -- destruct (Hg (f u)) as (H1 & H2 & H3). split; [exact H1|]. split.
           ++ intros _.
              destruct (in_dec string_dec (Sheet.id (f u)) (updatedIds ws)) as [Hi|Hi].
              ** auto.
              ** now rewrite (H3 Hi).
           ++ intros Hn. exfalso. apply Hn. now left.
        -- destruct (Hg u) as (H1 & H2 & H3). split; [exact H1|]. split.
           ++ intros [Hi|Hi]; [congruence|auto].
           ++ intros Hn. apply H3. intros Hi. apply Hn. now right.
    + (* SetLog *)
      simpl commit.
      set (d1 := mkDb _ _ _).
      destruct (IH d1) as (g' & logs' & Hc & Hg).
      { intros i Hi. subst d1. simpl. apply Hex. exact Hi. }
      exists g', logs'. split; [exact Hc|]. exact Hg.
Qed.

Lemma onHand_after (g : Sheet.t -> Sheet.t) (ids : list string) (m : string) (len : Z)
    (inv : list Sheet.t) :
  (forall u, Sheet.id (g u) = Sheet.id u
             /\ (In (Sheet.id u) ids -> Sheet.status (g u) = "Used")
             /\ (~ In (Sheet.id u) ids -> g u = u)) ->
  onHandCount m len (map g inv)
  = JS.len (filter (fun u => onHandAt m len u && negb (includesStr ids (Sheet.id u))) inv).
Proof.
  intros Hg. unfold onHandCount, JS.len. f_equal.
  induction inv as [|u inv IH]; simpl; auto.
  destruct (Hg u) as (_ & H2 & H3).
  destruct (includesStr ids (Sheet.id u)) eqn:E.
  - apply includesStr_true in E. specialize (H2 E).
    unfold onHandAt at 1. rewrite H2. simpl.
    rewrite !andb_false_r. exact IH.
  - apply includesStr_false in E. rewrite (H3 E), andb_true_r.
    destruct (onHandAt m len u); simpl; auto.
Qed.

Lemma firstn_le_In {A : Type} (n n' : nat) (l : list A) (x : A) :
  (n <= n')%nat -> In x (firstn n l) -> In x (firstn n' l).
Proof.
  revert n' l. induction n as [|n IH]; intros n' l Hle H; simpl in H; [contradiction|].
  destruct l as [|a l]; [contradiction|].
  destruct n' as [|n']; [lia|]. simpl. destruct H as [->|H]; auto.
  right. apply IH; auto. lia.
Qed.

Lemma maxRequested_ge (m : string) (len : Z) (lines : list (string * Z * Z))
    (line : string * Z * Z) :
  In line lines -> fst (fst line) = m -> snd (fst line) = len ->
  snd line <= maxRequested m len lines.
Proof.
  induction lines as [|l0 lines IH]; simpl; [contradiction|].
  intros [->|Hin] Hm Hl.
  - rewrite Hm, Hl, String.eqb_refl, Z.eqb_refl. simpl. lia.
  - specialize (IH Hin Hm Hl).
    destruct (String.eqb (fst (fst l0)) m && (snd (fst l0) =? len)); lia.
Qed.

Lemma maxRequested_attained (m : string) (len : Z) (lines : list (string * Z * Z)) :
  0 < maxRequested m len lines ->
  exists line, In line lines /\ fst (fst line) = m /\ snd (fst line) = len
               /\ snd line = maxRequested m len lines.
Proof.
  induction lines as [|l0 lines IH]; simpl; [lia|].
  destruct (String.eqb (fst (fst l0)) m && (snd (fst l0) =? len)) eqn:E.
  - apply andb_prop in E. destruct E as [E1 E2].
    apply String.eqb_eq in E1. apply Z.eqb_eq in E2.
    intros Hpos.
    destruct (Z.max_spec (snd l0) (maxRequested m len lines)) as [[Hlt Heq]|[Hge Heq]];
      rewrite Heq in *.
    + destruct (IH Hpos) as (line & Hin & H1 & H2 & H3). exists line. auto.
    + exists l0. auto.
  - intros Hpos. destruct (IH Hpos) as (line & Hin & H1 & H2 & H3). exists line. auto.
Qed.

Lemma maxRequested_bound (m : string) (len : Z) (lines : list (string * Z * Z)) (b : Z) :
  0 <= b ->
  (forall line, In line lines -> fst (fst line) = m -> snd (fst line) = len ->
                snd line <= b) ->
  0 <= maxRequested m len lines <= b.
Proof.
  intros Hb. induction lines as [|l0 lines IH]; simpl; intros H; [lia|].
  assert (IH' : 0 <= maxRequested m len lines <= b) by (apply IH; intros; apply H; auto).
  destruct (String.eqb (fst (fst l0)) m && (snd (fst l0) =? len)) eqn:E; [|lia].
  apply andb_prop in E. destruct E as [E1 E2].
  apply String.eqb_eq in E1. apply Z.eqb_eq in E2.
  specialize (H l0 (or_introl eq_refl) E1 E2). lia.
Qed.

Lemma lines_stocked (STANDARD_LENGTHS : list Z) (p : params) (jobs : list Job.t)
    (line : string * Z * Z) :
  stocked STANDARD_LENGTHS p jobs -> In line (linesOf STANDARD_LENGTHS jobs) ->
  0 < snd line <= onHandCount (fst (fst line)) (snd (fst line)) (inventory p).
Proof.
  intros Hst Hin. unfold linesOf in Hin. apply in_flat_map in Hin.
  destruct Hin as (job & Hj & Hin). unfold linesOfItems in Hin.
  apply in_flat_map in Hin. destruct Hin as (item & Hi & Hin).
  apply in_flat_map in Hin. destruct Hin as (len & Hl & Hin).
  destruct (Item.qty item len >? 0) eqn:E; [|contradiction].
  destruct Hin as [<-|[]]. simpl. split.
  - rewrite Z.gtb_ltb in E. now apply Z.ltb_lt.
  - now apply Hst with (job := job).
Qed.

Lemma onHandAt_key (m m' : string) (len len' : Z) (u : Sheet.t) :
  onHandAt m len u = true -> onHandAt m' len' u = true -> m' = m /\ len' = len.
Proof.
  unfold onHandAt. intros H H'.
  apply andb_prop in H. destruct H as [H _]. apply andb_prop in H. destruct H as [H1 H2].
  apply andb_prop in H'. destruct H' as [H' _]. apply andb_prop in H'.
  destruct H' as [H1' H2'].
  apply String.eqb_eq in H1, H1'. apply Z.eqb_eq in H2, H2'. split; congruence.
Qed.

Lemma matching_In (pred : Sheet.t -> bool) (pool : list Sheet.t) (s : Sheet.t) :
  In s (matching pred pool) <-> In s pool /\ pred s = true.
Proof.
  unfold matching. rewrite <- filter_In. split; intros H.
  - now apply (Permutation_in _ (Permutation_sym (sort_perm Sheet.createdAt _))) in H.
  - now apply (Permutation_in _ (sort_perm Sheet.createdAt _)).
Qed.

(** Among the units On Hand at a key, those an immediate use updates are
    the first, by age, up to the largest request for the key. *)
Lemma updated_at_key (p : params) (lines : list (string * Z * Z)) (m : string)
    (len : Z) (u : Sheet.t) :
  NoDup (map Sheet.id (inventory p)) ->
  In u (inventory p) -> onHandAt m len u = true ->
  includesStr (map Sheet.id (unitsOfLines p lines)) (Sheet.id u)
  = hasSheet (Sheet.id u)
      (firstn (Z.to_nat (maxRequested m len lines))
              (matching (onHandAt m len) (inventory p))).
Proof.
  intros Hnd Hu Hon.
  match goal with |- ?a = ?b => destruct a eqn:Ea; destruct b eqn:Eb; auto end.
  - (* updated, hence among the first *)
    exfalso. apply includesStr_true in Ea. apply in_map_iff in Ea.
    destruct Ea as (s & Hid & Hs). unfold unitsOfLines in Hs.
    apply in_flat_map in Hs. destruct Hs as (line & Hline & Hs).
    pose proof Hs as Hs'. apply selected_In in Hs'. destruct Hs' as [Hsin Hsp].
    assert (s = u) by (eapply sheet_by_id; eauto). subst s.
    destruct (onHandAt_key _ _ _ _ _ Hon Hsp) as [Hm Hl].
    rewrite Hm, Hl in Hs.
    assert (Hin : In u (firstn (Z.to_nat (maxRequested m len lines))
                           (matching (onHandAt m len) (inventory p)))).
    { pose proof (maxRequested_ge m len lines line Hline Hm Hl) as Hge.
      assert (Hle : (Z.to_nat (snd line)
                     <= Z.to_nat (maxRequested m len lines))%nat) by lia.
      exact (firstn_le_In _ _ _ _ Hle Hs). }
    assert (hasSheet (Sheet.id u)
              (firstn (Z.to_nat (maxRequested m len lines))
                      (matching (onHandAt m len) (inventory p))) = true).
    { apply hasSheet_true. now apply in_map. }
    congruence.
  - (* among the first, hence updated *)
    exfalso. apply hasSheet_true in Eb. apply in_map_iff in Eb.
    destruct Eb as (s & Hid & Hs).
    assert (Hs' : In s (inventory p)).
    { apply In_firstn in Hs. now apply matching_In in Hs. }
    assert (s = u) by (eapply sheet_by_id; eauto). subst s.
    assert (Hpos : 0 < maxRequested m len lines).
    { destruct (Z.to_nat (maxRequested m len lines)) eqn:E; [contradiction|lia]. }
    destruct (maxRequested_attained m len lines Hpos) as (line & Hline & Hm & Hl & Hq).
    assert (In (Sheet.id u) (map Sheet.id (unitsOfLines p lines))).
    { apply in_map. unfold unitsOfLines. apply in_flat_map. exists line.
      split; auto. rewrite Hm, Hl, Hq. exact Hs. }
    apply includesStr_true in H. congruence.
Qed.

(** X8: after a successful immediate use through [handleUseStock], by a
    client whose inventory is the store's, of units with unique ids, the On
    Hand stock of every key is lower by the largest single request for the
    key: requests for one key, in one call, are served from the same
    units. *)
Theorem use_lowers_stock (STANDARD_LENGTHS : list Z)
    (getGaugeFromMaterial : string -> string) (autoId : nat -> string)
    (p : params) (now sd : timestamp) (jobs : list Job.t) (w : world)
    (m : string) (len : Z) :
  inventory p = inventoryCol (store w) ->
  NoDup (map Sheet.id (inventoryCol (store w))) ->
  stocked STANDARD_LENGTHS p jobs ->
  onHandCount m len
    (inventoryCol (store (snd (handleUseStock STANDARD_LENGTHS getGaugeFromMaterial
                                 autoId p now jobs false sd w))))
  = onHandCount m len (inventoryCol (store w))
    - maxRequested m len (linesOf STANDARD_LENGTHS jobs).
Proof.
  intros Hsync Hnd Hst.
  destruct (useJobs_run STANDARD_LENGTHS getGaugeFromMaterial autoId p now sd jobs Hst
              (idsDrawn w) []) as (ws & Hrun & Hids & HF).
  unfold handleUseStock, runTransaction. rewrite Hrun. simpl app.
  destruct (commit_used ws HF (store w)) as (g & logs' & Hc & Hg).
  { intros i Hi. rewrite Hids in Hi. apply in_map_iff in Hi.
    destruct Hi as (s & <- & Hs). apply hasSheet_true. apply in_map.
    rewrite <- Hsync. unfold unitsOfLines in Hs. apply in_flat_map in Hs.
    destruct Hs as (line & _ & Hs). now apply selected_In in Hs. }
  cbn [staged nextAuto]. rewrite Hc. cbn [snd store inventoryCol].
  rewrite (onHand_after g (updatedIds ws) m len _ Hg), Hids.
  set (k := Z.to_nat (maxRequested m len (linesOf STANDARD_LENGTHS jobs))).
  assert (Hbound : 0 <= maxRequested m len (linesOf STANDARD_LENGTHS jobs)
                   <= onHandCount m len (inventory p)).
  { apply maxRequested_bound.
    - unfold onHandCount, JS.len. lia.
    - intros line Hl Hm Hlen. pose proof (lines_stocked _ _ _ _ Hst Hl) as Hb.
      rewrite Hm, Hlen in Hb. lia. }
  rewrite <- Hsync in *.
  rewrite (filter_ext_in _ (fun u => negb (hasSheet (Sheet.id u)
                                       (firstn k (matching (onHandAt m len) (inventory p))))
                                     && onHandAt m len u)).
  - rewrite <- filter_filter. unfold JS.len.
    rewrite count_after_removal; auto.
    + unfold onHandCount, JS.len in *. subst k. lia.
    + unfold onHandCount, JS.len in Hbound. subst k. lia.
  - intros u Hu. destruct (onHandAt m len u) eqn:Hon; [|now rewrite andb_false_r].
    rewrite (updated_at_key p _ m len u); auto. now rewrite andb_comm.
Qed.

(** ** Editing a scheduled record *)

(** X9: the edit of a record that the client holds as Scheduled checks no
    stock and touches no unit: it rewrites the job, the customer and the
    date of use of the stored record, replaces its details by the
    descriptors of the requests and its [qty] by their negated number, and
    leaves its status as stored; it fails, changing nothing, when the
    store has no such record. *)
Theorem scheduled_edit_rewrites_record (STANDARD_LENGTHS : list Z)
    (getGaugeFromMaterial : string -> string) (p : params) (now : timestamp)
    (originalLog : Log.t) (newLogData : LogData.t) (w : world) :
  statusIs (Log.status originalLog) "Scheduled" = true ->
  handleEditOutgoingLog STANDARD_LENGTHS getGaugeFromMaterial p now originalLog
                        newLogData w
  = if hasLog (Log.id originalLog) (usageLogsCol (store w))
    then (None,
          mkWorld
            (mkDb (inventoryCol (store w))
                  (patchLog (Log.id originalLog)
                     (fun r =>
                        Log.mk (Log.id r)
                               (JS.orElse (JS.trim (LogData.jobName newLogData)) "N/A")
                               (LogData.customer newLogData) (Log.createdAt r)
                               (LogData.date newLogData) (Log.status r)
                               (descriptorsOf STANDARD_LENGTHS getGaugeFromMaterial p
                                              (LogData.items newLogData))
                               (- requestedTotal STANDARD_LENGTHS
                                                 (LogData.items newLogData))
                               (Log.fulfilledAt r))
                     (usageLogsCol (store w)))
                  (materialsCol (store w)))
            (idsDrawn w))
    else (Some CommitFailed, w).
Proof.
  intros Hs. unfold handleEditOutgoingLog. rewrite Hs.
  pose proof (scheduledItems_spec STANDARD_LENGTHS getGaugeFromMaterial p
                (LogData.items newLogData)) as (Hq & _ & Hlen).
  pose proof (scheduledItems_details STANDARD_LENGTHS getGaugeFromMaterial p
                (LogData.items newLogData)) as Hd.
  destruct (scheduledItems _ _ _ _) as [newDetails totalItems]. simpl in *.
  unfold commitBatch. simpl.
  destruct (hasLog (Log.id originalLog) (usageLogsCol (store w))); auto.
  now rewrite Hq, Hlen, Hd.
Qed.

(** ** Deleting categories *)

Lemma commit_material_deletes (ids : list string) :
  forall d,
    commit d (map (fun id => DeleteMaterial (replaceSlash id)) ids)
    = Some (mkDb (inventoryCol d) (usageLogsCol d)
                 (filter (fun m => negb (includesStr (map replaceSlash ids) (Material.id m)))
                         (materialsCol d))).
Proof.
  induction ids as [|i ids IH]; intros [inv logs mats]; simpl.
  - now rewrite filter_true.
  - rewrite IH. simpl. unfold dropMaterial. rewrite filter_filter.
    do 2 f_equal. apply filter_ext. intros m. now rewrite negb_orb.
Qed.

Lemma commitChunks_all (chunks : list (list write)) :
  forall w d',
    commit (store w) (List.concat chunks) = Some d' ->
    commitChunks chunks w = (None, mkWorld d' (idsDrawn w)).
Proof.
  induction chunks as [|c cs IH]; intros w d' H; simpl in *.
  - injection H as <-. now destruct w.
  - rewrite commit_app in H. unfold commitBatch.
    destruct (commit (store w) c) as [d1|]; [|discriminate].
    now rewrite (IH (mkWorld d1 (idsDrawn w)) d' H).
Qed.

(** X10: the deletion of categories always succeeds, and its batches
    amount to one deletion: of the material documents whose id is that of a
    material of the categories, slashes replaced, and of the units whose id
    is that of a unit of such a material in the client's inventory; records
    are untouched.  When that inventory is the store's and unit ids are
    unique, the units left are those of the other materials. *)
Theorem delete_categories_effect (p : params) (w : world) :
  handleConfirmDeleteCategories p w
  = (None,
     mkWorld
       (mkDb (filter (fun s => negb (hasSheet (Sheet.id s) (inventoryToDelete p)))
                     (inventoryCol (store w)))
             (usageLogsCol (store w))
             (filter (fun m => negb (includesStr (map replaceSlash (materialIdsToDelete p))
                                                 (Material.id m)))
                     (materialsCol (store w))))
       (idsDrawn w))
  /\ (inventory p = inventoryCol (store w) ->
      NoDup (map Sheet.id (inventoryCol (store w))) ->
      filter (fun s => negb (hasSheet (Sheet.id s) (inventoryToDelete p)))
             (inventoryCol (store w))
      = filter (fun s => negb (includesStr (materialIdsToDelete p) (Sheet.materialType s)))
               (inventoryCol (store w))).
Proof.
  split.
  - unfold handleConfirmDeleteCategories. apply commitChunks_all.
    rewrite (proj1 (deleteBatches_spec p)). unfold allDocRefsToDelete.
    rewrite commit_app, commit_material_deletes, commit_deletes. reflexivity.
  - intros Hsync Hnd. apply filter_ext_in. intros s Hs. f_equal.
    destruct (includesStr (materialIdsToDelete p) (Sheet.materialType s)) eqn:E.
    + apply hasSheet_true. apply in_map. unfold inventoryToDelete.
      apply filter_In. split; auto. now rewrite Hsync.
    + apply hasSheet_false. intros Hin. apply in_map_iff in Hin.
      destruct Hin as (s' & Hid & Hs'). unfold inventoryToDelete in Hs'.
      apply filter_In in Hs'. destruct Hs' as [Hs' Hm]. rewrite Hsync in Hs'.
      assert (s' = s) by (eapply sheet_by_id; eauto). subst s'. congruence.
Qed.

(** ** Receiving an order *)

Lemma withReceipt_twice (st : string) (t : timestamp) (u : Sheet.t) :
  Sheet.withReceipt st t (Sheet.withReceipt st t u) = Sheet.withReceipt st t u.
Proof. reflexivity. Qed.





Lemma hasSheet_map (g : Sheet.t -> Sheet.t) (j : string) (l : list Sheet.t) :
  (forall u, Sheet.id (g u) = Sheet.id u) -> hasSheet j (map g l) = hasSheet j l.
Proof.
  intros Hg. unfold hasSheet. induction l as [|u l IH]; simpl; auto.
  now rewrite IH, Hg.
Qed.



(** ** Creating and editing an order *)

Section Orders.
Variable STANDARD_LENGTHS : list Z.
Variable getGaugeFromMaterial : string -> string.
Variable autoId : nat -> string.

Lemma setWrites_app (us1 us2 : list Sheet.t) :
  forall n,
    setWrites autoId n (us1 ++ us2)
    = (setWrites autoId n us1 ++ setWrites autoId (n + List.length us1) us2)%list.
Proof.
  induction us1 as [|u us1 IH]; intros n; simpl.
  - now rewrite Nat.add_0_r.
  - rewrite IH. do 3 f_equal. lia.
Qed.

Lemma withIds_app (us1 us2 : list Sheet.t) :
  forall n,
    withIds autoId n (us1 ++ us2)
    = (withIds autoId n us1 ++ withIds autoId (n + List.length us1) us2)%list.
Proof.
  induction us1 as [|u us1 IH]; intros n; simpl.
  - now rewrite Nat.add_0_r.
  - rewrite IH. do 3 f_equal. lia.
Qed.

Lemma withIds_length (us : list Sheet.t) :
  forall n, List.length (withIds autoId n us) = List.length us.
Proof. induction us; intros n; simpl; auto. Qed.

Lemma forM_alloc_run {A : Type} (f : A -> Tx unit) (U : A -> list Sheet.t)
    (l : list A) :
  (forall a n ws, In a l ->
     f a (mkTx n ws)
     = inr (tt, mkTx (n + List.length (U a)) (ws ++ setWrites autoId n (U a))%list)) ->
  forall n ws,
    forM_ l f (mkTx n ws)
    = inr (tt, mkTx (n + List.length (flat_map U l))
                    (ws ++ setWrites autoId n (flat_map U l))%list).
Proof.
  unfold forM_. induction l as [|a l IH]; intros Hf n ws; simpl.
  - unfold ret. now rewrite Nat.add_0_r, app_nil_r.
  - unfold bind. rewrite Hf by now left.
    rewrite IH by (intros; apply Hf; now right).
    rewrite length_app, setWrites_app. do 3 f_equal; [lia|].
    now rewrite <- app_assoc.
Qed.

Lemma repeatM_alloc_run (mkUnit : string -> Sheet.t) (u : Sheet.t) (k : nat) :
  (forall r, mkUnit r = Sheet.withId r u) ->
  forall n ws,
    repeatM k (bind (newDoc autoId) (fun r => stage (SetSheet r (mkUnit r)))) (mkTx n ws)
    = inr (tt, mkTx (n + List.length (repeat u k))
                    (ws ++ setWrites autoId n (repeat u k))%list).
Proof.
  intros Hu. induction k as [|k IH]; intros n ws; simpl.
  - unfold ret. now rewrite Nat.add_0_r, app_nil_r.
  - unfold bind at 1. unfold bind at 1. unfold newDoc at 1, stage at 1. simpl.
    rewrite IH, Hu. do 3 f_equal; [lia|]. now rewrite <- app_assoc.
Qed.

Lemma addOrEditOrderBody_run (now : timestamp) (jobs : list Job.t)
    (originalOrderGroup : option Group.t) (c : timestamp) (n : nat) :
  orderCreatedAt now originalOrderGroup = Some c ->
  let units := orderUnits STANDARD_LENGTHS getGaugeFromMaterial c jobs in
  addOrEditOrderBody STANDARD_LENGTHS getGaugeFromMaterial autoId now jobs
                     originalOrderGroup (mkTx n [])
  = inr (tt, mkTx (n + List.length units)
                  (match originalOrderGroup with
                   | Some g => map (fun item => DeleteSheet (Sheet.id item))
                                   (Group.details g)
                   | None => []
                   end ++ setWrites autoId n units)%list).
Proof.
  intros Hc units. unfold addOrEditOrderBody. unfold bind at 1.
  assert (Hdel :
    match originalOrderGroup with
    | Some g => forM_ (Group.details g) (fun item => stage (DeleteSheet (Sheet.id item)))
    | None => ret tt
    end (mkTx n [])
    = inr (tt, mkTx n (match originalOrderGroup with
                       | Some g => map (fun item => DeleteSheet (Sheet.id item))
                                       (Group.details g)
                       | None => []
                       end))).
  { destruct originalOrderGroup as [g|]; [|reflexivity].
    now rewrite forM_stage_run. }
  rewrite Hdel. subst units. unfold orderUnits.
  apply forM_alloc_run. intros job n1 ws1 _.
  apply forM_alloc_run. intros item n2 ws2 _.
  apply forM_alloc_run. intros len n3 ws3 _.
  fold (orderCreatedAt now originalOrderGroup). rewrite Hc.
  apply repeatM_alloc_run. reflexivity.
Qed.

Hypothesis autoId_inj : forall i j, autoId i = autoId j -> i = j.

Lemma commit_setWrites (us : list Sheet.t) :
  forall n d,
    (forall j, (n <= j)%nat -> hasSheet (autoId j) (inventoryCol d) = false) ->
    commit d (setWrites autoId n us)
    = Some (mkDb (inventoryCol d ++ withIds autoId n us)%list
                 (usageLogsCol d) (materialsCol d)).
Proof.
  induction us as [|u us IH]; intros n d Hfresh; simpl.
  - rewrite app_nil_r. now destruct d.
  - rewrite (Hfresh n) by lia. rewrite IH; simpl.
    + rewrite <- app_assoc. reflexivity.
    + intros j Hj. rewrite hasSheet_app, (Hfresh j) by lia. simpl.
      rewrite orb_false_r. apply String.eqb_neq. intros E.
      apply autoId_inj in E. lia.
Qed.

Lemma orderUnits_length (c : timestamp) (jobs : list Job.t) :
  JS.len (orderUnits STANDARD_LENGTHS getGaugeFromMaterial c jobs)
  = fold_right (fun job acc => requestedTotal STANDARD_LENGTHS (Job.items job) + acc)
               0 jobs.
Proof.
  unfold JS.len, orderUnits.
  induction jobs as [|job jobs IH]; simpl; auto.
  rewrite length_app, Nat2Z.inj_add, IH. f_equal. clear IH.
  unfold requestedTotal.
  induction (Job.items job) as [|item items IH]; simpl; auto.
  rewrite length_app, Nat2Z.inj_add, IH, requested_lens_acc. f_equal. clear IH.
  induction STANDARD_LENGTHS as [|len lens IH]; simpl; auto.
  rewrite length_app, Nat2Z.inj_add, IH, repeat_length. lia.
Qed.

Lemma commit_setWrites_put (us : list Sheet.t) :
  forall n d,
    commit d (setWrites autoId n us)
    = Some (mkDb (fold_left putSheet (withIds autoId n us) (inventoryCol d))
                 (usageLogsCol d) (materialsCol d)).
Proof.
  induction us as [|u us IH]; intros n d; simpl.
  - now destruct d.
  - now rewrite IH.
Qed.

Lemma putSheet_In (inv : list Sheet.t) (u x : Sheet.t) :
  In x (putSheet inv u) -> In x inv \/ x = u.
Proof.
  unfold putSheet. destruct (hasSheet (Sheet.id u) inv).
  - unfold patchSheet. intros H. apply in_map_iff in H. destruct H as (v & <- & Hv).
    destruct (String.eqb (Sheet.id v) (Sheet.id u)); auto.
  - intros H. apply in_app_or in H. destruct H as [H|[<-|[]]]; auto.
Qed.

Lemma putSheet_has (inv : list Sheet.t) (u : Sheet.t) : In u (putSheet inv u).
Proof.
  unfold putSheet. destruct (hasSheet (Sheet.id u) inv) eqn:E.
  - unfold hasSheet in E. apply existsb_exists in E. destruct E as (v & Hv & Hid).
    unfold patchSheet. apply in_map_iff. exists v. split; auto. now rewrite Hid.
  - apply in_or_app. right. now left.
Qed.

Lemma putSheet_keeps_dated (c : timestamp) (inv : list Sheet.t) (u : Sheet.t)
    (i : string) :
  Sheet.createdAt u = c ->
  (exists x, In x inv /\ Sheet.id x = i /\ Sheet.createdAt x = c) ->
  exists x, In x (putSheet inv u) /\ Sheet.id x = i /\ Sheet.createdAt x = c.
Proof.
  intros Hu (x & Hx & Hid & Hc). unfold putSheet.
  destruct (hasSheet (Sheet.id u) inv).
  - destruct (String.eqb (Sheet.id x) (Sheet.id u)) eqn:E.
    + exists u. split; [|split; auto].
      * unfold patchSheet. apply in_map_iff. exists x. now rewrite E.
      * apply String.eqb_eq in E. congruence.
    + exists x. split; auto. unfold patchSheet. apply in_map_iff. exists x.
      now rewrite E.
  - exists x. split; auto. apply in_or_app. now left.
Qed.

Lemma putSheets_In (us : list Sheet.t) :
  forall inv x, In x (fold_left putSheet us inv) -> In x inv \/ In x us.
Proof.
  induction us as [|u us IH]; intros inv x; simpl; auto.
  intros H. apply IH in H. destruct H as [H|H]; auto.
  apply putSheet_In in H. destruct H; auto.
Qed.

Lemma putSheets_dated (c : timestamp) (us : list Sheet.t) :
  Forall (fun u => Sheet.createdAt u = c) us ->
  forall inv,
    (forall i, (exists x, In x inv /\ Sheet.id x = i /\ Sheet.createdAt x = c) ->
               exists x, In x (fold_left putSheet us inv)
                         /\ Sheet.id x = i /\ Sheet.createdAt x = c)
    /\ (forall u, In u us ->
                  exists x, In x (fold_left putSheet us inv)
                            /\ Sheet.id x = Sheet.id u /\ Sheet.createdAt x = c).
Proof.
  induction 1 as [|u us Hu Hus IH]; intros inv; simpl.
  - split; [auto | intros u []].
  - destruct (IH (putSheet inv u)) as [IH1 IH2]. split.
    + intros i Hi. apply IH1. now apply putSheet_keeps_dated.
    + intros v [<-|Hv]; [|now apply IH2].
      apply IH1. exists u. split; [apply putSheet_has|auto].
Qed.

Lemma withIds_dated (c : timestamp) (us : list Sheet.t) :
  Forall (fun u => Sheet.createdAt u = c) us ->
  forall n, Forall (fun u => Sheet.createdAt u = c) (withIds autoId n us).
Proof.
  induction 1; intros n; simpl; constructor; auto.
Qed.

Lemma orderUnits_dated (c : timestamp) (jobs : list Job.t) :
  Forall (fun u => Sheet.createdAt u = c)
         (orderUnits STANDARD_LENGTHS getGaugeFromMaterial c jobs).
Proof.
  apply Forall_forall. intros u Hu. unfold orderUnits in Hu.
  apply in_flat_map in Hu. destruct Hu as (job & _ & Hu).
  apply in_flat_map in Hu. destruct Hu as (item & _ & Hu).
  apply in_flat_map in Hu. destruct Hu as (len & _ & Hu).
  apply repeat_spec in Hu. now subst u.
Qed.

(** A loop whose body throws [InvalidData] or does nothing does the same. *)
Lemma forM_undated {A : Type} (l : list A) (f : A -> Tx unit) :
  (forall a st, f a st = inl InvalidData \/ f a st = inr (tt, st)) ->
  forall st, forM_ l f st = inl InvalidData \/ forM_ l f st = inr (tt, st).
Proof.
  intros Hf. unfold forM_. induction l as [|a l IH]; intros st; simpl.
  - now right.
  - unfold bind. destruct (Hf a st) as [-> | ->]; [now left|]. apply IH.
Qed.

Lemma order_body_undated (now : timestamp) (jobs : list Job.t) (g : Group.t)
    (n : nat) :
  orderCreatedAt now (Some g) = None ->
  let body := addOrEditOrderBody STANDARD_LENGTHS getGaugeFromMaterial autoId now jobs
                (Some g) (mkTx n []) in
  body = inl InvalidData
  \/ body = inr (tt, mkTx n (map (fun item => DeleteSheet (Sheet.id item))
                                 (Group.details g))).
Proof.
  intros Hc body.
  destruct g as [d o ds]. simpl in Hc. destruct d; [discriminate|]. subst o.
  assert (E : body
              = forM_ jobs (fun job =>
                  forM_ (Job.items job) (fun item =>
                    forM_ STANDARD_LENGTHS (fun len =>
                      repeatM (Z.to_nat (Item.qty item len))
                              (bind (newDoc autoId) (fun _ => throw InvalidData)))))
                  (mkTx n (map (fun item => DeleteSheet (Sheet.id item)) ds))).
  { subst body. unfold addOrEditOrderBody. unfold bind at 1.
    now rewrite forM_stage_run. }
  rewrite E. cbn [Group.details].
  apply forM_undated. intros job st. apply forM_undated. intros item st1.
  apply forM_undated. intros len st2.
  destruct (Z.to_nat (Item.qty item len)); simpl; [now right | now left].
Qed.

(** C10: an order made with an original group whose date is defined ([date],
    or [dateOrdered] when there is no [date]) succeeds; the units of the
    group are deleted and every unit it creates is set, under the next
    generated id, with that date as its [createdAt], not the time of the
    call: every unit created is in the store afterwards under its id with
    that date, and the store holds nothing but the units kept and the
    units created.  Without an original group the date is the time of the
    call.  With an original group that has no date at all no unit is
    created: the call fails on the first unit to create, or, nothing being
    requested, only deletes the units of the group. *)
Theorem order_units_createdAt (now : timestamp) (jobs : list Job.t)
    (originalOrderGroup : option Group.t) (w : world) :
  let r := handleAddOrEditOrder STANDARD_LENGTHS getGaugeFromMaterial autoId now jobs
             originalOrderGroup w in
  let kept := keptUnits originalOrderGroup (inventoryCol (store w)) in
  match match originalOrderGroup with
        | Some g => match Group.date g with
                    | Some d => Some d
                    | None => Group.dateOrdered g
                    end
        | None => Some now
        end with
  | Some c =>
      let units :=
        withIds autoId (idsDrawn w)
                (orderUnits STANDARD_LENGTHS getGaugeFromMaterial c jobs) in
      let inv' := fold_left putSheet units kept in
      r = (None,
           mkWorld (mkDb inv' (usageLogsCol (store w)) (materialsCol (store w)))
                   (idsDrawn w + List.length units))
      /\ JS.len units
         = fold_right (fun job acc =>
                         requestedTotal STANDARD_LENGTHS (Job.items job) + acc) 0 jobs
      /\ Forall (fun u => Sheet.createdAt u = c) units
      /\ (forall u, In u units ->
            exists u', In u' inv' /\ Sheet.id u' = Sheet.id u
                       /\ Sheet.createdAt u' = c)
      /\ (forall u', In u' inv' -> In u' kept \/ In u' units)
  | None =>
      r = (Some InvalidData, w)
      \/ r = (None,
              mkWorld (mkDb kept (usageLogsCol (store w)) (materialsCol (store w)))
                      (idsDrawn w))
  end.
Proof.
  intros r kept. fold (orderCreatedAt now originalOrderGroup).
  destruct (orderCreatedAt now originalOrderGroup) as [c|] eqn:Hc.
  - cbv zeta.
    set (units := withIds autoId (idsDrawn w)
                    (orderUnits STANDARD_LENGTHS getGaugeFromMaterial c jobs)).
    assert (Hdated : Forall (fun u => Sheet.createdAt u = c) units)
      by (apply withIds_dated, orderUnits_dated).
    split; [|split; [|split; [exact Hdated|split]]].
    + subst r. unfold handleAddOrEditOrder, runTransaction.
      rewrite (addOrEditOrderBody_run now jobs originalOrderGroup c _ Hc).
      cbv zeta. cbn [staged nextAuto]. rewrite commit_app.
      subst kept units. rewrite withIds_length.
      destruct originalOrderGroup as [g|].
      * rewrite commit_deletes. now rewrite commit_setWrites_put.
      * simpl commit at 1. cbv iota beta. now rewrite commit_setWrites_put.
    + subst units. unfold JS.len. rewrite withIds_length. apply orderUnits_length.
    + apply (putSheets_dated c units Hdated kept).
    + apply putSheets_In.
  - destruct originalOrderGroup as [g|]; [|discriminate].
    subst r. unfold handleAddOrEditOrder, runTransaction.
    destruct (order_body_undated now jobs g (idsDrawn w) Hc) as [-> | ->].
    + now left.
    + right. cbn [staged nextAuto]. now rewrite commit_deletes.
Qed.

(** X12: an order whose creation date is defined succeeds when generated
    ids are distinct and not in use: the inventory becomes the units kept
    (all of them, or, for an edit, those that have not the id of a unit of
    the original group) followed by the units ordered, under the next
    generated ids: for every job, item and standard length, in order, as
    many units as the quantity, none for a quantity that is not positive. *)
Theorem order_adds_requested_units (now : timestamp) (jobs : list Job.t)
    (originalOrderGroup : option Group.t) (c : timestamp) (w : world) :
  (forall j, (idsDrawn w <= j)%nat ->
             hasSheet (autoId j) (inventoryCol (store w)) = false) ->
  orderCreatedAt now originalOrderGroup = Some c ->
  let kept :=
    match originalOrderGroup with
    | Some g => filter (fun s => negb (hasSheet (Sheet.id s) (Group.details g)))
                       (inventoryCol (store w))
    | None => inventoryCol (store w)
    end in
  let units := orderUnits STANDARD_LENGTHS getGaugeFromMaterial c jobs in
  handleAddOrEditOrder STANDARD_LENGTHS getGaugeFromMaterial autoId now jobs
                       originalOrderGroup w
  = (None,
     mkWorld (mkDb (kept ++ withIds autoId (idsDrawn w) units)%list
                   (usageLogsCol (store w)) (materialsCol (store w)))
             (idsDrawn w + List.length units))
  /\ JS.len units
     = fold_right (fun job acc => requestedTotal STANDARD_LENGTHS (Job.items job) + acc)
                  0 jobs.
Proof.
  intros Hfresh Hc kept units. split; [|apply orderUnits_length].
  unfold handleAddOrEditOrder, runTransaction.
  rewrite (addOrEditOrderBody_run now jobs originalOrderGroup c _ Hc).
  cbv zeta. fold units. cbn [staged nextAuto].
  rewrite commit_app.
  destruct originalOrderGroup as [g|].
  - rewrite commit_deletes. rewrite commit_setWrites; [reflexivity|].
    intros j Hj. simpl. apply hasSheet_false. intros Hin.
    apply in_map_iff in Hin. destruct Hin as (s & Hid & Hs).
    apply filter_In in Hs. destruct Hs as [Hs _].
    specialize (Hfresh j Hj). apply hasSheet_false in Hfresh. apply Hfresh.
    rewrite <- Hid. now apply in_map.
  - simpl commit at 1. cbv iota beta. now rewrite commit_setWrites.
Qed.

End Orders.

(** ** The net change of an edit and its stock check *)

Section NetChange.
Variable STANDARD_LENGTHS : list Z.
Variable getGaugeFromMaterial : string -> string.

Lemma netChange_lens (item : Item.t) (k : string) (lens : list Z) :
  forall acc,
    Obj.getOr0
      (fold_left (fun netChange len =>
                    let qty := Item.qty item len in
                    if qty >? 0 then
                      let key := keyOf (Item.materialType item) len in
                      Obj.set netChange key (Obj.getOr0 netChange key - qty)
                    else netChange)
                 lens acc) k
    = Obj.getOr0 acc k
      - fold_right (fun len acc' =>
                      (if (Item.qty item len >? 0)
                          && String.eqb (keyOf (Item.materialType item) len) k
                       then Item.qty item len else 0) + acc')
                   0 lens.
Proof.
  induction lens as [|len lens IH]; intros acc; simpl; [lia|].
  rewrite IH. destruct (Item.qty item len >? 0); simpl; [|lia].
  rewrite Obj_getOr0_set.
  destruct (String.eqb_spec (keyOf (Item.materialType item) len) k) as [->|Hne]; lia.
Qed.

Lemma requestedAt_lens_acc (item : Item.t) (k : string) (lens : list Z) (a : Z) :
  fold_right (fun len acc' =>
                (if (Item.qty item len >? 0)
                    && String.eqb (keyOf (Item.materialType item) len) k
                 then Item.qty item len else 0) + acc')
             a lens
  = fold_right (fun len acc' =>
                  (if (Item.qty item len >? 0)
                      && String.eqb (keyOf (Item.materialType item) len) k
                   then Item.qty item len else 0) + acc')
               0 lens + a.
Proof. induction lens as [|len lens IH]; simpl; [lia|]. rewrite IH. lia. Qed.

Lemma netChange_items (k : string) (items : list Item.t) :
  forall acc,
    Obj.getOr0
      (fold_left (fun netChange item =>
         fold_left (fun netChange len =>
                      let qty := Item.qty item len in
                      if qty >? 0 then
                        let key := keyOf (Item.materialType item) len in
                        Obj.set netChange key (Obj.getOr0 netChange key - qty)
                      else netChange)
                   STANDARD_LENGTHS netChange)
         items acc) k
    = Obj.getOr0 acc k - requestedAt STANDARD_LENGTHS k items.
Proof.
  induction items as [|item items IH]; intros acc; simpl; [lia|].
  rewrite IH, netChange_lens. unfold requestedAt. simpl.
  rewrite (requestedAt_lens_acc item k STANDARD_LENGTHS
             (fold_right _ 0 items)).
  fold (requestedAt STANDARD_LENGTHS k items). lia.
Qed.

Lemma netChangeOf_get (originalLog : Log.t) (newLogData : LogData.t) (k : string) :
  Obj.getOr0 (netChangeOf STANDARD_LENGTHS originalLog newLogData) k
  = countKey k (Log.details originalLog)
    - requestedAt STANDARD_LENGTHS k (LogData.items newLogData).
Proof.
  unfold netChangeOf. cbv zeta. rewrite netChange_items.
  now rewrite (proj1 (proj2 (tally_spec (Log.details originalLog)))).
Qed.

Lemma editCheck_fails (p : params) (entry : string * Z) :
  failsBy (editCheck p entry) (editShort p entry).
Proof.
  destruct entry as [key change]. unfold editCheck, editShort. cbn [fst snd].
  destruct (change <? 0); simpl; [|apply failsBy_ret].
  change (fun i : Sheet.t =>
            String.eqb (Sheet.materialType i) (hd EmptyString (JS.splitBar key))
            && lengthIs i (JS.parseInt (nth_error (JS.splitBar key) 1))
            && String.eqb (Sheet.status i) "On Hand")
    with (fulfilPred key).
  destruct (_ <? Z.abs change); [apply failsBy_throw | apply failsBy_ret].
Qed.

(** X13: the net change an edit of a completed record computes for a key
    is the number of details the record has of the key, less the units
    requested for it. *)
Theorem net_change_per_key (originalLog : Log.t) (newLogData : LogData.t) (k : string) :
  Obj.getOr0 (netChangeOf STANDARD_LENGTHS originalLog newLogData) k
  = countKey k (Log.details originalLog)
    - requestedAt STANDARD_LENGTHS k (LogData.items newLogData).
Proof.
  unfold netChangeOf. cbv zeta. rewrite netChange_items. f_equal.
  destruct (tally_fold (Log.details originalLog) [] (NoDup_nil _))
    as (_ & Hget & _).
  { intros k0 q []. }
  rewrite (Hget k). unfold Obj.getOr0. simpl. lia.
Qed.

Lemma edit_short_key (p : params) (now : timestamp) (originalLog : Log.t)
    (newLogData : LogData.t) (w : world) (k : string) :
  statusIs (Log.status originalLog) "Scheduled" = false ->
  JS.len (filter (fulfilPred k) (inventory p))
  < requestedAt STANDARD_LENGTHS k (LogData.items newLogData)
    - countKey k (Log.details originalLog) ->
  exists materialType length needed available,
    handleEditOutgoingLog STANDARD_LENGTHS getGaugeFromMaterial p now originalLog
                          newLogData w
    = (Some (EditNotEnoughStock materialType length needed available), w)
    /\ available < needed.
Proof.
  intros Hs Hshort.
  set (netChange := netChangeOf STANDARD_LENGTHS originalLog newLogData).
  pose proof (netChangeOf_get originalLog newLogData k) as Hget.
  fold netChange in Hget.
  assert (H0 : 0 <= JS.len (filter (fulfilPred k) (inventory p)))
    by (unfold JS.len; lia).
  assert (Hentry : In (k, Obj.getOr0 netChange k) netChange).
  { apply Obj_get_In. unfold Obj.getOr0 in *.
    destruct (Obj.get netChange k); [reflexivity|lia]. }
  assert (Hbad : editShort p (k, Obj.getOr0 netChange k) <> None).
  { unfold editShort. cbn [fst snd].
    replace (Obj.getOr0 netChange k <? 0) with true
      by (symmetry; apply Z.ltb_lt; lia).
    replace (JS.len (filter (fulfilPred k) (inventory p))
             <? Z.abs (Obj.getOr0 netChange k)) with true
      by (symmetry; apply Z.ltb_lt; lia).
    discriminate. }
  destruct (firstBad (editShort p) netChange) as [e|] eqn:Efb.
  - destruct (firstBad_Some _ _ _ Efb) as ([k' q] & _ & He).
    unfold editShort in He. cbn [fst snd] in He.
    destruct (q <? 0); simpl in He; [|discriminate].
    destruct (_ <? Z.abs q) eqn:Hlt; [|discriminate].
    injection He as <-. do 4 eexists. split.
    + unfold handleEditOutgoingLog. rewrite Hs. unfold runTransaction.
      unfold editCompletedBody. cbv zeta. fold netChange.
      pose proof (failsBy_foldM (fun _ a => editCheck p a) (editShort p) netChange
                    (fun _ a _ => editCheck_fails p a) tt) as Hf.
      rewrite Efb in Hf. unfold bind at 1. unfold forM_ at 1. rewrite Hf. reflexivity.
    + now apply Z.ltb_lt.
  - exfalso. apply Hbad. eapply firstBad_None in Efb; eauto.
Qed.

(** X14: an edit of a record that is not Scheduled throws the error of
    its stock check, and changes nothing, when for some key it asks for
    more units than the record has details of the key, by a number that
    exceeds the units On Hand, in the client's inventory, of the material
    and length read back from the key (the part before its first bar, and
    the number parsed from the part after it).  For a material whose name
    holds no bar and a length that is a safe integer these are the units
    On Hand of that material and length. *)
Theorem edit_stock_check_fails (p : params) (now : timestamp) (originalLog : Log.t)
    (newLogData : LogData.t) (w : world) :
  statusIs (Log.status originalLog) "Scheduled" = false ->
  (forall k,
      JS.len (filter (fulfilPred k) (inventory p))
      < requestedAt STANDARD_LENGTHS k (LogData.items newLogData)
        - countKey k (Log.details originalLog) ->
      exists materialType length needed available,
        handleEditOutgoingLog STANDARD_LENGTHS getGaugeFromMaterial p now originalLog
                              newLogData w
        = (Some (EditNotEnoughStock materialType length needed available), w)
        /\ available < needed)
  /\ (forall m len,
        noBar m = true -> JS.isSafeInteger len = true ->
        onHandCount m len (inventory p)
        < requestedAt STANDARD_LENGTHS (keyOf m len) (LogData.items newLogData)
          - countKey (keyOf m len) (Log.details originalLog) ->
        exists materialType length needed available,
          handleEditOutgoingLog STANDARD_LENGTHS getGaugeFromMaterial p now originalLog
                                newLogData w
          = (Some (EditNotEnoughStock materialType length needed available), w)
          /\ available < needed).
Proof.
  intros Hs. split.
  - intros k. now apply edit_short_key.
  - intros m len Hm Hsafe Hshort.
    apply (edit_short_key p now originalLog newLogData w (keyOf m len) Hs).
    rewrite (filter_ext _ _ (fun i => fulfilPred_key m len i Hm Hsafe)).
    exact Hshort.
Qed.

End NetChange.

(** ** The modal's use *)

Section Modal.
Variable STANDARD_LENGTHS : list Z.
Variable autoId : nat -> string.

Lemma modalLen_fails (inventory : list Sheet.t) (item : Item.t) (used : list detail)
    (len : Z) :
  failsBy (modalLen inventory item used len) (modalShortLen inventory item len).
Proof.
  unfold modalLen, modalShortLen.
  change (fun i : Sheet.t =>
            String.eqb (Sheet.materialType i) (Item.materialType item)
            && (Sheet.length i =? len)
            && negb (String.eqb (Sheet.status i) "Ordered"))
    with (modalPred (Item.materialType item) len).
  rewrite matching_len.
  destruct (Z.leb_spec (Item.qty item len) 0) as [Hq|Hq].
  - replace (0 <? Item.qty item len) with false by (symmetry; apply Z.ltb_ge; lia).
    apply failsBy_ret.
  - replace (0 <? Item.qty item len) with true by (symmetry; apply Z.ltb_lt; lia).
    simpl. destruct (_ <? Item.qty item len).
    + apply failsBy_throw.
    + apply failsBy_bind; [|intros; apply failsBy_ret].
      apply failsBy_forM_ok. intros s. apply failsBy_stage.
Qed.

Lemma modalSubmitBody_fails (inventory : list Sheet.t) (now : timestamp)
    (jobs : list Job.t) :
  failsBy (modalSubmitBody STANDARD_LENGTHS autoId inventory now jobs)
          (firstBad (fun job =>
                       firstBad (fun item =>
                                   firstBad (modalShortLen inventory item)
                                            STANDARD_LENGTHS)
                                (Job.items job))
                    jobs).
Proof.
  unfold modalSubmitBody, forM_. apply failsBy_foldM. intros _ job _.
  unfold modalJob.
  set (bad := firstBad (fun item => firstBad (modalShortLen inventory item)
                                             STANDARD_LENGTHS) (Job.items job)).
  assert (H : forall used,
             failsBy (foldM (fun used item =>
                               foldM (modalLen inventory item) STANDARD_LENGTHS used)
                            (Job.items job) used) bad).
  { apply failsBy_foldM. intros used item _.
    apply failsBy_foldM. intros used' len _. apply modalLen_fails. }
  destruct bad as [e|].
  - apply failsBy_bind_fail, H.
  - apply failsBy_bind; [apply H|]. intros used.
    destruct (_ >? 0); [|apply failsBy_ret].
    apply failsBy_bind; [apply failsBy_newDoc|]. intros ref. apply failsBy_stage.
Qed.

Lemma modalShortLen_None (inventory : list Sheet.t) (item : Item.t) (len : Z) :
  modalShortLen inventory item len = None
  <-> Item.qty item len
      <= JS.len (filter (modalPred (Item.materialType item) len) inventory).
Proof.
  unfold modalShortLen.
  set (a := JS.len (filter (modalPred (Item.materialType item) len) inventory)).
  assert (0 <= a) by (unfold a, JS.len; lia).
  destruct (Z.ltb_spec 0 (Item.qty item len));
    destruct (Z.ltb_spec a (Item.qty item len)); simpl; split; intros; try lia;
    auto; discriminate.
Qed.

Lemma modalStocked_iff (inventory : list Sheet.t) (jobs : list Job.t) :
  firstBad (fun job =>
              firstBad (fun item =>
                          firstBad (modalShortLen inventory item) STANDARD_LENGTHS)
                       (Job.items job))
           jobs = None
  <-> modalStocked STANDARD_LENGTHS inventory jobs.
Proof.
  unfold modalStocked. split.
  - intros H job item len Hj Hi Hl.
    pose proof (proj1 (firstBad_None _ _) H job Hj) as H1.
    pose proof (proj1 (firstBad_None _ _) H1 item Hi) as H2.
    pose proof (proj1 (firstBad_None _ _) H2 len Hl) as H3.
    now apply modalShortLen_None.
  - intros H. apply firstBad_None. intros job Hj.
    apply firstBad_None. intros item Hi.
    apply firstBad_None. intros len Hl.
    apply modalShortLen_None. exact (H job item len Hj Hi Hl).
Qed.

Lemma unitWrite_commits (ws : list write) :
  Forall unitWrite ws -> forall d, exists d', commit d ws = Some d'.
Proof.
  induction 1 as [|x ws Hx Hws IH]; intros d; simpl; eauto.
  destruct x; simpl in *; try contradiction; apply IH.
Qed.

(** X15: the modal's use refuses a batch in which a job's customer is
    blank, before anything else; otherwise it succeeds exactly when no
    request exceeds the units of its key that are not Ordered in the
    modal's inventory: its commit, made of deletions and new records,
    cannot fail. *)
Theorem modal_succeeds_iff (inventory : list Sheet.t) (now : timestamp)
    (jobs : list Job.t) (w : world) :
  ((exists job, In job jobs /\ JS.trim (Job.customer job) = EmptyString) ->
   modalHandleSubmit STANDARD_LENGTHS autoId inventory now jobs w
   = (Some ValidationError, w))
  /\ (fst (modalHandleSubmit STANDARD_LENGTHS autoId inventory now jobs w) = None
      <-> (forall job, In job jobs -> JS.trim (Job.customer job) <> EmptyString)
          /\ modalStocked STANDARD_LENGTHS inventory jobs).
Proof.
  unfold modalHandleSubmit.
  destruct (existsb _ jobs) eqn:Ev.
  - split; [reflexivity|]. simpl. split; [discriminate|].
    intros [Hc _]. exfalso. apply existsb_exists in Ev.
    destruct Ev as (job & Hj & Hb). apply (Hc job Hj).
    destruct (JS.trim (Job.customer job)); [reflexivity|discriminate].
  - assert (Hcust : forall job, In job jobs -> JS.trim (Job.customer job) <> EmptyString).
    { intros job Hj E.
      assert (existsb (fun j => match JS.trim (Job.customer j) with
                                | EmptyString => true
                                | _ => false
                                end) jobs = true).
      { apply existsb_exists. exists job. split; auto. now rewrite E. }
      congruence. }
    split.
    { intros (job & Hj & E). exfalso. exact (Hcust job Hj E). }
    rewrite <- modalStocked_iff. unfold runTransaction.
    pose proof (modalSubmitBody_fails inventory now jobs (mkTx (idsDrawn w) [])) as Hf.
    pose proof (modal_writes STANDARD_LENGTHS autoId inventory now jobs
                  (mkTx (idsDrawn w) [])) as Hw.
    destruct (firstBad _ jobs) as [e|].
    + rewrite Hf. simpl. split; [discriminate|]. intros [_ H]. discriminate.
    + destruct Hf as ([] & st & Hf). rewrite Hf in *.
      destruct Hw as (ws & Hs & HF). simpl in Hs. subst.
      destruct (unitWrite_commits _ HF (store w)) as (d' & ->).
      simpl. tauto.
Qed.

End Modal.

(** ** Suppliers, categories marked for deletion, category order, search *)

(** X16: deleting a supplier removes every occurrence of it and nothing
    else; adding one appends it, present or not; adding then deleting a
    supplier that was not listed gives the list back. *)
Theorem supplier_add_then_delete (supplier : string) (prev : list string) :
  ~ In supplier (handleDeleteSupplier supplier prev)
  /\ (forall s, s <> supplier ->
                (In s (handleDeleteSupplier supplier prev) <-> In s prev))
  /\ List.length (handleAddSupplier supplier prev) = S (List.length prev)
  /\ handleDeleteSupplier supplier (handleAddSupplier supplier prev)
     = handleDeleteSupplier supplier prev
  /\ (~ In supplier prev ->
      handleDeleteSupplier supplier (handleAddSupplier supplier prev) = prev).
Proof.
  unfold handleDeleteSupplier, handleAddSupplier.
  assert (Hdel : filter (fun s => negb (String.eqb s supplier)) (prev ++ [supplier])
                 = filter (fun s => negb (String.eqb s supplier)) prev).
  { rewrite filter_app. simpl. rewrite String.eqb_refl. simpl. apply app_nil_r. }
  split; [|split; [|split; [|split]]].
  - intros H. apply filter_In in H. destruct H as [_ H].
    now rewrite String.eqb_refl in H.
  - intros s Hs. rewrite filter_In. split; [tauto|]. intros H. split; auto.
    apply negb_true_iff. now apply String.eqb_neq.
  - rewrite length_app. simpl. lia.
  - exact Hdel.
  - intros Hn. rewrite Hdel. clear Hdel.
    induction prev as [|a prev IH]; simpl; auto.
    destruct (String.eqb_spec a supplier) as [->|Hne]; simpl.
    + exfalso. apply Hn. now left.
    + f_equal. apply IH. intros H. apply Hn. now right.
Qed.

Lemma filter_neq_notin (c : string) (l : list string) :
  ~ In c l -> filter (fun x => negb (String.eqb x c)) l = l.
Proof.
  induction l as [|a l IH]; simpl; auto. intros Hn.
  destruct (String.eqb_spec a c) as [->|Hne]; simpl.
  - exfalso. apply Hn. now left.
  - f_equal. apply IH. tauto.
Qed.

(** X17: toggling a category for deletion marks it when it was not marked
    and unmarks it when it was, leaves the other marks alone, keeps the
    list free of repetitions, and twice in a row gives back the list of a
    category that was not marked. *)
Theorem toggle_category_for_deletion (categoryName : string) (prev : list string) :
  (In categoryName (handleToggleCategoryForDeletion categoryName prev)
   <-> ~ In categoryName prev)
  /\ (forall c, c <> categoryName ->
                (In c (handleToggleCategoryForDeletion categoryName prev) <-> In c prev))
  /\ (NoDup prev -> NoDup (handleToggleCategoryForDeletion categoryName prev))
  /\ (~ In categoryName prev ->
      handleToggleCategoryForDeletion categoryName
        (handleToggleCategoryForDeletion categoryName prev) = prev).
Proof.
  unfold handleToggleCategoryForDeletion.
  destruct (includesStr prev categoryName) eqn:E.
  - apply includesStr_true in E. split; [|split; [|split]].
    + rewrite filter_In, String.eqb_refl. simpl. split; [intros []; discriminate|tauto].
    + intros c Hc. rewrite filter_In. split; [tauto|]. intros H. split; auto.
      apply negb_true_iff. now apply String.eqb_neq.
    + intros Hnd. now apply NoDup_filter.
    + tauto.
  - apply includesStr_false in E. split; [|split; [|split]].
    + rewrite in_app_iff. simpl. tauto.
    + intros c Hc. rewrite in_app_iff. simpl. split; [|tauto].
      intros [H|[H|[]]]; auto. congruence.
    + intros Hnd. apply NoDup_app_remove_l with (l := []). simpl.
      apply Permutation_NoDup with (l := categoryName :: prev).
      * apply Permutation_cons_append.
      * now constructor.
    + intros _.
      assert (Hin : includesStr (prev ++ [categoryName]) categoryName = true).
      { apply includesStr_true. apply in_or_app. right. now left. }
      rewrite Hin, filter_app. simpl. rewrite String.eqb_refl. simpl.
      rewrite app_nil_r. now apply filter_neq_notin.
Qed.

Lemma setAdd_spec (seen : list string) (x : string) :
  (NoDup seen -> NoDup (setAdd seen x))
  /\ (forall c, In c (setAdd seen x) <-> In c seen \/ c = x).
Proof.
  unfold setAdd. destruct (includesStr seen x) eqn:E.
  - apply includesStr_true in E. split; auto.
    intros c. split; [tauto|]. intros [H| ->]; auto.
  - apply includesStr_false in E. split.
    + intros Hnd. apply NoDup_app_remove_l with (l := []). simpl.
      apply Permutation_NoDup with (l := x :: seen).
      * apply Permutation_cons_append.
      * now constructor.
    + intros c. rewrite in_app_iff. simpl. split.
      * intros [H|[H|[]]]; auto.
      * intros [H| ->]; auto.
Qed.

Lemma uniq_fold (a : list string) :
  forall seen,
    NoDup seen ->
    NoDup (fold_left setAdd a seen)
    /\ (forall c, In c (fold_left setAdd a seen) <-> In c seen \/ In c a).
Proof.
  induction a as [|x a IH]; intros seen Hnd; simpl.
  - split; auto. intros c. tauto.
  - destruct (setAdd_spec seen x) as [H1 H2].
    destruct (IH (setAdd seen x) (H1 Hnd)) as [H3 H4].
    split; auto. intros c. rewrite H4, H2. split.
    + intros [[H|H]|H]; auto.
    + intros [H|[H|H]]; auto.
Qed.

Lemma uniq_spec (a : list string) :
  NoDup (uniq a) /\ (forall c, In c (uniq a) <-> In c a).
Proof.
  destruct (uniq_fold a [] (NoDup_nil _)) as [H1 H2]. split; auto.
  intros c. rewrite H2. simpl. tauto.
Qed.

Lemma filter_all {A : Type} (f : A -> bool) (l : list A) :
  (forall x, In x l -> f x = true) -> filter f l = l.
Proof.
  induction l as [|a l IH]; simpl; auto. intros H.
  rewrite (H a) by now left. f_equal. apply IH. intros x Hx. apply H. now right.
Qed.

Lemma syncCategories_In (live prevOrder : list string) (c : string) :
  In c (syncCategories live prevOrder) <-> In c live.
Proof.
  unfold syncCategories. rewrite in_app_iff, !filter_In.
  rewrite includesStr_true, negb_true_iff, includesStr_false.
  destruct (in_dec string_dec c prevOrder); tauto.
Qed.

(** X18: the categories shown are the categories of the materials, each
    once; bringing the stored order up to date keeps the stored categories
    that still exist, in their order, and puts the new ones after them: the
    result holds exactly the existing categories, is a rearrangement of
    them when the stored order had no repetition, and is left as it is by a
    second update. *)
Theorem sync_categories (materials : list (string * Material.t))
    (prevOrder : list string) :
  let live := initialCategories materials in
  let next := syncCategories live prevOrder in
  NoDup live
  /\ (forall c, In c live
                <-> exists m, In m materials /\ Material.category (snd m) = c)
  /\ (forall c, In c next <-> In c live)
  /\ (NoDup prevOrder -> NoDup next /\ Permutation next live)
  /\ syncCategories live next = next.
Proof.
  cbv zeta. unfold initialCategories.
  set (cats := map (fun m => Material.category (snd m)) materials).
  destruct (uniq_spec cats) as [Hnd Hin].
  set (live := uniq cats) in *.
  split; [exact Hnd|]. split; [|split; [|split]].
  - intros c. rewrite Hin. unfold cats. rewrite in_map_iff.
    split; intros (m & H1 & H2); exists m; auto.
  - intros c. apply syncCategories_In.
  - intros Hp.
    assert (Hn : NoDup (syncCategories live prevOrder)).
    { unfold syncCategories. apply NoDup_app.
      - now apply NoDup_filter.
      - now apply NoDup_filter.
      - intros x H1 H2. apply filter_In in H1, H2.
        destruct H1 as [H1 _]. destruct H2 as [_ H2].
        apply negb_true_iff in H2. apply includesStr_false in H2. contradiction. }
    split; auto. apply NoDup_Permutation; auto. intros c. apply syncCategories_In.
  - unfold syncCategories at 1.
    rewrite filter_all.
    + rewrite filter_none; [apply app_nil_r|].
      intros x Hx. apply negb_false_iff. apply includesStr_true.
      now apply syncCategories_In.
    + intros x Hx. apply includesStr_true. now apply syncCategories_In in Hx.
Qed.

Lemma rem_next (n i : Z) :
  0 <= i < n -> Z.rem (i + 1) n = if i + 1 =? n then 0 else i + 1.
Proof.
  intros H. destruct (Z.eqb_spec (i + 1) n) as [E|E].
  - rewrite E. apply Z.rem_same. lia.
  - apply Z.rem_small. lia.
Qed.

Lemma rem_prev (n i : Z) :
  0 <= i < n -> Z.rem (i - 1 + n) n = if i =? 0 then n - 1 else i - 1.
Proof.
  intros H. destruct (Z.eqb_spec i 0) as [E|E].
  - subst i. rewrite Z.rem_small; lia.
  - rewrite Z.rem_mod_nonneg by lia.
    replace (i - 1 + n) with (i - 1 + 1 * n) by lia.
    rewrite Z.mod_add by lia. apply Z.mod_small. lia.
Qed.

(** X19: whatever key is pressed in the search box, the active index
    keeps pointing at a result, or is 0 when there is none; with results
    shown, the down arrow and the up arrow undo each other, going round at
    both ends. *)
Theorem search_index_stays_valid (key : string) (st : Z * Z) :
  searchIndexOk st ->
  searchIndexOk (handleSearchKeyDown key st)
  /\ (0 < fst st ->
      handleSearchKeyDown "ArrowUp" (handleSearchKeyDown "ArrowDown" st) = st
      /\ handleSearchKeyDown "ArrowDown" (handleSearchKeyDown "ArrowUp" st) = st).
Proof.
  destruct st as [n i]. unfold searchIndexOk. simpl fst. simpl snd. intros Hok.
  split.
  - unfold handleSearchKeyDown.
    destruct (String.eqb key "Enter").
    { destruct ((0 <=? i) && (i <? n)); simpl; auto. }
    destruct (Z.eqb_spec n 0) as [E|E]; [simpl; auto|].
    assert (Hi : 0 <= i < n) by lia.
    destruct (String.eqb key "ArrowDown").
    { simpl. right. rewrite rem_next by auto. destruct (i + 1 =? n) eqn:E1; lia. }
    destruct (String.eqb key "ArrowUp").
    { simpl. right. rewrite rem_prev by auto. destruct (i =? 0) eqn:E1; lia. }
    simpl. auto.
  - intros Hn. assert (Hi : 0 <= i < n) by lia.
    assert (En : (n =? 0) = false) by (apply Z.eqb_neq; lia).
    unfold handleSearchKeyDown. simpl String.eqb. cbv iota. rewrite En.
    cbv iota. rewrite En. split; f_equal.
    + rewrite rem_next by auto. destruct (Z.eqb_spec (i + 1) n) as [E1|E1].
      * rewrite rem_prev by lia. simpl. lia.
      * rewrite rem_prev by lia. destruct (Z.eqb_spec (i + 1) 0); lia.
    + rewrite rem_prev by auto. destruct (Z.eqb_spec i 0) as [E1|E1].
      * rewrite rem_next by lia. destruct (Z.eqb_spec (n - 1 + 1) n); lia.
      * rewrite rem_next by lia. destruct (Z.eqb_spec (i - 1 + 1) n); lia.
Qed.

(** ** The incoming log *)

Lemma lookup_setOrder (o : list (string * Order.t)) (k k' : string) (g : Order.t) :
  lookupOrder (setOrder o k g) k'
  = if String.eqb k k' then Some g else lookupOrder o k'.
Proof.
  induction o as [|[k0 g0] o IH]; simpl.
  - reflexivity.
  - destruct (String.eqb_spec k0 k) as [->|Hne]; simpl.
    + destruct (String.eqb k k'); reflexivity.
    + rewrite IH. destruct (String.eqb_spec k0 k') as [->|Hne'].
      * destruct (String.eqb_spec k k') as [E|_]; [congruence|reflexivity].
      * reflexivity.
Qed.

Lemma keys_setOrder (o : list (string * Order.t)) (k : string) (g : Order.t) :
  map fst (setOrder o k g) = setAdd (map fst o) k.
Proof.
  unfold setAdd, includesStr. induction o as [|[k0 g0] o IH]; simpl; auto.
  rewrite (String.eqb_sym k k0).
  destruct (String.eqb k0 k); simpl; auto.
  rewrite IH. now destruct (existsb (String.eqb k) (map fst o)).
Qed.

Lemma lookupOrder_In (o : list (string * Order.t)) (k : string) (g : Order.t) :
  lookupOrder o k = Some g -> In (k, g) o.
Proof.
  induction o as [|[k0 g0] o IH]; simpl; [discriminate|].
  destruct (String.eqb_spec k0 k) as [->|Hne].
  - intros [= ->]. now left.
  - intros H. right. auto.
Qed.

Lemma In_lookupOrder (o : list (string * Order.t)) (k : string) (g : Order.t) :
  NoDup (map fst o) -> In (k, g) o -> lookupOrder o k = Some g.
Proof.
  induction o as [|[k0 g0] o IH]; simpl; [contradiction|].
  intros Hnd [H|H].
  - injection H as -> ->. now rewrite String.eqb_refl.
  - inversion Hnd as [|? ? Hnotin Hnd']; subst.
    destruct (String.eqb_spec k0 k) as [->|Hne]; auto.
    exfalso. apply Hnotin. change k with (fst (k, g)). now apply in_map.
Qed.

Section IncomingFacts.
Variable toISOString : timestamp -> string.

Local Abbreviation key := (orderKey toISOString).
Local Abbreviation step := (groupStep toISOString).
Local Abbreviation grow := (fun g item => Some (addToOrder toISOString g item)).

Lemma keys_fold (l : list Sheet.t) :
  forall o, map fst (fold_left step l o) = fold_left setAdd (map key l) (map fst o).
Proof.
  induction l as [|x l IH]; intros o; simpl; auto.
  rewrite IH. unfold groupStep. now rewrite keys_setOrder.
Qed.

Lemma lookup_fold (k : string) (l : list Sheet.t) :
  forall o,
    lookupOrder (fold_left step l o) k
    = fold_left grow (filter (fun s => String.eqb (key s) k) l) (lookupOrder o k).
Proof.
  induction l as [|x l IH]; intros o; simpl; auto.
  rewrite IH. unfold groupStep. rewrite lookup_setOrder.
  destruct (String.eqb_spec (key x) k) as [E|E]; simpl; auto.
  now rewrite E.
Qed.

Lemma keys_grouped (inventory : list Sheet.t) :
  map fst (groupedByOrder toISOString inventory) = uniq (map key (logged inventory)).
Proof. unfold groupedByOrder. now rewrite keys_fold. Qed.

Lemma lookup_grouped (inventory : list Sheet.t) (k : string) :
  lookupOrder (groupedByOrder toISOString inventory) k
  = groupFrom toISOString (filter (fun s => String.eqb (key s) k) (logged inventory)).
Proof. unfold groupedByOrder. now rewrite lookup_fold. Qed.

(** What a group is made of. *)
Lemma grow_fold (us : list Sheet.t) :
  forall g0,
  exists g,
    fold_left grow us (Some g0) = Some g
    /\ Order.id g = Order.id g0
    /\ Order.dateOrdered g = Order.dateOrdered g0
    /\ Order.customer g = Order.customer g0
    /\ Order.job g = Order.job g0
    /\ Order.isFuture g = Order.isFuture g0
    /\ Order.details g = (Order.details g0 ++ us)%list
    /\ Order.qty g = Order.qty g0 + JS.len us
    /\ Order.materialTypesSummary g
       = fold_left setAdd (map Sheet.materialType us) (Order.materialTypesSummary g0).
Proof.
  induction us as [|u us IH]; intros g0; simpl.
  - exists g0. rewrite app_nil_r. unfold JS.len. simpl. repeat split; auto. lia.
  - destruct (IH (addToOrder toISOString (Some g0) u))
      as (g & H & H1 & H2 & H3 & H4 & H5 & H6 & H7 & H8).
    exists g. split; [exact H|]. simpl in *.
    repeat split; auto.
    + now rewrite H6, <- app_assoc.
    + rewrite H7. unfold JS.len. cbn [List.length]. lia.
Qed.

Lemma groupFrom_spec (u : Sheet.t) (us : list Sheet.t) :
  exists g,
    groupFrom toISOString (u :: us) = Some g
    /\ Order.id g = key u
    /\ Order.dateOrdered g = Sheet.createdAt u
    /\ Order.customer g = Sheet.supplier u
    /\ Order.job g = JS.orElse (Sheet.job u) "Stock"
    /\ Order.isFuture g = String.eqb (Sheet.status u) "Ordered"
    /\ Order.details g = u :: us
    /\ Order.qty g = JS.len (u :: us)
    /\ Order.materialTypesSummary g = uniq (map Sheet.materialType (u :: us)).
Proof.
  unfold groupFrom. simpl.
  destruct (grow_fold us (addToOrder toISOString None u))
    as (g & H & H1 & H2 & H3 & H4 & H5 & H6 & H7 & H8).
  exists g. split; [exact H|].
  simpl in H1, H2, H3, H4, H5, H6, H8.
  unfold addToOrder in H7. cbn [Order.qty] in H7.
  repeat split; auto.
  rewrite H7. unfold JS.len. cbn [List.length]. lia.
Qed.

Lemma groupFrom_nil : groupFrom toISOString [] = None.
Proof. reflexivity. Qed.

Lemma grouped_NoDup (inventory : list Sheet.t) :
  NoDup (map fst (groupedByOrder toISOString inventory)).
Proof. rewrite keys_grouped. apply uniq_spec. Qed.

(** The rows, before they are sorted. *)
Lemma grouped_entry (inventory : list Sheet.t) (k : string) (g : Order.t) :
  In (k, g) (groupedByOrder toISOString inventory) ->
  Order.id g = k
  /\ Order.details g = filter (fun s => String.eqb (key s) k) (logged inventory)
  /\ Order.qty g = JS.len (Order.details g)
  /\ (exists first,
        hd_error (Order.details g) = Some first
        /\ key first = k
        /\ Order.dateOrdered g = Sheet.createdAt first
        /\ Order.customer g = Sheet.supplier first
        /\ Order.job g = JS.orElse (Sheet.job first) "Stock"
        /\ Order.isFuture g = String.eqb (Sheet.status first) "Ordered")
  /\ Order.materialTypesSummary g = uniq (map Sheet.materialType (Order.details g)).
Proof.
  intros Hin. apply In_lookupOrder in Hin; [|apply grouped_NoDup].
  rewrite lookup_grouped in Hin.
  destruct (filter (fun s => String.eqb (key s) k) (logged inventory)) as [|u us] eqn:E.
  - discriminate.
  - assert (Hu : key u = k).
    { assert (Hin' : In u (filter (fun s => String.eqb (key s) k) (logged inventory)))
        by (rewrite E; now left).
      apply filter_In in Hin'. now apply String.eqb_eq. }
    destruct (groupFrom_spec u us) as (g' & H & H1 & H2 & H3 & H4 & H5 & H6 & H7 & H8).
    rewrite H in Hin. injection Hin as ->.
    split; [congruence|]. split; [exact H6|]. split; [now rewrite H6|].
    split; [|now rewrite H6].
    exists u. rewrite H6. simpl. repeat split; auto.
Qed.

Lemma grouped_covers (inventory : list Sheet.t) (s : Sheet.t) :
  In s (logged inventory) ->
  exists g, In (key s, g) (groupedByOrder toISOString inventory).
Proof.
  intros Hs.
  destruct (lookupOrder (groupedByOrder toISOString inventory) (key s)) as [g|] eqn:E.
  - exists g. now apply lookupOrder_In.
  - exfalso. rewrite lookup_grouped in E.
    destruct (filter (fun s0 => String.eqb (key s0) (key s)) (logged inventory))
      as [|u us] eqn:Ef.
    + assert (Hin : In s (filter (fun s0 => String.eqb (key s0) (key s))
                                 (logged inventory))).
      { apply filter_In. split; auto. apply String.eqb_refl. }
      rewrite Ef in Hin. contradiction.
    + destruct (groupFrom_spec u us) as (g' & H & _). congruence.
Qed.

Lemma sum_setOrder (o : list (string * Order.t)) (k : string) (g : Order.t) :
  fold_right Z.add 0 (map (fun e => Order.qty (snd e)) (setOrder o k g))
  = fold_right Z.add 0 (map (fun e => Order.qty (snd e)) o)
    - match lookupOrder o k with Some g0 => Order.qty g0 | None => 0 end
    + Order.qty g.
Proof.
  induction o as [|[k0 g0] o IH]; simpl; [lia|].
  destruct (String.eqb k0 k); simpl; [lia|]. rewrite IH. lia.
Qed.

Lemma sum_fold (l : list Sheet.t) :
  forall o,
    fold_right Z.add 0 (map (fun e => Order.qty (snd e)) (fold_left step l o))
    = fold_right Z.add 0 (map (fun e => Order.qty (snd e)) o) + JS.len l.
Proof.
  induction l as [|x l IH]; intros o; simpl.
  - unfold JS.len. simpl. lia.
  - rewrite IH. unfold groupStep. rewrite sum_setOrder.
    unfold JS.len. cbn [List.length].
    destruct (lookupOrder o (key x)); simpl; lia.
Qed.

Lemma insert_ext {A : Type} (c1 c2 : A -> A -> Z) (x : A) (l : list A) :
  (forall a b, c1 a b = c2 a b) -> JS.insert c1 x l = JS.insert c2 x l.
Proof.
  intros H. induction l as [|y l IH]; simpl; auto.
  rewrite H, IH. reflexivity.
Qed.

Lemma sort_ext {A : Type} (c1 c2 : A -> A -> Z) (l : list A) :
  (forall a b, c1 a b = c2 a b) -> JS.sort c1 l = JS.sort c2 l.
Proof.
  intros H. unfold JS.sort. induction l as [|x l IH]; simpl; auto.
  rewrite IH. now apply insert_ext.
Qed.

Lemma incomingItems_eq (inventory : list Sheet.t) :
  incomingItems toISOString inventory
  = JS.sort (fun a b => (fun g => - Order.dateOrdered g) a
                        - (fun g => - Order.dateOrdered g) b)
            (map snd (groupedByOrder toISOString inventory)).
Proof. unfold incomingItems. apply sort_ext. intros a b. lia. Qed.

Lemma incomingItems_perm (inventory : list Sheet.t) :
  Permutation (map snd (groupedByOrder toISOString inventory))
              (incomingItems toISOString inventory).
Proof. rewrite incomingItems_eq. apply sort_perm. Qed.

Lemma row_entry (inventory : list Sheet.t) (g : Order.t) :
  In g (incomingItems toISOString inventory) ->
  In (Order.id g, g) (groupedByOrder toISOString inventory).
Proof.
  intros Hin.
  apply (Permutation_in _ (Permutation_sym (incomingItems_perm inventory))) in Hin.
  apply in_map_iff in Hin. destruct Hin as ([k g'] & E & Hin). simpl in E. subst g'.
  now rewrite (proj1 (grouped_entry inventory k g Hin)).
Qed.

Lemma grouped_ids (inventory : list Sheet.t) :
  map Order.id (map snd (groupedByOrder toISOString inventory))
  = map fst (groupedByOrder toISOString inventory).
Proof.
  rewrite map_map. apply map_ext_in. intros [k g] Hin. simpl.
  now apply grouped_entry in Hin.
Qed.

Lemma sum_perm (l l' : list Z) :
  Permutation l l' -> fold_right Z.add 0 l = fold_right Z.add 0 l'.
Proof. induction 1; simpl; lia. Qed.

(** X20: the rows of the incoming log split the units whose supplier is
    not 'MODIFICATION' by the key made of creation date, job and supplier:
    row ids are distinct; a row holds, in inventory order, exactly the
    units of its key, at least one, and counts them; its date, supplier,
    job and its being awaited are those of its first unit; every such unit
    has its row; and the counts add up to the number of units. *)
Theorem incoming_rows_partition (inventory : list Sheet.t) :
  let rows := incomingItems toISOString inventory in
  NoDup (map Order.id rows)
  /\ (forall g, In g rows ->
        Order.details g
        = filter (fun s => String.eqb (key s) (Order.id g)) (logged inventory)
        /\ Order.qty g = JS.len (Order.details g)
        /\ (exists first,
              hd_error (Order.details g) = Some first
              /\ key first = Order.id g
              /\ Order.dateOrdered g = Sheet.createdAt first
              /\ Order.customer g = Sheet.supplier first
              /\ Order.job g = JS.orElse (Sheet.job first) "Stock"
              /\ Order.isFuture g = String.eqb (Sheet.status first) "Ordered")
        /\ Order.materialTypesSummary g
           = uniq (map Sheet.materialType (Order.details g)))
  /\ (forall s, In s (logged inventory) ->
        exists g, In g rows /\ Order.id g = key s /\ In s (Order.details g))
  /\ fold_right Z.add 0 (map Order.qty rows) = JS.len (logged inventory).
Proof.
  cbv zeta. split; [|split; [|split]].
  - apply Permutation_NoDup with (l := map Order.id (map snd (groupedByOrder toISOString inventory))).
    + apply Permutation_map. apply incomingItems_perm.
    + rewrite grouped_ids. apply grouped_NoDup.
  - intros g Hg. apply row_entry in Hg.
    destruct (grouped_entry inventory _ g Hg) as (_ & H2 & H3 & H4 & H5). auto.
  - intros s Hs. destruct (grouped_covers inventory s Hs) as (g & Hg).
    destruct (grouped_entry inventory _ g Hg) as (H1 & H2 & _).
    exists g. split; [|split; auto].
    + apply (Permutation_in _ (incomingItems_perm inventory)).
      apply in_map_iff. exists (key s, g). auto.
    + rewrite H2. apply filter_In. split; auto. apply String.eqb_refl.
  - rewrite <- (sum_perm _ _ (Permutation_map Order.qty (incomingItems_perm inventory))).
    rewrite map_map. unfold groupedByOrder. rewrite sum_fold. simpl. lia.
Qed.

End IncomingFacts.

Lemma StronglySorted_weaken {A : Type} (R R' : A -> A -> Prop) (l : list A) :
  (forall a b, R a b -> R' a b) -> StronglySorted R l -> StronglySorted R' l.
Proof.
  intros H. induction 1 as [|a l Hs IH Hf]; constructor; auto.
  revert Hf. apply Forall_impl. intros b. apply H.
Qed.




Section IncomingOrder.
Variable toISOString : timestamp -> string.

(** X21: the incoming log shows the orders newest first, orders of one
    date in the order their first units have in the inventory; the rows
    shown are the first [ordersToShow] of them. *)
Theorem incoming_newest_first (inventory : list Sheet.t) (ordersToShow : Z) :
  let rows := incomingItems toISOString inventory in
  StronglySorted (fun a b => Order.dateOrdered b <= Order.dateOrdered a) rows
  /\ Permutation (map snd (groupedByOrder toISOString inventory)) rows
  /\ (forall t, filter (fun g => Order.dateOrdered g =? t) rows
                = filter (fun g => Order.dateOrdered g =? t)
                         (map snd (groupedByOrder toISOString inventory)))
  /\ (exists rest, rows = (visibleItems toISOString inventory ordersToShow ++ rest)%list)
  /\ (0 <= ordersToShow ->
      JS.len (visibleItems toISOString inventory ordersToShow)
      = Z.min ordersToShow (JS.len rows)).
Proof.
  cbv zeta. split; [|split; [|split; [|split]]].
  - rewrite incomingItems_eq.
    eapply StronglySorted_weaken; [|apply sort_sorted].
    simpl. intros a b H. lia.
  - apply incomingItems_perm.
  - intros t. rewrite incomingItems_eq.
    rewrite (filter_ext (fun g => Order.dateOrdered g =? t)
                        (fun g => (fun g => - Order.dateOrdered g) g =? - t)).
    + rewrite sort_stable. apply filter_ext. intros g.
      destruct (Z.eqb_spec (- Order.dateOrdered g) (- t));
        destruct (Z.eqb_spec (Order.dateOrdered g) t); auto; lia.
    + intros g. destruct (Z.eqb_spec (- Order.dateOrdered g) (- t));
        destruct (Z.eqb_spec (Order.dateOrdered g) t); auto; lia.
  - unfold visibleItems, JS.slice0.
    exists (skipn (Z.to_nat ordersToShow) (incomingItems toISOString inventory)).
    symmetry. apply firstn_skipn.
  - intros H. unfold visibleItems, JS.slice0, JS.len. rewrite length_firstn. lia.
Qed.

(** X22: units created by a manual adjustment are units of the incoming
    log: their supplier is 'Manual Edit', which the log does not leave
    out. *)
Theorem manual_adjustments_are_logged (inventory : list Sheet.t) (s : Sheet.t)
    (m : string) (len : Z) :
  In s inventory -> isManualAdd m len s ->
  exists g,
    In g (incomingItems toISOString inventory)
    /\ Order.id g = orderKey toISOString s
    /\ In s (Order.details g).
Proof.
  intros Hs (_ & Hsup & _).
  assert (Hl : In s (logged inventory)).
  { unfold logged. apply filter_In. split; auto. now rewrite Hsup. }
  destruct (grouped_covers toISOString inventory s Hl) as (g & Hg).
  destruct (grouped_entry toISOString inventory _ g Hg) as (H1 & H2 & _).
  exists g. split; [|split; auto].
  - apply (Permutation_in _ (incomingItems_perm toISOString inventory)).
    apply in_map_iff. exists (orderKey toISOString s, g). auto.
  - rewrite H2. apply filter_In. split; auto. apply String.eqb_refl.
Qed.

End IncomingOrder.




Lemma includesStr_filter (p : string -> bool) (acc : list string) (x : string) :
  p x = true -> includesStr (filter p acc) x = includesStr acc x.
Proof.
  intros Hp. destruct (includesStr acc x) eqn:E.
  - apply includesStr_true. apply filter_In. split; auto. now apply includesStr_true.
  - apply includesStr_false. intros H. apply filter_In in H.
    apply includesStr_false in E. tauto.
Qed.

Lemma uniq_fold_filter (p : string -> bool) (l : list string) :
  forall acc,
    fold_left setAdd (filter p l) (filter p acc) = filter p (fold_left setAdd l acc).
Proof.
  induction l as [|x l IH]; intros acc; simpl; auto.
  destruct (p x) eqn:Hp; simpl.
  - rewrite <- IH. f_equal. unfold setAdd.
    rewrite includesStr_filter by auto.
    destruct (includesStr acc x); auto.
    rewrite filter_app. simpl. now rewrite Hp.
  - rewrite <- IH. f_equal. unfold setAdd.
    destruct (includesStr acc x); auto.
    rewrite filter_app. simpl. rewrite Hp. now rewrite app_nil_r.
Qed.

Lemma uniq_filter (p : string -> bool) (l : list string) :
  uniq (filter p l) = filter p (uniq l).
Proof. unfold uniq. now rewrite <- uniq_fold_filter. Qed.


Section IncomingDelete.
Variable toISOString : timestamp -> string.

Local Abbreviation key := (orderKey toISOString).




End IncomingDelete.

(** ** What a scheduled record asks of a fulfilment *)

Lemma countKey_app (k : string) (l1 l2 : list detail) :
  countKey k (l1 ++ l2) = countKey k l1 + countKey k l2.
Proof.
  unfold countKey, JS.len. rewrite filter_app, length_app. lia.
Qed.

Lemma countKey_repeat (k : string) (d : detail) (n : nat) :
  countKey k (repeat d n) = if String.eqb (detailKey d) k then Z.of_nat n else 0.
Proof.
  induction n as [|n IH]; simpl repeat.
  - unfold countKey, JS.len. simpl. now destruct (String.eqb (detailKey d) k).
  - rewrite countKey_cons, IH. destruct (String.eqb (detailKey d) k); lia.
Qed.

(** X24: the details a scheduled use or a scheduled edit writes hold, for
    every key, as many descriptors as units are requested for the key in
    all: a later fulfilment asks, for a key, for the sum of the requests. *)
Theorem scheduled_details_tally (STANDARD_LENGTHS : list Z)
    (getGaugeFromMaterial : string -> string) (p : params) (items : list Item.t)
    (k : string) :
  countKey k (fst (scheduledItems STANDARD_LENGTHS getGaugeFromMaterial p items))
  = requestedAt STANDARD_LENGTHS k items.
Proof.
  rewrite scheduledItems_details. unfold descriptorsOf, requestedAt.
  induction items as [|item items IH]; simpl.
  - reflexivity.
  - rewrite countKey_app, IH, requestedAt_lens_acc. f_equal. clear IH.
    induction STANDARD_LENGTHS as [|len lens IH]; simpl.
    + reflexivity.
    + rewrite countKey_app, IH, countKey_repeat. f_equal.
      unfold detailKey. simpl.
      destruct (Z.gtb_spec (Item.qty item len) 0) as [Hq|Hq]; simpl.
      * destruct (String.eqb _ k); lia.
      * destruct (String.eqb _ k); lia.
Qed.

(** ** When the edit of a completed record succeeds *)

Section EditSucceeds.
Variable STANDARD_LENGTHS : list Z.
Variable getGaugeFromMaterial : string -> string.

Lemma editCheck_run (p : params) (entry : string * Z) (st : txState) :
  editCheck p entry st
  = match editShort p entry with
    | Some e => inl e
    | None => inr (tt, st)
    end.
Proof.
  destruct entry as [key change]. unfold editCheck, editShort. cbn [fst snd].
  destruct (change <? 0); simpl; [|reflexivity].
  change (fun i : Sheet.t =>
            String.eqb (Sheet.materialType i) (hd EmptyString (JS.splitBar key))
            && lengthIs i (JS.parseInt (nth_error (JS.splitBar key) 1))
            && String.eqb (Sheet.status i) "On Hand")
    with (fulfilPred key).
  destruct (_ <? Z.abs change); reflexivity.
Qed.

Lemma editChecks_run (p : params) (netChange : list (string * Z)) (st : txState) :
  forM_ netChange (editCheck p) st
  = match firstBad (editShort p) netChange with
    | Some e => inl e
    | None => inr (tt, st)
    end.
Proof.
  unfold forM_. induction netChange as [|entry l IH]; simpl; [reflexivity|].
  unfold bind. rewrite editCheck_run.
  destruct (editShort p entry); [reflexivity|]. exact IH.
Qed.

Lemma reallocation_writes (p : params) (now : timestamp) (originalLog : Log.t)
    (newLogData : LogData.t) (ids : list (option string)) (items : list Item.t)
    (used : list Sheet.t) :
  txspec (foldM (fun used item =>
                   foldM (editLen p now originalLog newLogData ids item)
                         STANDARD_LENGTHS used)
                items used)
         (fun _ => True) (updateWrite p).
Proof.
  apply txspec_foldM. intros used' item _. apply txspec_foldM. intros used'' len _.
  unfold editLen. destruct (_ <=? 0); [apply txspec_ret|].
  destruct (_ <? _); [now apply txspec_throw|].
  apply txspec_bind; [|intros; apply txspec_ret].
  apply txspec_forM. intros sheet Hs. apply txspec_stage.
  simpl. apply in_map. now apply selected_In in Hs.
Qed.

Lemma updateWrite_commits (p : params) (ws : list write) :
  Forall (updateWrite p) ws ->
  forall d,
    (forall s, In s (inventory p) -> hasSheet (Sheet.id s) (inventoryCol d) = true) ->
    exists d',
      commit d ws = Some d'
      /\ usageLogsCol d' = usageLogsCol d
      /\ (forall s, In s (inventory p) ->
                    hasSheet (Sheet.id s) (inventoryCol d') = true).
Proof.
  induction 1 as [|x ws Hx Hws IH]; intros d Hex; simpl; eauto.
  destruct x; simpl in Hx; try contradiction.
  apply in_map_iff in Hx. destruct Hx as (s & Hid & Hs).
  simpl. rewrite <- Hid, (Hex s Hs).
  set (d1 := mkDb _ _ _).
  destruct (IH d1) as (d' & Hc & Hl & He).
  - intros s' Hs'. subst d1. simpl. apply hasSheet_true.
    rewrite patchSheet_ids by reflexivity. apply hasSheet_true. auto.
  - exists d'. split; [exact Hc|]. split; [exact Hl|exact He].
Qed.

Lemma editFails_None (p : params) (originalLog : Log.t) (newLogData : LogData.t) :
  editFails STANDARD_LENGTHS p originalLog newLogData = None
  <-> editStocked STANDARD_LENGTHS p originalLog newLogData.
Proof.
  unfold editFails, editStocked.
  set (netChange := netChangeOf STANDARD_LENGTHS originalLog newLogData).
  set (ids := map detail_id (Log.details originalLog)).
  assert (H1 : firstBad (editShort p) netChange = None
               <-> forall k change, In (k, change) netChange -> change < 0 ->
                     - change <= JS.len (filter (fulfilPred k) (inventory p))).
  { rewrite firstBad_None. split.
    - intros H k c Hin Hc. specialize (H (k, c) Hin).
      unfold editShort in H. cbn [fst snd] in H.
      replace (c <? 0) with true in H by (symmetry; apply Z.ltb_lt; lia).
      simpl in H. destruct (Z.ltb_spec (JS.len (filter (fulfilPred k) (inventory p)))
                                       (Z.abs c)); [discriminate|lia].
    - intros H [k c] Hin. unfold editShort. cbn [fst snd].
      destruct (Z.ltb_spec c 0) as [Hc|Hc]; simpl; auto.
      specialize (H k c Hin Hc).
      destruct (Z.ltb_spec (JS.len (filter (fulfilPred k) (inventory p))) (Z.abs c));
        [lia|reflexivity]. }
  assert (H2 : firstBad (fun item => firstBad (editShortLen p ids item) STANDARD_LENGTHS)
                        (LogData.items newLogData) = None
               <-> forall item len,
                     In item (LogData.items newLogData) -> In len STANDARD_LENGTHS ->
                     Item.qty item len
                     <= JS.len (filter (fun i =>
                                          onHandAt (Item.materialType item) len i
                                          && negb (includesId ids (Sheet.id i)))
                                       (inventory p))).
  { split.
    - intros H item len Hi Hl.
      pose proof (proj1 (firstBad_None _ _) H item Hi) as Ha.
      pose proof (proj1 (firstBad_None _ _) Ha len Hl) as Hb.
      unfold editShortLen in Hb.
      match type of Hb with
      | (if (_ && (?a <? _)) then _ else _) = _ =>
          assert (0 <= a) by (unfold JS.len; lia);
          destruct (Z.ltb_spec 0 (Item.qty item len));
          destruct (Z.ltb_spec a (Item.qty item len)); simpl in Hb;
          try discriminate; lia
      end.
    - intros H. apply firstBad_None. intros item Hi.
      apply firstBad_None. intros len Hl. specialize (H item len Hi Hl).
      unfold editShortLen.
      match goal with
      | |- (if (_ && (?a <? _)) then _ else _) = _ =>
          destruct (Z.ltb_spec 0 (Item.qty item len));
          destruct (Z.ltb_spec a (Item.qty item len)); simpl; auto; lia
      end. }
  destruct (firstBad (editShort p) netChange) as [e|] eqn:E.
  - split; [discriminate|]. intros [H _]. apply H1 in H. discriminate.
  - rewrite H2. split; [intros H; split; auto; now apply H1 | tauto].
Qed.

(** X25: the edit of a record that is not Scheduled, by a client whose
    units all exist in the store, succeeds exactly when its stock check
    passes for every key, every request is within the On Hand units of its
    key that are not units of the record, and the store has the record. *)
Theorem edit_succeeds_iff (p : params) (now : timestamp) (originalLog : Log.t)
    (newLogData : LogData.t) (w : world) :
  statusIs (Log.status originalLog) "Scheduled" = false ->
  (forall s, In s (inventory p) ->
             hasSheet (Sheet.id s) (inventoryCol (store w)) = true) ->
  fst (handleEditOutgoingLog STANDARD_LENGTHS getGaugeFromMaterial p now originalLog
                             newLogData w) = None
  <-> editStocked STANDARD_LENGTHS p originalLog newLogData
      /\ hasLog (Log.id originalLog) (usageLogsCol (store w)) = true.
Proof.
  intros Hs Hex. rewrite <- editFails_None.
  unfold handleEditOutgoingLog. rewrite Hs.
  unfold runTransaction, editCompletedBody, editFails. cbv zeta.
  unfold bind at 1. rewrite editChecks_run.
  destruct (firstBad (editShort p) _) as [e|].
  { simpl. split; [discriminate|]. intros [H _]. discriminate. }
  unfold bind at 1. rewrite forM_stage_run. cbn [nextAuto staged app].
  unfold bind at 1.
  set (ids := map detail_id (Log.details originalLog)).
  set (returns := map _ (filter _ (inventory p))).
  set (st1 := mkTx (idsDrawn w) returns).
  pose proof (failsBy_foldM
                (fun used item' =>
                   foldM (editLen p now originalLog newLogData ids item')
                         STANDARD_LENGTHS used)
                (fun item' => firstBad (editShortLen p ids item') STANDARD_LENGTHS)
                (LogData.items newLogData)
                (fun used item' _ =>
                   failsBy_foldM _ _ STANDARD_LENGTHS
                     (fun used' len' _ =>
                        editLen_fails p now originalLog newLogData ids item' used' len')
                     used) [] st1) as Hf.
  pose proof (reallocation_writes p now originalLog newLogData ids
                (LogData.items newLogData) [] st1) as Hw.
  destruct (firstBad _ (LogData.items newLogData)) as [e|].
  { rewrite Hf. simpl. split; [discriminate|]. intros [H _]. discriminate. }
  destruct Hf as (used & st2 & Hf). rewrite Hf in *.
  destruct Hw as (ws & Hst & HF). unfold stage. cbn [staged nextAuto].
  rewrite Hst. subst st1. cbn [staged].
  rewrite !commit_app.
  assert (Hret : Forall (updateWrite p) returns).
  { apply Forall_forall. intros x Hx. subst returns. apply in_map_iff in Hx.
    destruct Hx as (s & <- & Hin). apply filter_In in Hin. simpl.
    apply in_map. tauto. }
  destruct (updateWrite_commits p returns Hret (store w) Hex) as (d1 & Hc1 & Hl1 & Hex1).
  rewrite Hc1.
  destruct (updateWrite_commits p ws HF d1 Hex1) as (d2 & Hc2 & Hl2 & _).
  rewrite Hc2. simpl. rewrite Hl2, Hl1.
  destruct (hasLog (Log.id originalLog) (usageLogsCol (store w))); simpl.
  - split; auto.
  - split; [discriminate|]. intros [_ H]. discriminate.
Qed.


End EditSucceeds.

(** ** Adding a category *)






(** ** What a successful edit of a completed record does *)

Lemma commit_updates_exact (st : string) (l j c : option string)
    (t : option timestamp) (units : list Sheet.t) :
  forall d,
    (forall s, In s units -> hasSheet (Sheet.id s) (inventoryCol d) = true) ->
    commit d (map (fun s => UpdateSheet (Sheet.id s) st l j c t) units)
    = Some (mkDb (map (fun u => if hasSheet (Sheet.id u) units
                                then Sheet.withUsage st l j c t u else u)
                      (inventoryCol d))
                 (usageLogsCol d) (materialsCol d)).
Proof.
  induction units as [|u0 units IH]; intros d Hex; simpl.
  - rewrite map_id. now destruct d.
  - rewrite (Hex u0) by now left.
    set (d1 := mkDb _ _ _).
    rewrite (IH d1).
    + subst d1. simpl. unfold patchSheet. rewrite map_map. do 2 f_equal.
      apply map_ext. intros u. rewrite (String.eqb_sym (Sheet.id u0)).
      destruct (String.eqb (Sheet.id u) (Sheet.id u0)); simpl.
      * now destruct (hasSheet (Sheet.id u) units).
      * reflexivity.
    + intros s Hs. subst d1. simpl.
      apply hasSheet_true. rewrite patchSheet_ids by reflexivity.
      apply hasSheet_true. apply Hex. now right.
Qed.

Section EditEffect.
Variable STANDARD_LENGTHS : list Z.
Variable getGaugeFromMaterial : string -> string.

Lemma editLen_run (p : params) (now : timestamp) (originalLog : Log.t)
    (newLogData : LogData.t) (ids : list (option string)) (item : Item.t)
    (used : list Sheet.t) (len : Z) (st : txState) :
  editShortLen p ids item len = None ->
  let sel := editUnits p ids (if Item.qty item len >? 0
                              then [(Item.materialType item, len, Item.qty item len)]
                              else []) in
  editLen p now originalLog newLogData ids item used len st
  = inr ((used ++ sel)%list,
         mkTx (nextAuto st)
              (staged st
               ++ map (usedWrite now (Log.id originalLog) (LogData.jobName newLogData)
                                 (LogData.customer newLogData)) sel)%list).
Proof.
  intros Hs. cbv zeta. unfold editLen.
  unfold editShortLen in Hs.
  change (fun i : Sheet.t =>
            onHandAt (Item.materialType item) len i
            && negb (includesId ids (Sheet.id i)))
    with (editPred ids (Item.materialType item) len) in *.
  destruct (Z.leb_spec (Item.qty item len) 0) as [Hq|Hq].
  - replace (Item.qty item len >? 0) with false
      by (symmetry; rewrite Z.gtb_ltb; apply Z.ltb_ge; lia).
    simpl. unfold ret. rewrite !app_nil_r. now destruct st.
  - replace (Item.qty item len >? 0) with true
      by (symmetry; rewrite Z.gtb_ltb; apply Z.ltb_lt; lia).
    rewrite slice0_short by lia. rewrite matching_len.
    replace (0 <? Item.qty item len) with true in Hs by (symmetry; apply Z.ltb_lt; lia).
    simpl in Hs.
    destruct (JS.len (filter (editPred ids (Item.materialType item) len) (inventory p))
              <? Item.qty item len); [discriminate|].
    unfold bind.
    change (markUsed now (Log.id originalLog) (LogData.jobName newLogData)
                     (LogData.customer newLogData))
      with (fun s => stage (usedWrite now (Log.id originalLog)
                              (LogData.jobName newLogData)
                              (LogData.customer newLogData) s)).
    rewrite forM_stage_run. unfold ret, editUnits. simpl.
    rewrite !app_nil_r. reflexivity.
Qed.

Lemma editItems_run (p : params) (now : timestamp) (originalLog : Log.t)
    (newLogData : LogData.t) (ids : list (option string)) (items : list Item.t) :
  (forall item len, In item items -> In len STANDARD_LENGTHS ->
                    editShortLen p ids item len = None) ->
  forall used st,
    foldM (fun used item =>
             foldM (editLen p now originalLog newLogData ids item) STANDARD_LENGTHS used)
          items used st
    = inr ((used ++ editUnits p ids (linesOfItems STANDARD_LENGTHS items))%list,
           mkTx (nextAuto st)
                (staged st
                 ++ map (usedWrite now (Log.id originalLog) (LogData.jobName newLogData)
                                   (LogData.customer newLogData))
                        (editUnits p ids (linesOfItems STANDARD_LENGTHS items)))%list).
Proof.
  intros Hs used st.
  unfold linesOfItems, editUnits. rewrite flat_map_flat_map.
  apply foldM_select_run. intros item used' st' Hi.
  rewrite flat_map_flat_map.
  apply (foldM_select_run (editLen p now originalLog newLogData ids item)
           (fun len => flat_map _ (if Item.qty item len >? 0 then _ else _))).
  intros len used'' st'' Hl. now apply editLen_run; auto.
Qed.

Lemma editUnits_length (p : params) (ids : list (option string))
    (lines : list (string * Z * Z)) :
  (forall line, In line lines ->
     0 <= snd line
     <= JS.len (filter (editPred ids (fst (fst line)) (snd (fst line))) (inventory p))) ->
  JS.len (editUnits p ids lines) = fold_right Z.add 0 (map snd lines).
Proof.
  induction lines as [|line lines IH]; intros H; simpl; [reflexivity|].
  unfold JS.len in *. rewrite length_app, Nat2Z.inj_add.
  fold (JS.len (selectSheets (editPred ids (fst (fst line)) (snd (fst line)))
                             (inventory p) (snd line))).
  rewrite selectSheets_length.
  - f_equal. apply IH. intros l Hl. apply H. now right.
  - apply (H line). now left.
  - apply (H line). now left.
Qed.

Lemma lines_total (items : list Item.t) :
  fold_right Z.add 0 (map snd (linesOfItems STANDARD_LENGTHS items))
  = requestedTotal STANDARD_LENGTHS items.
Proof.
  unfold linesOfItems, requestedTotal.
  induction items as [|item items IH]; simpl; auto.
  rewrite map_app, requested_lens_acc.
  assert (Happ : forall l1 l2 : list Z,
             fold_right Z.add 0 (l1 ++ l2)
             = fold_right Z.add 0 l1 + fold_right Z.add 0 l2).
  { intros l1 l2. induction l1; simpl; lia. }
  rewrite Happ, IH. f_equal. clear IH.
  induction STANDARD_LENGTHS as [|len lens IH]; simpl; auto.
  rewrite map_app, Happ, IH. f_equal.
  destruct (Z.gtb_spec (Item.qty item len) 0); simpl; lia.
Qed.

Lemma lines_of_items (items : list Item.t) (line : string * Z * Z) :
  In line (linesOfItems STANDARD_LENGTHS items) ->
  exists item len,
    In item items /\ In len STANDARD_LENGTHS /\ 0 < Item.qty item len
    /\ line = (Item.materialType item, len, Item.qty item len).
Proof.
  unfold linesOfItems. intros Hin.
  apply in_flat_map in Hin. destruct Hin as (item & Hi & Hin).
  apply in_flat_map in Hin. destruct Hin as (len & Hl & Hin).
  destruct (Z.gtb_spec (Item.qty item len) 0); [|contradiction].
  destruct Hin as [<-|[]]. exists item, len. auto.
Qed.

(** X27: a successful edit of a record that is not Scheduled, by a client
    whose units all exist in the store: the units of the client's inventory
    that the record listed go back On Hand with their use cleared; for every
    request the oldest units On Hand at its key that the record did not
    list are marked Used for the record, as many as asked; no other unit
    changes; the record keeps its id, dates and status and gets the new
    job, customer, the snapshots of the units taken as details and their
    negated number as [qty]. *)
Theorem edit_effect (p : params) (now : timestamp) (originalLog : Log.t)
    (newLogData : LogData.t) (w : world) :
  statusIs (Log.status originalLog) "Scheduled" = false ->
  (forall s, In s (inventory p) ->
             hasSheet (Sheet.id s) (inventoryCol (store w)) = true) ->
  editStocked STANDARD_LENGTHS p originalLog newLogData ->
  hasLog (Log.id originalLog) (usageLogsCol (store w)) = true ->
  let ids := map detail_id (Log.details originalLog) in
  let returned := filter (fun i => includesId ids (Sheet.id i)) (inventory p) in
  let taken :=
    editUnits p ids (linesOfItems STANDARD_LENGTHS (LogData.items newLogData)) in
  handleEditOutgoingLog STANDARD_LENGTHS getGaugeFromMaterial p now originalLog
                        newLogData w
  = (None,
     mkWorld
       (mkDb (map (edited now (Log.id originalLog) (LogData.jobName newLogData)
                          (LogData.customer newLogData) taken returned)
                  (inventoryCol (store w)))
             (patchLog (Log.id originalLog)
                (fun r => Log.mk (Log.id r) (LogData.jobName newLogData)
                                 (LogData.customer newLogData) (Log.createdAt r)
                                 (Log.usedAt r) (Log.status r) (map Snapshot taken)
                                 (- JS.len taken) (Log.fulfilledAt r))
                (usageLogsCol (store w)))
             (materialsCol (store w)))
       (idsDrawn w))
  /\ JS.len taken = requestedTotal STANDARD_LENGTHS (LogData.items newLogData)
  /\ Forall (fun s => In s (inventory p) /\ Sheet.status s = "On Hand"
                      /\ includesId ids (Sheet.id s) = false) taken.
Proof.
  intros Hs Hex Hst Hlog ids returned taken.
  pose proof (proj2 (editFails_None STANDARD_LENGTHS p originalLog newLogData) Hst) as Hf.
  unfold editFails in Hf.
  destruct (firstBad (editShort p) _) eqn:Echeck; [discriminate|].
  fold ids in Hf.
  assert (Hlines : forall item len, In item (LogData.items newLogData) ->
                     In len STANDARD_LENGTHS -> editShortLen p ids item len = None).
  { intros item len Hi Hl.
    pose proof (proj1 (firstBad_None _ _) Hf item Hi) as Ha.
    exact (proj1 (firstBad_None _ _) Ha len Hl). }
  assert (Htaken : Forall (fun s => In s (inventory p) /\ Sheet.status s = "On Hand"
                                    /\ includesId ids (Sheet.id s) = false) taken).
  { apply Forall_forall. intros s Hin. subst taken. unfold editUnits in Hin.
    apply in_flat_map in Hin. destruct Hin as (line & _ & Hin).
    apply selected_In in Hin. destruct Hin as [Hin Hp]. split; auto.
    unfold editPred, onHandAt in Hp.
    apply andb_prop in Hp. destruct Hp as [Hp Hn].
    apply andb_prop in Hp. destruct Hp as [_ Hp].
    split; [now apply String.eqb_eq | now apply negb_true_iff]. }
  split; [|split; [|exact Htaken]].
  - unfold handleEditOutgoingLog. rewrite Hs.
    unfold runTransaction, editCompletedBody. cbv zeta.
    unfold bind at 1. rewrite editChecks_run, Echeck.
    unfold bind at 1. rewrite forM_stage_run. cbn [nextAuto staged app].
    unfold bind at 1. fold ids. rewrite (editItems_run p now originalLog newLogData ids _ Hlines).
    cbn [nextAuto staged app]. fold taken. fold returned.
    unfold stage. cbn [nextAuto staged].
    rewrite <- app_assoc, !commit_app.
    rewrite (commit_updates_exact "On Hand" None None None None returned).
    2:{ intros s Hin. apply Hex. subst returned. now apply filter_In in Hin. }
    unfold usedWrite. cbv iota beta. rewrite commit_app.
    rewrite (commit_updates_exact "Used" (Some (Log.id originalLog))
               (Some (LogData.jobName newLogData)) (Some (LogData.customer newLogData))
               (Some now) taken).
    2:{ intros s Hin. cbn [inventoryCol]. rewrite hasSheet_map.
        - apply Hex. rewrite Forall_forall in Htaken. now apply Htaken.
        - intros u. now destruct (hasSheet (Sheet.id u) returned). }
    cbn [commit applyWrite usageLogsCol inventoryCol materialsCol]. rewrite Hlog.
    rewrite map_map. do 3 f_equal. apply map_ext. intros u. unfold edited.
    destruct (hasSheet (Sheet.id u) returned) eqn:Er.
    + cbn [Sheet.withUsage Sheet.id]. now destruct (hasSheet (Sheet.id u) taken).
    + reflexivity.
  - subst taken. rewrite editUnits_length; [apply lines_total|].
    intros line Hin. destruct (lines_of_items _ _ Hin) as (item & len & Hi & Hl & Hq & ->).
    cbn [fst snd]. split; [lia|]. apply (proj2 Hst item len Hi Hl).
Qed.

End EditEffect.

(** ** The further cases *)

(** Witness of X2: the key of A16GA at 96. *)
Lemma key_round_trip_witness :
  hd EmptyString (JS.splitBar (keyOf "A16GA" 96)) = "A16GA"
  /\ JS.parseInt (nth_error (JS.splitBar (keyOf "A16GA" 96)) 1) = Some 96.
Proof.
  destruct (proj1 (key_round_trip "A16GA" 96) eq_refl) as [Hm Hlen].
  split; [exact Hm | exact (Hlen eq_refl)].
Defined.

(** Witness of X3: three units scheduled, two On Hand. *)
Lemma fulfil_short_fails_witness :
  exists qty materialType length available,
    handleFulfillScheduledLog (Scenario.clientOf Scenario.twoOnHand) Scenario.now
                              Cases.scheduledThree Scenario.twoOnHand
    = (Some (CannotFulfill qty materialType length available), Scenario.twoOnHand)
    /\ available < qty.
Proof.
  apply (proj1 (fulfil_short_fails (Scenario.clientOf Scenario.twoOnHand) Scenario.now
                  Cases.scheduledThree Scenario.twoOnHand) "A16GA|96").
  vm_compute. reflexivity.
Defined.

(** Witness of X4: two units scheduled, two On Hand. *)
Lemma fulfil_succeeds_witness :
  JS.len (fulfilUnits (Scenario.clientOf Cases.planned)
                      (fold_left tally (Log.details Cases.scheduledTwo) []))
  = JS.len (Log.details Cases.scheduledTwo).
Proof.
  apply (fulfil_succeeds (Scenario.clientOf Cases.planned) Scenario.now
           Cases.scheduledTwo Cases.planned).
  - intros d [<-|[<-|[]]]; vm_compute; discriminate.
  - intros s [<-|[<-|[]]]; reflexivity.
  - reflexivity.
Defined.

(** Witness of X5: the use of both units of [twoOnHand]. *)
Lemma qty_matches_details_witness : ledgerOk (store Scenario.bothUsed).
Proof.
  apply (qty_matches_details Scenario.STANDARD_LENGTHS Scenario.getGaugeFromMaterial
           Scenario.autoId Scenario.twoOnHand Scenario.bothUsed).
  - split; [constructor | intros r []].
  - eapply ops_then; [apply ops_refl|].
    exact (op_use _ _ _ Scenario.twoOnHand (Scenario.clientOf Scenario.twoOnHand)
             Scenario.now [Scenario.useTwo] false 0).
Defined.

(** Witness of X7: two units asked of the two On Hand. *)
Lemma use_succeeds_iff_stocked_witness :
  fst (handleUseStock Scenario.STANDARD_LENGTHS Scenario.getGaugeFromMaterial
         Scenario.autoId (Scenario.clientOf Scenario.twoOnHand) Scenario.now
         [Scenario.useTwo] false 0 Scenario.twoOnHand) = None
  <-> stocked Scenario.STANDARD_LENGTHS (Scenario.clientOf Scenario.twoOnHand)
              [Scenario.useTwo].
Proof.
  apply (use_succeeds_iff_stocked Scenario.STANDARD_LENGTHS
           Scenario.getGaugeFromMaterial Scenario.autoId
           (Scenario.clientOf Scenario.twoOnHand) Scenario.now 0 [Scenario.useTwo]
           Scenario.twoOnHand).
  intros s [<-|[<-|[]]]; reflexivity.
Defined.

(** Witness of X8: two jobs of one call asking for one unit each lower
    the stock of two by one. *)
Lemma use_lowers_stock_witness :
  onHandCount "A16GA" 96
    (inventoryCol
       (store (snd (handleUseStock Scenario.STANDARD_LENGTHS
                      Scenario.getGaugeFromMaterial Scenario.autoId
                      (Scenario.clientOf Scenario.twoOnHand) Scenario.now
                      [Scenario.useOne; Scenario.useOne] false 0 Scenario.twoOnHand))))
  = onHandCount "A16GA" 96 (inventoryCol (store Scenario.twoOnHand))
    - maxRequested "A16GA" 96
        (linesOf Scenario.STANDARD_LENGTHS [Scenario.useOne; Scenario.useOne]).
Proof.
  apply (use_lowers_stock Scenario.STANDARD_LENGTHS Scenario.getGaugeFromMaterial
           Scenario.autoId (Scenario.clientOf Scenario.twoOnHand) Scenario.now 0
           [Scenario.useOne; Scenario.useOne] Scenario.twoOnHand "A16GA" 96).
  - reflexivity.
  - simpl. repeat constructor; simpl; intuition discriminate.
  - intros job item len [<-|[<-|[]]] [<-|[]] [<-|[<-|[<-|[]]]];
      vm_compute; discriminate.
Defined.

(** Witness of X9: the scheduled record of two units, edited to three. *)
Lemma scheduled_edit_rewrites_record_witness :
  fst (handleEditOutgoingLog Scenario.STANDARD_LENGTHS Scenario.getGaugeFromMaterial
         (Scenario.clientOf Cases.planned) Scenario.now Cases.scheduledTwo
         Cases.raiseToThree Cases.planned) = None.
Proof.
  rewrite (scheduled_edit_rewrites_record Scenario.STANDARD_LENGTHS
             Scenario.getGaugeFromMaterial (Scenario.clientOf Cases.planned)
             Scenario.now Cases.scheduledTwo Cases.raiseToThree Cases.planned);
    reflexivity.
Defined.

(** Witness of X12: an order of two awaited units. *)
Lemma order_adds_requested_units_witness :
  JS.len (orderUnits Scenario.STANDARD_LENGTHS Scenario.getGaugeFromMaterial
                     Scenario.now [Cases.restock])
  = fold_right (fun job acc =>
                  requestedTotal Scenario.STANDARD_LENGTHS (Job.items job) + acc)
               0 [Cases.restock].
Proof.
  apply (order_adds_requested_units Scenario.STANDARD_LENGTHS
           Scenario.getGaugeFromMaterial Scenario.autoId scenario_autoId_inj
           Scenario.now [Cases.restock] None Scenario.now Scenario.twoOnHand).
  - intros j _. reflexivity.
  - reflexivity.
Defined.

(** Witness of X14: three units asked for a record of two, none On Hand. *)
Lemma edit_stock_check_fails_witness :
  exists materialType length needed available,
    handleEditOutgoingLog Scenario.STANDARD_LENGTHS Scenario.getGaugeFromMaterial
      (Scenario.clientOf Scenario.bothUsed) Scenario.now Scenario.recordOfUse
      Cases.raiseToThree Scenario.bothUsed
    = (Some (EditNotEnoughStock materialType length needed available), Scenario.bothUsed)
    /\ available < needed.
Proof.
  apply (proj1 (edit_stock_check_fails Scenario.STANDARD_LENGTHS
                  Scenario.getGaugeFromMaterial (Scenario.clientOf Scenario.bothUsed)
                  Scenario.now Scenario.recordOfUse Cases.raiseToThree Scenario.bothUsed
                  eq_refl) "A16GA|96").
  vm_compute. reflexivity.
Defined.

(** Witness of X19: the last of three results. *)
Lemma search_index_stays_valid_witness :
  searchIndexOk (handleSearchKeyDown "ArrowDown" (3, 2)).
Proof.
  apply (search_index_stays_valid "ArrowDown" (3, 2)). right. simpl. lia.
Defined.

(** Witness of X22: a manual addition beside a received unit. *)
Lemma manual_adjustments_are_logged_witness :
  exists g,
    In g (incomingItems Cases.toISOString [Scenario.s1; Cases.manual])
    /\ Order.id g = orderKey Cases.toISOString Cases.manual
    /\ In Cases.manual (Order.details g).
Proof.
  apply (manual_adjustments_are_logged Cases.toISOString [Scenario.s1; Cases.manual]
           Cases.manual "A16GA" 96).
  - right. now left.
  - repeat split.
Defined.


Lemma recordOfTwo_stocked :
  editStocked Scenario.STANDARD_LENGTHS (Scenario.clientOf Cases.thirdOnHand)
              Cases.recordOfTwo Scenario.lowerToOne.
Proof.
  split.
  - intros k change Hin Hneg. vm_compute in Hin.
    destruct Hin as [E|[]]. inversion E; subst. lia.
  - intros item len Hi Hl. simpl in Hi. destruct Hi as [<-|[]].
    destruct Hl as [<-|[<-|[<-|[]]]]; vm_compute; intro; discriminate.
Defined.

Lemma thirdOnHand_in_store (s : Sheet.t) :
  In s (inventory (Scenario.clientOf Cases.thirdOnHand)) ->
  hasSheet (Sheet.id s) (inventoryCol (store Cases.thirdOnHand)) = true.
Proof.
  intros Hs. vm_compute in Hs. destruct Hs as [<-|[<-|[<-|[]]]]; reflexivity.
Defined.

(** Witness of X25: a record of two units lowered to one while a third unit
    is On Hand. *)
Lemma edit_succeeds_iff_witness :
  fst (handleEditOutgoingLog Scenario.STANDARD_LENGTHS Scenario.getGaugeFromMaterial
         (Scenario.clientOf Cases.thirdOnHand) Scenario.now Cases.recordOfTwo
         Scenario.lowerToOne Cases.thirdOnHand) = None
  <-> editStocked Scenario.STANDARD_LENGTHS (Scenario.clientOf Cases.thirdOnHand)
                  Cases.recordOfTwo Scenario.lowerToOne
      /\ hasLog (Log.id Cases.recordOfTwo) (usageLogsCol (store Cases.thirdOnHand)) = true.
Proof.
  apply (edit_succeeds_iff Scenario.STANDARD_LENGTHS Scenario.getGaugeFromMaterial
           (Scenario.clientOf Cases.thirdOnHand) Scenario.now Cases.recordOfTwo
           Scenario.lowerToOne Cases.thirdOnHand).
  - reflexivity.
  - exact thirdOnHand_in_store.
Defined.

(** Witness of X27: the same edit; the record's two units go back On Hand
    and the third is taken. *)
Lemma edit_effect_witness :
  let p := Scenario.clientOf Cases.thirdOnHand in
  let w := Cases.thirdOnHand in
  let originalLog := Cases.recordOfTwo in
  let newLogData := Scenario.lowerToOne in
  let ids := map detail_id (Log.details originalLog) in
  let returned := filter (fun i => includesId ids (Sheet.id i)) (inventory p) in
  let taken :=
    editUnits p ids (linesOfItems Scenario.STANDARD_LENGTHS (LogData.items newLogData)) in
  handleEditOutgoingLog Scenario.STANDARD_LENGTHS Scenario.getGaugeFromMaterial p
                        Scenario.now originalLog newLogData w
  = (None,
     mkWorld
       (mkDb (map (edited Scenario.now (Log.id originalLog) (LogData.jobName newLogData)
                          (LogData.customer newLogData) taken returned)
                  (inventoryCol (store w)))
             (patchLog (Log.id originalLog)
                (fun r => Log.mk (Log.id r) (LogData.jobName newLogData)
                                 (LogData.customer newLogData) (Log.createdAt r)
                                 (Log.usedAt r) (Log.status r) (map Snapshot taken)
                                 (- JS.len taken) (Log.fulfilledAt r))
                (usageLogsCol (store w)))
             (materialsCol (store w)))
       (idsDrawn w))
  /\ JS.len taken = requestedTotal Scenario.STANDARD_LENGTHS (LogData.items newLogData)
  /\ Forall (fun s => In s (inventory p) /\ Sheet.status s = "On Hand"
                      /\ includesId ids (Sheet.id s) = false) taken.
Proof.
  apply (edit_effect Scenario.STANDARD_LENGTHS Scenario.getGaugeFromMaterial
           (Scenario.clientOf Cases.thirdOnHand) Scenario.now Cases.recordOfTwo
           Scenario.lowerToOne Cases.thirdOnHand).
  - reflexivity.
  - exact thirdOnHand_in_store.
  - exact recordOfTwo_stocked.
  - reflexivity.
Defined.

(** The modal refuses a batch in which a customer is one no-break space,
    which [trim] removes. *)
Lemma modal_refuses_blank_customer :
  JS.trim Cases.noBreakSpace = EmptyString
  /\ modalHandleSubmit Scenario.STANDARD_LENGTHS Scenario.autoId
       (inventoryCol (store Scenario.twoOnHand)) Scenario.now [Cases.blankCustomer]
       Scenario.twoOnHand
     = (Some ValidationError, Scenario.twoOnHand).
Proof. split; vm_compute; reflexivity. Qed.

(** The condition on Scheduled records is needed: where a Scheduled record
    lists a unit that is Used for it, the edit of the record, which writes
    descriptors over its details, leaves the unit with a reference to a
    record that no longer lists it. *)
Lemma scheduled_record_listing_a_unit :
  let w' := snd (handleEditOutgoingLog Scenario.STANDARD_LENGTHS
                   Scenario.getGaugeFromMaterial (Scenario.clientOf Cases.listing)
                   Scenario.now Cases.scheduledListing Scenario.lowerToOne
                   Cases.listing) in
  (forall u, In u (inventoryCol (store Cases.listing)) ->
             backRefOk (store Cases.listing) u)
  /\ step Scenario.STANDARD_LENGTHS Scenario.getGaugeFromMaterial Scenario.autoId
          Cases.listing w'
  /\ exists u, In u (inventoryCol (store w')) /\ ~ backRefOk (store w') u.
Proof.
  split; [|split].
  - intros u [<-|[]]. split; [split; [reflexivity | discriminate]|].
    intros l [= <-]. exists Cases.scheduledListing.
    split; [now left | split; [reflexivity | now left]].
  - apply step_edit; [now left | reflexivity].
  - exists Cases.usedForScheduled. split; [vm_compute; now left|].
    intros [_ H]. destruct (H "log-1" eq_refl) as (r & Hr & _ & Hin).
    vm_compute in Hr. destruct Hr as [<-|[]].
    vm_compute in Hin. destruct Hin as [Hin|[]]. discriminate.
Qed.
